(** * Timetable optimizer: a shallow embedding of [scheduler_engine.py]

    The development follows the class [AdvancedTimetableOptimizer]: the
    snapshot loaded by [load_data], candidate construction, the constraint
    evaluator, the genetic loop and the multi-solution driver.

    Conventions of the embedding.
    - Python [int] is [Z]; Python [float] is an exact rational [Q]
      (rounding is not modelled); a comparison [std_dev < c] on a square
      root is written on the variance, [variance < c * c].
    - Schedule entries are Python dicts that are shared between candidate
      lists and mutated in place.  They live in a store ([heap]) and a
      candidate is a list of store locations.
    - The functions of module [random] draw from an oracle, a stream of
      raw outcomes read through a cursor in the state; every theorem
      quantifies over the oracle.  Calls of [print] are not modelled.
    - A Python exception is an [outcome] of the form [Raise e]; the state
      reached when the exception is raised is kept.
    - The population size, the generation budget and the number of
      requested alternatives are natural numbers; columns that the
      database may leave null are taken as present, except the faculty of
      a subject. *)

From Stdlib Require Import QArith Qminmax Lqa Permutation Sorted Ascii String.
From stdpp Require Import gmap strings list fin_maps.

Open Scope Z_scope.

(** ** Exceptions and the two monads *)

Inductive exn : Type :=
| ValueError
| IndexError
| KeyError
| DanglingRef   (* a location outside the store: no Python counterpart *)
| OutOfFuel.    (* a [while] loop of the model ran out of fuel *)

Inductive outcome (A : Type) : Type :=
| Ok (a : A)
| Raise (e : exn).
Arguments Ok {A} a.
Arguments Raise {A} e.

Global Instance outcome_ret : MRet outcome := fun _ a => Ok a.

Global Instance outcome_bind : MBind outcome := fun _ _ f o =>
  match o with
  | Ok a => f a
  | Raise e => Raise e
  end.

Definition of_option {A} (e : exn) (o : option A) : outcome A :=
  match o with
  | Some a => Ok a
  | None => Raise e
  end.

Fixpoint omapM {A B} (f : A -> outcome B) (l : list A) : outcome (list B) :=
  match l with
  | [] => Ok []
  | x :: l' => y ← f x; ys ← omapM f l'; Ok (y :: ys)
  end.

(** ** Rationals as booleans *)

Definition Qlt_bool (a b : Q) : bool := negb (Qle_bool b a).

(** ** Builtins of Python and numpy used by the optimizer *)

(** [max(0, x)]: the first argument is returned unless the second is
    strictly greater. *)
Definition py_max0 (x : Q) : Q := if Qlt_bool 0 x then x else 0%Q.

(** [max(l)] on a non-empty list: the first maximal element. *)
Definition py_max (l : list Q) : option Q :=
  match l with
  | [] => None
  | x :: l' => Some (foldl (fun m y => if Qlt_bool m y then y else m) x l')
  end.

(** [np.argmax(l)]: the index of the first maximal element; [ValueError]
    on an empty sequence. *)
Fixpoint argmax_from (l : list Q) (i : nat) (best : nat) (m : Q) : nat :=
  match l with
  | [] => best
  | y :: l' =>
      if Qlt_bool m y then argmax_from l' (S i) i y
      else argmax_from l' (S i) best m
  end.

Definition np_argmax (l : list Q) : outcome nat :=
  match l with
  | [] => Raise ValueError
  | x :: l' => Ok (argmax_from l' 1 0 x)
  end.

(** [np.argsort(l)]: the indices of [l] in ascending order of value.
    The order of indices of equal values is left open by numpy's default
    sort kind; the model keeps them in index order. *)
Fixpoint argsort_insert (l : list Q) (i : nat) (sorted : list nat) : list nat :=
  match sorted with
  | [] => [i]
  | j :: rest =>
      if Qle_bool (nth i l 0%Q) (nth j l 0%Q) then i :: j :: rest
      else j :: argsort_insert l i rest
  end.

Definition np_argsort (l : list Q) : list nat :=
  foldr (argsort_insert l) [] (seq 0 (length l)).

(** [l[-k:]] for [k >= 1]. *)
Definition last_k {A} (k : nat) (l : list A) : list A :=
  drop (length l - k) l.

(** [list.sort(key=...)]: a stable sort, as an insertion sort on a
    boolean [key x <= key y]. *)
Section StableSort.
Context {A : Type} (le : A -> A -> bool).

Fixpoint sort_insert (x : A) (l : list A) : list A :=
  match l with
  | [] => [x]
  | y :: l' => if le x y then x :: y :: l' else y :: sort_insert x l'
  end.

Definition stable_sort (l : list A) : list A := foldr sort_insert [] l.
End StableSort.

(** ** Times of day and their ['%H:%M'] text *)

Record time := { hour : nat; minute : nat }.

Definition time_ok (t : time) : Prop := (hour t < 24)%nat /\ (minute t < 60)%nat.

Definition digit_char (d : nat) : ascii := ascii_of_nat (48 + d).

Definition two_digits (n : nat) : string :=
  String (digit_char (n / 10)) (String (digit_char (n mod 10)) EmptyString).

(** [t.strftime('%H:%M')] *)
Definition strftime_HM (t : time) : string :=
  two_digits (hour t) +:+ ":" +:+ two_digits (minute t).

Definition is_digit (c : ascii) : bool :=
  (48 <=? nat_of_ascii c)%nat && (nat_of_ascii c <=? 57)%nat.

Definition digit_val (c : ascii) : nat := (nat_of_ascii c - 48)%nat.

Definition colon : ascii := ":"%char.

(** The group [(?P<H>2[0-3]|[0-1]\d|\d)] followed by [:]. *)
Definition parse_H (s : string) : option (nat * string) :=
  match s with
  | String a (String b (String c rest)) =>
      if is_digit a && is_digit b && bool_decide (c = colon)
         && (10 * digit_val a + digit_val b <? 24)%nat
      then Some ((10 * digit_val a + digit_val b)%nat, rest)
      else if is_digit a && bool_decide (b = colon)
      then Some (digit_val a, String c rest)
      else None
  | String a (String b rest) =>
      if is_digit a && bool_decide (b = colon)
      then Some (digit_val a, rest)
      else None
  | _ => None
  end.

(** The group [(?P<M>[0-5]\d|\d)]; what follows it must be the end of
    the text, else [strptime] raises "unconverted data remains". *)
Definition parse_M (s : string) : option nat :=
  match s with
  | String a EmptyString =>
      if is_digit a then Some (digit_val a) else None
  | String a (String b EmptyString) =>
      if is_digit a && is_digit b && (digit_val a <? 6)%nat
      then Some (10 * digit_val a + digit_val b)%nat
      else None
  | _ => None
  end.

(** [datetime.strptime(s, '%H:%M')], as minutes after midnight of the
    default date; [ValueError] when the text does not match. *)
Definition strptime_HM (s : string) : outcome Z :=
  match parse_H s with
  | Some (h, rest) =>
      match parse_M rest with
      | Some m => Ok (Z.of_nat h * 60 + Z.of_nat m)
      | None => Raise ValueError
      end
  | None => Raise ValueError
  end.

(** [(end - start).seconds / 3600]: a [timedelta] normalises its seconds
    into [0, 86400). *)
Definition duration_hours (start_min end_min : Z) : Q :=
  (((end_min - start_min) * 60) `mod` 86400) # 3600.

(** ** The input snapshot ([models.py], the columns the optimizer reads) *)

Record Classroom := {
  classroom_id : Z;
  classroom_capacity : Z;
  classroom_is_available : bool }.

Record Laboratory := {
  laboratory_id : Z;
  laboratory_capacity : Z;
  laboratory_is_available : bool }.

Record Faculty := {
  faculty_pk : Z;
  max_hours_per_day : Z;
  max_hours_per_week : Z }.

Record Subject := {
  subject_pk : Z;
  theory_hours_per_week : Z;
  lab_hours_per_week : Z;
  subject_faculty_id : option Z;
  subject_semester_id : Z }.

Record Batch := {
  batch_pk : Z;
  student_count : Z;
  batch_semester_id : Z;
  max_classes_per_day : Z }.

(** A row of table [special_classes]. *)
Record SpecialClassRow := {
  row_subject_id : Z;
  row_batch_id : Z;
  row_day_of_week : Z;
  row_start_time : time;
  row_end_time : time;
  row_class_type : string;
  row_priority : Z }.

(** A loaded [SpecialClass] object: the row and its relationship
    attributes [subject] and [batch]. *)
Record SpecialClass := {
  sc_row : SpecialClassRow;
  sc_subject : Subject;
  sc_batch : option Batch }.

Record Database := {
  db_classrooms : list Classroom;
  db_laboratories : list Laboratory;
  db_faculty : list Faculty;
  db_subjects : list Subject;
  db_batches : list Batch;
  db_special_classes : list SpecialClassRow }.

(** ** Configuration ([Config.py]) *)

Record Config := {
  GA_POPULATION_SIZE : nat;
  GA_GENERATIONS : nat;
  GA_MUTATION_RATE : Q;
  GA_CROSSOVER_RATE : Q;
  WORKING_DAYS : list string;
  TIME_SLOTS : list (string * string);
  MAX_CLASSES_PER_DAY : Z;
  MIN_CLASSROOM_UTILIZATION : Q;
  MAX_CLASSROOM_UTILIZATION : Q;
  OPTIMIZATION_WEIGHTS : gmap string Z }.

(** The class attributes when no environment variable overrides them. *)
Definition default_Config : Config := {|
  GA_POPULATION_SIZE := 50;
  GA_GENERATIONS := 100;
  GA_MUTATION_RATE := 1 # 10;
  GA_CROSSOVER_RATE := 8 # 10;
  WORKING_DAYS := ["Monday"; "Tuesday"; "Wednesday"; "Thursday"; "Friday"];
  TIME_SLOTS := [("09:00", "10:00"); ("10:00", "11:00"); ("11:00", "12:00");
                 ("12:00", "13:00"); ("13:00", "14:00"); ("14:00", "15:00");
                 ("15:00", "16:00"); ("16:00", "17:00"); ("17:00", "18:00")];
  MAX_CLASSES_PER_DAY := 8;
  MIN_CLASSROOM_UTILIZATION := 6 # 10;
  MAX_CLASSROOM_UTILIZATION := 85 # 100;
  OPTIMIZATION_WEIGHTS := list_to_map [
    ("room_conflicts", 200); ("faculty_conflicts", 200);
    ("batch_conflicts", 200); ("lab_conflicts", 180);
    ("capacity_violations", 160); ("shift_violations", 140);
    ("max_classes_per_day", 120);
    ("faculty_availability_violations", 150);
    ("special_class_violations", 300);
    ("lab_duration_violations", 100); ("lab_equipment_conflicts", 120);
    ("lab_safety_violations", 140); ("technician_availability", 80);
    ("classroom_utilization", 50); ("lab_utilization", 60);
    ("faculty_load_balance", 40); ("elective_sync_violations", 70);
    ("interdisciplinary_bonus", 30); ("continuous_slot_bonus", 20)] |}.

(** ** Schedule entries, conflicts and the optimizer object *)

(** A schedule entry is a dict.  The keys read with [entry.get(...)]
    may be absent and are options; the others are read with [entry[...]].
    No dict built by the source has key [is_elective]. *)
Record ScheduleEntry := {
  subject_id : Z;
  batch_id : Z;
  faculty_id : option Z;
  venue_id : Z;
  venue_type : option string;
  day : string;
  start_time : string;
  end_time : string;
  is_fixed : option bool;
  shift : string;
  class_type : option string;
  priority : option Z;
  is_elective : option bool }.

(** [entry.get('is_fixed', False)] *)
Definition get_is_fixed (e : ScheduleEntry) : bool := default false (is_fixed e).

(** [entry.get('priority', 99)] *)
Definition get_priority (e : ScheduleEntry) : Z := default 99 (priority e).

Definition set_day (d : string) (e : ScheduleEntry) : ScheduleEntry :=
  {| subject_id := subject_id e; batch_id := batch_id e;
     faculty_id := faculty_id e; venue_id := venue_id e;
     venue_type := venue_type e; day := d;
     start_time := start_time e; end_time := end_time e;
     is_fixed := is_fixed e; shift := shift e;
     class_type := class_type e; priority := priority e;
     is_elective := is_elective e |}.

Definition set_times (s t : string) (e : ScheduleEntry) : ScheduleEntry :=
  {| subject_id := subject_id e; batch_id := batch_id e;
     faculty_id := faculty_id e; venue_id := venue_id e;
     venue_type := venue_type e; day := day e;
     start_time := s; end_time := t;
     is_fixed := is_fixed e; shift := shift e;
     class_type := class_type e; priority := priority e;
     is_elective := is_elective e |}.

Definition set_venue (v : Z) (ty : string) (e : ScheduleEntry) : ScheduleEntry :=
  {| subject_id := subject_id e; batch_id := batch_id e;
     faculty_id := faculty_id e; venue_id := v;
     venue_type := Some ty; day := day e;
     start_time := start_time e; end_time := end_time e;
     is_fixed := is_fixed e; shift := shift e;
     class_type := class_type e; priority := priority e;
     is_elective := is_elective e |}.

(** A conflict dict, as [enforce_max_classes_per_day] writes them. *)
Record Conflict := {
  conflict_type : string;
  conflict_subject : option Z;
  conflict_batch_id : Z;
  conflict_day : string;
  conflict_count : option Z;
  conflict_limit : option Z;
  conflict_reason : string }.

(** The attributes of [self] that the methods read.  [conflicts] is
    mutable and lives in the state. *)
Record optimizer := {
  semester_id : Z;
  classrooms : list Classroom;
  laboratories : list Laboratory;
  faculty : list Faculty;
  subjects : list Subject;
  batches : list Batch;
  special_classes : list SpecialClass;
  time_slots : list (string * string);
  working_days : list string;
  population_size : nat;
  generations : nat;
  mutation_rate : Q;
  crossover_rate : Q;
  weights : gmap string Z }.

Definition with_search_parameters (self : optimizer) (rate : Q) (size : nat)
  : optimizer :=
  {| semester_id := semester_id self; classrooms := classrooms self;
     laboratories := laboratories self; faculty := faculty self;
     subjects := subjects self; batches := batches self;
     special_classes := special_classes self;
     time_slots := time_slots self; working_days := working_days self;
     population_size := size; generations := generations self;
     mutation_rate := rate; crossover_rate := crossover_rate self;
     weights := weights self |}.

(** ** The state: store of entries, random oracle, [self.conflicts] *)

Definition loc := nat.

Record world := {
  heap : list ScheduleEntry;
  rng : nat -> N;       (* the oracle: the raw outcome of the n-th draw *)
  drawn : nat;          (* the number of draws made so far *)
  conflicts : list Conflict }.

Definition M (A : Type) : Type := world -> outcome A * world.

Global Instance M_ret : MRet M := fun _ a w => (Ok a, w).

Global Instance M_bind : MBind M := fun _ _ f m w =>
  match m w with
  | (Ok a, w') => f a w'
  | (Raise e, w') => (Raise e, w')
  end.

Definition lift {A} (o : outcome A) : M A := fun w => (o, w).

Definition raise {A} (e : exn) : M A := lift (Raise e).

(** Allocation of a fresh dict. *)
Definition alloc (e : ScheduleEntry) : M loc := fun w =>
  (Ok (length (heap w)),
   {| heap := heap w ++ [e]; rng := rng w; drawn := drawn w;
      conflicts := conflicts w |}).

Definition read (l : loc) : M ScheduleEntry := fun w =>
  (of_option DanglingRef (heap w !! l), w).

(** [d[key] = value] on the dict at [l], as a function on its record. *)
Definition modify (l : loc) (f : ScheduleEntry -> ScheduleEntry) : M unit := fun w =>
  match heap w !! l with
  | Some e =>
      (Ok tt, {| heap := <[l := f e]> (heap w); rng := rng w;
                 drawn := drawn w; conflicts := conflicts w |})
  | None => (Raise DanglingRef, w)
  end.

(** The list of dicts a candidate denotes. *)
Definition deref (h : list ScheduleEntry) (ind : list loc)
  : outcome (list ScheduleEntry) :=
  omapM (fun l => of_option DanglingRef (h !! l)) ind.

Definition read_schedule (ind : list loc) : M (list ScheduleEntry) := fun w =>
  (deref (heap w) ind, w).

Definition append_conflict (c : Conflict) : M unit := fun w =>
  (Ok tt, {| heap := heap w; rng := rng w; drawn := drawn w;
             conflicts := conflicts w ++ [c] |}).

Definition get_conflicts : M (list Conflict) := fun w => (Ok (conflicts w), w).

Definition reset_conflicts : M unit := fun w =>
  (Ok tt, {| heap := heap w; rng := rng w; drawn := drawn w; conflicts := [] |}).

Fixpoint mapM {A B} (f : A -> M B) (l : list A) : M (list B) :=
  match l with
  | [] => mret []
  | x :: l' => y ← f x; ys ← mapM f l'; mret (y :: ys)
  end.

(** ** Module [random] *)

Definition draw : M N := fun w =>
  (Ok (rng w (drawn w)),
   {| heap := heap w; rng := rng w; drawn := S (drawn w);
      conflicts := conflicts w |}).

(** [random.random()]: a multiple of [2^-53] in [[0, 1)]. *)
Definition random_random : M Q :=
  k ← draw; mret (Z.of_N (k mod 2 ^ 53)%N # 2 ^ 53).

(** [_randbelow(n)] for [n > 0]. *)
Definition randbelow (n : nat) : M nat :=
  k ← draw; mret (N.to_nat (k mod N.of_nat n)).

(** [random.choice(seq)]; [IndexError] on an empty sequence. *)
Definition random_choice {A} (l : list A) : M A :=
  match l with
  | [] => raise IndexError
  | _ => i ← randbelow (length l); lift (of_option IndexError (l !! i))
  end.

(** [random.randint(a, b)]; [ValueError] on an empty range. *)
Definition random_randint (a b : Z) : M Z :=
  if a <=? b then i ← randbelow (Z.to_nat (b - a + 1)); mret (a + Z.of_nat i)
  else raise ValueError.

(** [random.sample(range(n), k)] for [k <= n], by selection from a pool:
    [j = randbelow(n - i); result[i] = pool[j]; pool[j] = pool[n - i - 1]].
    (For a large [n] CPython selects by rejection from a set instead; both
    ways give [k] distinct indices below [n].) *)
Fixpoint sample_pool (pool : list nat) (k : nat) : M (list nat) :=
  match k with
  | O => mret []
  | S k' =>
      let n := length pool in
      j ← randbelow n;
      x ← lift (of_option IndexError (pool !! j));
      y ← lift (of_option IndexError (pool !! (n - 1)%nat));
      rest ← sample_pool (take (n - 1) (<[j := y]> pool)) k';
      mret (x :: rest)
  end.

Definition random_sample_range (n k : nat) : M (list nat) :=
  if (k <=? n)%nat then sample_pool (seq 0 n) k else raise ValueError.

(** ** The constraint evaluator *)

Section Engine.
(** The attributes of class [Config] that methods read directly. *)
Variable cfg : Config.

(** [next((b for b in self.batches if b.id == batch_id), None)] and the
    cap it selects. *)
Definition find_batch (self : optimizer) (b : Z) : option Batch :=
  List.find (fun x => bool_decide (batch_pk x = b)) (batches self).

Definition max_classes_of (self : optimizer) (b : Z) : Z :=
  match find_batch self b with
  | Some x => max_classes_per_day x
  | None => MAX_CLASSES_PER_DAY cfg
  end.

Definition find_faculty (self : optimizer) (f : option Z) : option Faculty :=
  List.find (fun x => bool_decide (Some (faculty_pk x) = f)) (faculty self).

(** [batch_daily_count[batch_id][day] += 1], after the two
    initialisations to [{}] and [0]. *)
Definition bump (b : Z) (d : string) (m : gmap Z (gmap string Z))
  : gmap Z (gmap string Z) :=
  let inner := default ∅ (m !! b) in
  <[b := <[d := default 0 (inner !! d) + 1]> inner]> m.

Definition check_max_classes_per_day_violations
    (self : optimizer) (schedule : list ScheduleEntry) : Z :=
  let batch_daily_count :=
    foldl (fun m e => bump (batch_id e) (day e) m) ∅ schedule in
  map_fold (fun b daily_counts violations =>
    let max_classes := max_classes_of self b in
    map_fold (fun (_ : string) count v =>
      if max_classes <? count then v + (count - max_classes) else v)
      violations daily_counts)
    0 batch_daily_count.

Definition calculate_classroom_utilization_score
    (self : optimizer) (schedule : list ScheduleEntry) : Z :=
  let total_slots :=
    Z.of_nat (length (working_days self)) * Z.of_nat (length (time_slots self)) in
  let room_usage : gmap Z Z :=
    foldl (fun m e =>
      if bool_decide (venue_type e = Some "classroom")
      then <[venue_id e := default 0 (m !! venue_id e) + 1]> m
      else m) ∅ schedule in
  if bool_decide (room_usage = ∅) then 0
  else
    let total_rooms := Z.of_nat (length (classrooms self)) in
    let total_possible_usage := total_rooms * total_slots in
    let actual_usage := map_fold (fun (_ : Z) v acc => acc + v) 0 room_usage in
    let utilization_rate : Q :=
      if 0 <? total_possible_usage
      then (inject_Z actual_usage / inject_Z total_possible_usage)%Q
      else 0%Q in
    let min_util := MIN_CLASSROOM_UTILIZATION cfg in
    let max_util := MAX_CLASSROOM_UTILIZATION cfg in
    if Qle_bool min_util utilization_rate && Qle_bool utilization_rate max_util
    then 20
    else if Qle_bool (min_util * (8 # 10)) utilization_rate
            && Qle_bool utilization_rate (max_util * (11 # 10))
    then 15
    else 5.

(** The two dicts of hours that the first loop of
    [calculate_faculty_load_balance_score] fills. *)
Definition add_hours (f : option Z) (d : string) (h : Q)
    (acc : gmap (option Z) Q * gmap (option Z) (gmap string Q))
  : gmap (option Z) Q * gmap (option Z) (gmap string Q) :=
  let '(faculty_hours, faculty_daily_hours) := acc in
  let inner := default ∅ (faculty_daily_hours !! f) in
  (<[f := (default 0 (faculty_hours !! f) + h)%Q]> faculty_hours,
   <[f := <[d := (default 0 (inner !! d) + h)%Q]> inner]> faculty_daily_hours).

Fixpoint collect_hours (schedule : list ScheduleEntry)
    (acc : gmap (option Z) Q * gmap (option Z) (gmap string Q))
  : outcome (gmap (option Z) Q * gmap (option Z) (gmap string Q)) :=
  match schedule with
  | [] => Ok acc
  | entry :: rest =>
      s ← strptime_HM (start_time entry);
      t ← strptime_HM (end_time entry);
      collect_hours rest
        (add_hours (faculty_id entry) (day entry) (duration_hours s t) acc)
  end.

Definition Qsum (l : list Q) : Q := foldl Qplus 0%Q l.

Definition map_values {K} `{Countable K} {V} (m : gmap K V) : list V :=
  (map_to_list m).*2.

(** [sum((h - avg) ** 2 for h in hours_list) / len(hours_list)] *)
Definition variance (hours_list : list Q) : Q :=
  let n := inject_Z (Z.of_nat (length hours_list)) in
  let avg_hours := (Qsum hours_list / n)%Q in
  (Qsum (map (fun h => (h - avg_hours) * (h - avg_hours))%Q hours_list) / n)%Q.

Definition calculate_faculty_load_balance_score
    (self : optimizer) (schedule : list ScheduleEntry) : outcome Q :=
  '(faculty_hours, faculty_daily_hours) ← collect_hours schedule (∅, ∅);
  let violations : Q :=
    map_fold (fun f weekly_hours v =>
      match find_faculty self f with
      | None => v
      | Some fac =>
          let v1 :=
            if Qlt_bool (inject_Z (max_hours_per_week fac)) weekly_hours
            then (v + (weekly_hours - inject_Z (max_hours_per_week fac)))%Q
            else v in
          map_fold (fun (_ : string) daily_hours v2 =>
            if Qlt_bool (inject_Z (max_hours_per_day fac)) daily_hours
            then (v2 + (daily_hours - inject_Z (max_hours_per_day fac)))%Q
            else v2)
            v1 (default ∅ (faculty_daily_hours !! f))
      end) 0%Q faculty_hours in
  let balance_score : Q :=
    if bool_decide (faculty_hours = ∅) then 0%Q
    else
      let var := variance (map_values faculty_hours) in
      if Qlt_bool var 4 then 20%Q
      else if Qlt_bool var 16 then 15%Q
      else if Qlt_bool var 36 then 10%Q
      else 5%Q in
  Ok (balance_score - violations)%Q.

(** The checks that the source leaves as placeholders. *)
Definition check_room_conflicts (schedule : list ScheduleEntry) : Z := 0.
Definition check_faculty_conflicts (schedule : list ScheduleEntry) : Z := 0.
Definition check_batch_conflicts (schedule : list ScheduleEntry) : Z := 0.
Definition check_capacity_violations (schedule : list ScheduleEntry) : Z := 0.
Definition check_shift_violations (schedule : list ScheduleEntry) : Z := 0.
Definition check_faculty_availability_violations
  (schedule : list ScheduleEntry) : Z := 0.
Definition check_special_class_violations (schedule : list ScheduleEntry) : Z := 0.
Definition check_lab_conflicts (schedule : list ScheduleEntry) : Z := 0.
Definition check_lab_duration_violations (schedule : list ScheduleEntry) : Z := 0.
Definition check_elective_sync_violations (schedule : list ScheduleEntry) : Z := 0.
Definition calculate_lab_utilization_score (schedule : list ScheduleEntry) : Z := 0.

(** [self.weights[key]] *)
Definition weight (self : optimizer) (key : string) : outcome Q :=
  w ← of_option KeyError (weights self !! key); Ok (inject_Z w).

Definition calculate_comprehensive_fitness
    (self : optimizer) (schedule : list ScheduleEntry) : outcome Q :=
  let f0 := 1000%Q in
  w ← weight self "room_conflicts";
  let f1 := (f0 - inject_Z (check_room_conflicts schedule) * w)%Q in
  w ← weight self "faculty_conflicts";
  let f2 := (f1 - inject_Z (check_faculty_conflicts schedule) * w)%Q in
  w ← weight self "batch_conflicts";
  let f3 := (f2 - inject_Z (check_batch_conflicts schedule) * w)%Q in
  w ← weight self "capacity_violations";
  let f4 := (f3 - inject_Z (check_capacity_violations schedule) * w)%Q in
  w ← weight self "shift_violations";
  let f5 := (f4 - inject_Z (check_shift_violations schedule) * w)%Q in
  w ← weight self "max_classes_per_day";
  let f6 :=
    (f5 - inject_Z (check_max_classes_per_day_violations self schedule) * w)%Q in
  w ← weight self "faculty_availability_violations";
  let f7 :=
    (f6 - inject_Z (check_faculty_availability_violations schedule) * w)%Q in
  w ← weight self "special_class_violations";
  let f8 := (f7 - inject_Z (check_special_class_violations schedule) * w)%Q in
  w ← weight self "lab_conflicts";
  let f9 := (f8 - inject_Z (check_lab_conflicts schedule) * w)%Q in
  w ← weight self "lab_duration_violations";
  let f10 := (f9 - inject_Z (check_lab_duration_violations schedule) * w)%Q in
  w ← weight self "elective_sync_violations";
  let f11 := (f10 - inject_Z (check_elective_sync_violations schedule) * w)%Q in
  w ← weight self "classroom_utilization";
  let f12 :=
    (f11 + inject_Z (calculate_classroom_utilization_score self schedule) * w)%Q in
  w ← weight self "lab_utilization";
  let f13 := (f12 + inject_Z (calculate_lab_utilization_score schedule) * w)%Q in
  b ← calculate_faculty_load_balance_score self schedule;
  w ← weight self "faculty_load_balance";
  let f14 := (f13 + b * w)%Q in
  Ok (py_max0 f14).
(** ** Candidate construction *)

Record Venue := { venue_pk : Z; venue_kind : string }.

(** Placeholders of the source. *)
Definition schedule_lab_sessions : M (list loc) := mret [].
Definition schedule_electives_advanced : M (list loc) := mret [].
Definition schedule_theory_classes (existing_schedule : list loc) : M (list loc) :=
  mret [].
Definition reschedule_to_different_day (entry : loc)
    (batch_daily_count : gmap Z (gmap string Z)) (max_classes : Z)
  : M (option loc) := mret None.
Definition get_suitable_venue (subject : Subject) (batch : option Batch)
  : option Venue := Some {| venue_pk := 1; venue_kind := "classroom" |}.

Definition convert_day_number_to_name (day_number : Z) : string :=
  default "Monday"
    ((list_to_map [(1, "Monday"); (2, "Tuesday"); (3, "Wednesday");
                   (4, "Thursday"); (5, "Friday")] : gmap Z string)
       !! day_number).

Definition get_time_shift (t : time) : string :=
  if (hour t <? 14)%nat then "morning" else "evening".

(** The dict built for one special class. *)
Definition special_entry (special : SpecialClass) (venue : Venue) : ScheduleEntry :=
  let r := sc_row special in
  {| subject_id := row_subject_id r;
     batch_id := row_batch_id r;
     faculty_id := subject_faculty_id (sc_subject special);
     venue_id := venue_pk venue;
     venue_type := Some (venue_kind venue);
     day := convert_day_number_to_name (row_day_of_week r);
     start_time := strftime_HM (row_start_time r);
     end_time := strftime_HM (row_end_time r);
     is_fixed := Some true;
     shift := get_time_shift (row_start_time r);
     class_type := Some (row_class_type r);
     priority := Some (row_priority r);
     is_elective := None |}.

(** The key [(not x.get('is_fixed', False), x.get('priority', 99))] and
    the order of Python tuples on it. *)
Definition sort_key (e : ScheduleEntry) : bool * Z :=
  (negb (get_is_fixed e), get_priority e).

Definition key_le (x y : bool * Z) : bool :=
  if Bool.eqb x.1 y.1 then x.2 <=? y.2 else negb x.1.

Definition count_of (m : gmap Z (gmap string Z)) (b : Z) (d : string) : Z :=
  default 0 (default ∅ (m !! b) !! d).

(** The two [if ... not in ...] initialisations. *)
Definition init_count (b : Z) (d : string) (m : gmap Z (gmap string Z))
  : gmap Z (gmap string Z) :=
  let m1 := match m !! b with Some _ => m | None => <[b := ∅]> m end in
  let inner := default ∅ (m1 !! b) in
  match inner !! d with
  | Some _ => m1
  | None => <[b := <[d := 0]> inner]> m1
  end.

Definition fixed_conflict (b : Z) (d : string) (count limit : Z) : Conflict :=
  {| conflict_type := "max_classes_exceeded";
     conflict_subject := None;
     conflict_batch_id := b;
     conflict_day := d;
     conflict_count := Some count;
     conflict_limit := Some limit;
     conflict_reason := "Fixed class caused limit exceeded" |}.

Definition dropped_conflict (e : ScheduleEntry) : Conflict :=
  {| conflict_type := "max_classes_exceeded";
     conflict_subject := Some (subject_id e);
     conflict_batch_id := batch_id e;
     conflict_day := day e;
     conflict_count := None;
     conflict_limit := None;
     conflict_reason := "Could not reschedule within daily limit" |}.

(** The [for entry in schedule] loop of [enforce_max_classes_per_day];
    each location comes with the dict it denotes. *)
Fixpoint enforce_loop (self : optimizer) (todo : list (loc * ScheduleEntry))
    (adjusted_schedule : list loc) (batch_daily_count : gmap Z (gmap string Z))
  : M (list loc) :=
  match todo with
  | [] => mret adjusted_schedule
  | (l, entry) :: rest =>
      let b := batch_id entry in
      let d := day entry in
      let counts := init_count b d batch_daily_count in
      let max_classes := max_classes_of self b in
      if count_of counts b d <? max_classes then
        enforce_loop self rest (adjusted_schedule ++ [l]) (bump b d counts)
      else if get_is_fixed entry then
        _ ← append_conflict
              (fixed_conflict b d (count_of counts b d + 1) max_classes);
        enforce_loop self rest (adjusted_schedule ++ [l]) (bump b d counts)
      else
        rescheduled ← reschedule_to_different_day l counts max_classes;
        match rescheduled with
        | Some l' =>
            e' ← read l';
            match default ∅ (counts !! b) !! day e' with
            | Some _ =>
                enforce_loop self rest (adjusted_schedule ++ [l'])
                  (bump b (day e') counts)
            | None => raise KeyError
            end
        | None =>
            _ ← append_conflict (dropped_conflict entry);
            enforce_loop self rest adjusted_schedule counts
        end
  end.

Definition enforce_max_classes_per_day (self : optimizer) (schedule : list loc)
  : M (list loc) :=
  entries ← read_schedule schedule;
  let sorted :=
    stable_sort (fun x y => key_le (sort_key x.2) (sort_key y.2))
      (zip schedule entries) in
  enforce_loop self sorted [] ∅.

(** Step 1 of [create_comprehensive_schedule]. *)
Fixpoint schedule_special_classes (specials : list SpecialClass)
    (schedule : list loc) : M (list loc) :=
  match specials with
  | [] => mret schedule
  | special :: rest =>
      match get_suitable_venue (sc_subject special) (sc_batch special) with
      | Some venue =>
          l ← alloc (special_entry special venue);
          schedule_special_classes rest (schedule ++ [l])
      | None => schedule_special_classes rest schedule
      end
  end.

Definition create_comprehensive_schedule (self : optimizer) : M (list loc) :=
  schedule ← schedule_special_classes (special_classes self) [];
  lab_schedule ← schedule_lab_sessions;
  let schedule := schedule ++ lab_schedule in
  elective_schedule ← schedule_electives_advanced;
  let schedule := schedule ++ elective_schedule in
  theory_schedule ← schedule_theory_classes schedule;
  let schedule := schedule ++ theory_schedule in
  enforce_max_classes_per_day self schedule.

(** ** [__init__]: [load_data] and [initialize_parameters] *)

Definition load_special_class (db : Database) (sid : Z) (r : SpecialClassRow)
  : option SpecialClass :=
  match List.find (fun s => bool_decide (subject_pk s = row_subject_id r))
          (db_subjects db) with
  | Some s =>
      if bool_decide (subject_semester_id s = sid)
      then Some {| sc_row := r; sc_subject := s;
                   sc_batch :=
                     List.find (fun b => bool_decide (batch_pk b = row_batch_id r))
                       (db_batches db) |}
      else None
  | None => None
  end.

Definition new_optimizer (db : Database) (sid : Z) : optimizer :=
  {| semester_id := sid;
     classrooms := List.filter classroom_is_available (db_classrooms db);
     laboratories := List.filter laboratory_is_available (db_laboratories db);
     faculty := db_faculty db;
     subjects :=
       List.filter (fun s => bool_decide (subject_semester_id s = sid))
         (db_subjects db);
     batches :=
       List.filter (fun b => bool_decide (batch_semester_id b = sid))
         (db_batches db);
     special_classes := omap (load_special_class db sid) (db_special_classes db);
     time_slots := TIME_SLOTS cfg;
     working_days := WORKING_DAYS cfg;
     population_size := GA_POPULATION_SIZE cfg;
     generations := GA_GENERATIONS cfg;
     mutation_rate := GA_MUTATION_RATE cfg;
     crossover_rate := GA_CROSSOVER_RATE cfg;
     weights := OPTIMIZATION_WEIGHTS cfg |}.

Definition initial_world (oracle : nat -> N) : world :=
  {| heap := []; rng := oracle; drawn := 0; conflicts := [] |}.

(** ** Genetic operators *)

Definition tournament_selection (population : list (list loc))
    (fitness_scores : list Q) (tournament_size : nat) : M (list loc) :=
  tournament_indices ←
    random_sample_range (length population)
      (Nat.min tournament_size (length population));
  tournament_fitness ←
    lift (omapM (fun i => of_option IndexError (fitness_scores !! i))
            tournament_indices);
  k ← lift (np_argmax tournament_fitness);
  winner_index ← lift (of_option IndexError (tournament_indices !! k));
  lift (of_option IndexError (population !! winner_index)).

Definition enhanced_crossover (self : optimizer) (parent1 parent2 : list loc)
  : M (list loc * list loc) :=
  r ← random_random;
  if Qlt_bool (crossover_rate self) r
     || (length parent1 =? 0)%nat || (length parent2 =? 0)%nat
  then mret (parent1, parent2)
  else
    p ← random_randint 1
          (Z.of_nat (Nat.min (length parent1) (length parent2)) - 1);
    let crossover_point := Z.to_nat p in
    mret (take crossover_point parent1 ++ drop crossover_point parent2,
          take crossover_point parent2 ++ drop crossover_point parent1).

Inductive mutation_kind := MutDay | MutTime | MutVenue.

(** The body of the [for i in range(len(individual))] loop, on the dict
    at [individual[i]]. *)
Definition mutate_entry (self : optimizer) (l : loc) : M unit :=
  r ← random_random;
  if Qlt_bool r (mutation_rate self) then
    e ← read l;
    if get_is_fixed e then mret tt
    else
      mutation_type ← random_choice [MutDay; MutTime; MutVenue];
      match mutation_type with
      | MutDay =>
          d ← random_choice (working_days self);
          modify l (set_day d)
      | MutTime =>
          new_slot ← random_choice (time_slots self);
          modify l (set_times new_slot.1 new_slot.2)
      | MutVenue =>
          e ← read l;
          if bool_decide (class_type e = Some "lab") then
            match laboratories self with
            | [] => mret tt
            | _ =>
                lab ← random_choice (laboratories self);
                modify l (set_venue (laboratory_id lab) "laboratory")
            end
          else
            match classrooms self with
            | [] => mret tt
            | _ =>
                room ← random_choice (classrooms self);
                modify l (set_venue (classroom_id room) "classroom")
            end
      end
  else mret tt.

Fixpoint mutate_all (self : optimizer) (ls : list loc) : M unit :=
  match ls with
  | [] => mret tt
  | l :: rest => _ ← mutate_entry self l; mutate_all self rest
  end.

Definition comprehensive_mutation (self : optimizer) (individual : list loc)
  : M (list loc) :=
  match individual with
  | [] => mret individual
  | _ => _ ← mutate_all self individual; mret individual
  end.

(** ** The genetic loop *)

(** The variables of [optimize_with_comprehensive_constraints] that live
    across generations. *)
Record search := {
  population : list (list loc);
  best_fitness_history : list Q;
  best_individual : option (list loc);
  best_fitness : Q }.

Definition evaluate (self : optimizer) (individual : list loc) : M Q :=
  schedule ← read_schedule individual;
  lift (calculate_comprehensive_fitness self schedule).

(** The [while len(new_population) < self.population_size] loop. *)
Fixpoint breed (self : optimizer) (fuel : nat) (population : list (list loc))
    (fitness_scores : list Q) (new_population : list (list loc))
  : M (list (list loc)) :=
  if (length new_population <? population_size self)%nat then
    match fuel with
    | O => raise OutOfFuel
    | S fuel' =>
        parent1 ← tournament_selection population fitness_scores 3;
        parent2 ← tournament_selection population fitness_scores 3;
        '(offspring1, offspring2) ← enhanced_crossover self parent1 parent2;
        offspring1 ← comprehensive_mutation self offspring1;
        offspring2 ← comprehensive_mutation self offspring2;
        breed self fuel' population fitness_scores
          (new_population ++ [offspring1; offspring2])
    end
  else mret new_population.

(** One iteration of [for generation in range(self.generations)]; the
    boolean tells whether the iteration ended in [break]. *)
Definition generation (self : optimizer) (st : search) : M (search * bool) :=
  fitness_scores ← mapM (evaluate self) (population st);
  let current_best_fitness := default 0%Q (py_max fitness_scores) in
  current_best_index ←
    lift (match fitness_scores with [] => Ok 0%nat | _ => np_argmax fitness_scores end);
  tracked ←
    (if Qlt_bool (best_fitness st) current_best_fitness then
       best ← lift (of_option IndexError (population st !! current_best_index));
       mret (Some best, current_best_fitness)
     else mret (best_individual st, best_fitness st));
  let history := best_fitness_history st ++ [current_best_fitness] in
  if Qle_bool 900 current_best_fitness then
    mret ({| population := population st; best_fitness_history := history;
             best_individual := tracked.1; best_fitness := tracked.2 |}, true)
  else
    let elite_count := Nat.max 1 (population_size self / 10) in
    let elite_indices := last_k elite_count (np_argsort fitness_scores) in
    elites ←
      lift (omapM (fun idx => of_option IndexError (population st !! idx))
              elite_indices);
    new_population ←
      breed self (population_size self) (population st) fitness_scores elites;
    mret ({| population := take (population_size self) new_population;
             best_fitness_history := history;
             best_individual := tracked.1; best_fitness := tracked.2 |}, false).

Fixpoint generations_from (self : optimizer) (remaining : nat) (st : search)
  : M search :=
  match remaining with
  | O => mret st
  | S remaining' =>
      '(st', stop) ← generation self st;
      if (stop : bool) then mret st' else generations_from self remaining' st'
  end.

Fixpoint initial_population (self : optimizer) (n : nat) : M (list (list loc)) :=
  match n with
  | O => mret []
  | S n' =>
      individual ← create_comprehensive_schedule self;
      rest ← initial_population self n';
      mret (individual :: rest)
  end.

Definition optimize_with_comprehensive_constraints (self : optimizer)
  : M (list loc * Q) :=
  initial ← initial_population self (population_size self);
  st ← generations_from self (generations self)
         {| population := initial; best_fitness_history := [];
            best_individual := None; best_fitness := 0 |};
  match best_individual st with
  | Some best => mret (best, best_fitness st)
  | None =>
      let best := default [] (head (population st)) in
      fitness ← evaluate self best;
      mret (best, fitness)
  end.
(** ** Metrics and the multi-solution driver *)

(** The dict of [calculate_solution_metrics].  Its entry
    [faculty_load_balance] is a square root; the record holds the
    variance it is the root of. *)
Record Metrics := {
  total_classes_scheduled : nat;
  theory_classes : nat;
  lab_classes : nat;
  elective_classes : nat;
  fixed_classes : nat;
  classroom_utilization : Q;
  lab_utilization : Q;
  faculty_load_balance_squared : Q;
  max_classes_per_day_violations : Z;
  conflict_summary : gmap string Z;
  total_conflicts : nat }.

Definition count_where {A} (p : A -> bool) (l : list A) : nat :=
  length (List.filter p l).

Definition percentage (usage total : nat) : Q :=
  if (0 <? total)%nat
  then (inject_Z (Z.of_nat usage) / inject_Z (Z.of_nat total) * 100)%Q
  else 0%Q.

Definition calculate_solution_metrics (self : optimizer) (individual : list loc)
  : M Metrics :=
  schedule ← read_schedule individual;
  let classroom_usage :=
    count_where (fun s => bool_decide (venue_type s = Some "classroom")) schedule in
  let lab_usage :=
    count_where (fun s => bool_decide (venue_type s = Some "laboratory")) schedule in
  let slots := (length (working_days self) * length (time_slots self))%nat in
  let total_classroom_slots := (length (classrooms self) * slots)%nat in
  let total_lab_slots := (length (laboratories self) * slots)%nat in
  '(faculty_hours, _) ← lift (collect_hours schedule (∅, ∅));
  all_conflicts ← get_conflicts;
  mret {|
    total_classes_scheduled := length schedule;
    theory_classes :=
      count_where (fun s => bool_decide (class_type s = Some "theory")) schedule;
    lab_classes :=
      count_where (fun s => bool_decide (class_type s = Some "lab")) schedule;
    elective_classes :=
      count_where (fun s => default false (is_elective s)) schedule;
    fixed_classes := count_where get_is_fixed schedule;
    classroom_utilization := percentage classroom_usage total_classroom_slots;
    lab_utilization := percentage lab_usage total_lab_slots;
    faculty_load_balance_squared :=
      if bool_decide (faculty_hours = ∅) then 0%Q
      else variance (map_values faculty_hours);
    max_classes_per_day_violations := 0;
    conflict_summary :=
      foldl (fun m c =>
        <[conflict_type c := default 0 (m !! conflict_type c) + 1]> m)
        ∅ all_conflicts;
    total_conflicts := length all_conflicts |}.

Record Solution := {
  sol_schedule : list loc;
  sol_fitness : Q;
  sol_metrics : Metrics;
  sol_conflicts : list Conflict }.

(** The [for i in range(num_solutions)] loop; [i] is the index of the
    run and [remaining] the number of runs still to do. *)
Fixpoint solution_runs (self : optimizer) (i remaining : nat)
    (solutions : list Solution) : M (list Solution) :=
  match remaining with
  | O => mret solutions
  | S remaining' =>
      let varied :=
        with_search_parameters self
          (mutation_rate self + inject_Z (Z.of_nat i) * (2 # 100))%Q
          (population_size self + i * 5)%nat in
      '(solution, fitness) ← optimize_with_comprehensive_constraints varied;
      metrics ← calculate_solution_metrics varied solution;
      found ← get_conflicts;
      _ ← reset_conflicts;
      solution_runs self (S i) remaining'
        (solutions ++ [ {| sol_schedule := solution; sol_fitness := fitness;
                           sol_metrics := metrics; sol_conflicts := found |} ])
  end.

(** [key=lambda x: x['fitness'], reverse=True] *)
Definition fitness_ge (x y : Solution) : bool :=
  Qle_bool (sol_fitness y) (sol_fitness x).

Definition generate_multiple_optimized_solutions (self : optimizer)
    (num_solutions : nat) : M (list Solution) :=
  solutions ← solution_runs self 0 num_solutions [];
  mret (stable_sort fitness_ge solutions).
End Engine.

(** * The caller: [routes.py] *)

(** [convert_day_to_number(day_name)] *)
Definition convert_day_to_number (day_name : string) : Z :=
  default 1
    ((list_to_map [("Monday", 1); ("Tuesday", 2); ("Wednesday", 3);
                   ("Thursday", 4); ("Friday", 5); ("Saturday", 6);
                   ("Sunday", 7)] : gmap string Z)
       !! day_name).

(** [convert_day_to_name(day_number)] *)
Definition convert_day_to_name (day_number : Z) : string :=
  default "Monday"
    ((list_to_map [(1, "Monday"); (2, "Tuesday"); (3, "Wednesday");
                   (4, "Thursday"); (5, "Friday"); (6, "Saturday");
                   (7, "Sunday")] : gmap Z string)
       !! day_number).

(** [datetime.strptime(s, '%H:%M').time()] *)
Definition strptime_time (s : string) : outcome time :=
  m ← strptime_HM s;
  Ok {| hour := Z.to_nat (m / 60); minute := Z.to_nat (m `mod` 60) |}.

(** The columns of model [ScheduleEntry] that
    [generate_advanced_timetable] fills in. *)
Record StoredScheduleEntry := {
  stored_timetable_id : Z;
  stored_subject_id : Z;
  stored_faculty_id : option Z;
  stored_classroom_id : option Z;
  stored_laboratory_id : option Z;
  stored_batch_id : Z;
  stored_day_of_week : Z;
  stored_start_time : time;
  stored_end_time : time;
  stored_is_fixed : bool;
  stored_shift : string;
  stored_class_type : string;
  stored_requires_setup : bool;
  stored_setup_time_minutes : Z }.

(** The call [ScheduleEntry(timetable_id=..., ...)] on one dict of a
    solution.  No dict of the optimizer has key ['setup_time'], so
    [entry.get('setup_time', 0)] is [0]. *)
Definition store_entry (timetable_id : Z) (entry : ScheduleEntry)
  : outcome StoredScheduleEntry :=
  start ← strptime_time (start_time entry);
  finish ← strptime_time (end_time entry);
  Ok {| stored_timetable_id := timetable_id;
        stored_subject_id := subject_id entry;
        stored_faculty_id := faculty_id entry;
        stored_classroom_id :=
          if bool_decide (venue_type entry = Some "classroom")
          then Some (venue_id entry) else None;
        stored_laboratory_id :=
          if bool_decide (venue_type entry = Some "laboratory")
          then Some (venue_id entry) else None;
        stored_batch_id := batch_id entry;
        stored_day_of_week := convert_day_to_number (day entry);
        stored_start_time := start;
        stored_end_time := finish;
        stored_is_fixed := get_is_fixed entry;
        stored_shift := shift entry;
        stored_class_type := default "theory" (class_type entry);
        stored_requires_setup := 0 <? 0;
        stored_setup_time_minutes := 0 |}.

(** * Sample inputs *)

Module Samples.
Definition room60 : Classroom :=
  {| classroom_id := 1; classroom_capacity := 60; classroom_is_available := true |}.

Definition room80 : Classroom :=
  {| classroom_id := 1; classroom_capacity := 80; classroom_is_available := true |}.

Definition teacher (pk : Z) : Faculty :=
  {| faculty_pk := pk; max_hours_per_day := 6; max_hours_per_week := 30 |}.

Definition batch_of (pk students cap : Z) : Batch :=
  {| batch_pk := pk; student_count := students; batch_semester_id := 1;
     max_classes_per_day := cap |}.

Definition subject_of (pk : Z) (teacher_pk : Z) : Subject :=
  {| subject_pk := pk; theory_hours_per_week := 3; lab_hours_per_week := 0;
     subject_faculty_id := Some teacher_pk; subject_semester_id := 1 |}.

(** A small configuration: the shipped tables and rates, a population
    of four and three generations. *)
Definition small_Config : Config :=
  {| GA_POPULATION_SIZE := 4; GA_GENERATIONS := 3;
     GA_MUTATION_RATE := GA_MUTATION_RATE default_Config;
     GA_CROSSOVER_RATE := GA_CROSSOVER_RATE default_Config;
     WORKING_DAYS := WORKING_DAYS default_Config;
     TIME_SLOTS := TIME_SLOTS default_Config;
     MAX_CLASSES_PER_DAY := MAX_CLASSES_PER_DAY default_Config;
     MIN_CLASSROOM_UTILIZATION := MIN_CLASSROOM_UTILIZATION default_Config;
     MAX_CLASSROOM_UTILIZATION := MAX_CLASSROOM_UTILIZATION default_Config;
     OPTIMIZATION_WEIGHTS := OPTIMIZATION_WEIGHTS default_Config |}.

(** An optimizer object over one room, two teachers and two batches. *)
Definition optimizer_with (room : Classroom) : optimizer :=
  {| semester_id := 1;
     classrooms := [room];
     laboratories := [];
     faculty := [teacher 7; teacher 8];
     subjects := [subject_of 1 7; subject_of 2 8];
     batches := [batch_of 3 70 6; batch_of 4 30 6];
     special_classes := [];
     time_slots := TIME_SLOTS default_Config;
     working_days := WORKING_DAYS default_Config;
     population_size := 4;
     generations := 3;
     mutation_rate := GA_MUTATION_RATE default_Config;
     crossover_rate := GA_CROSSOVER_RATE default_Config;
     weights := OPTIMIZATION_WEIGHTS default_Config |}.

(** A theory class in room 1 on Monday. *)
Definition lecture (subject batch teacher_pk : Z) (fixed : bool)
    (from to : string) : ScheduleEntry :=
  {| subject_id := subject; batch_id := batch; faculty_id := Some teacher_pk;
     venue_id := 1; venue_type := Some "classroom"; day := "Monday";
     start_time := from; end_time := to; is_fixed := Some fixed;
     shift := "morning"; class_type := Some "theory"; priority := Some 1;
     is_elective := None |}.

Definition exam_row (subject batch : Z) (h : nat) : SpecialClassRow :=
  {| row_subject_id := subject; row_batch_id := batch; row_day_of_week := 1;
     row_start_time := {| hour := h; minute := 0 |};
     row_end_time := {| hour := h + 1; minute := 0 |};
     row_class_type := "exam"; row_priority := 1 |}.

(** A database whose semester 1 has two subjects and two fixed exams. *)
Definition campus : Database :=
  {| db_classrooms := [room60];
     db_laboratories := [];
     db_faculty := [teacher 7; teacher 8];
     db_subjects := [subject_of 1 7; subject_of 2 8];
     db_batches := [batch_of 3 70 6; batch_of 4 30 6];
     db_special_classes := [exam_row 1 3 9; exam_row 2 4 10] |}.

Definition oracle_zero : nat -> N := fun _ => 0%N.
Definition oracle_one : nat -> N := fun _ => 1%N.

(** A store holding three lectures, the first of them fixed. *)
Definition three_lectures_with (oracle : nat -> N) : world :=
  {| heap := [lecture 1 3 7 true "09:00" "10:00";
              lecture 2 4 8 false "10:00" "11:00";
              lecture 1 4 7 false "11:00" "12:00"];
     rng := oracle; drawn := 0; conflicts := [] |}.

Definition three_lectures : world := three_lectures_with oracle_zero.

(** Fourteen movable lectures of one batch on one day, shared by the four
    candidates of a population: the daily cap is exceeded by eight. *)
Definition crowded_monday : world :=
  {| heap := replicate 14 (lecture 1 3 7 false "09:00" "10:00");
     rng := oracle_zero; drawn := 0; conflicts := [] |}.

(** Eight movable lectures of one batch, whose cap is six, on one day. *)
Definition eight_lectures : world :=
  {| heap := replicate 8 (lecture 1 3 7 false "09:00" "10:00");
     rng := oracle_zero; drawn := 0; conflicts := [] |}.

(** A database whose semester 1 has fourteen fixed exams of one batch and
    one teacher on Monday; semester 2 has no subject. *)
Definition exam_week : Database :=
  {| db_classrooms := [room60];
     db_laboratories := [];
     db_faculty := [teacher 7; teacher 8];
     db_subjects := [subject_of 1 7; subject_of 2 8];
     db_batches := [batch_of 3 70 6; batch_of 4 30 6];
     db_special_classes := replicate 14 (exam_row 1 3 9) |}.

Definition crowded_search : search :=
  {| population := replicate 4 (seq 0 14);
     best_fitness_history := [];
     best_individual := None;
     best_fitness := 0 |}.
End Samples.

(** * Specification vocabulary *)

(** Every fixed entry of store [h] is the same record, at the same
    location, in store [h']. *)
Definition fixed_stable (h h' : list ScheduleEntry) : Prop :=
  forall l e, h !! l = Some e -> get_is_fixed e = true -> h' !! l = Some e.

Definition stable (h0 : list ScheduleEntry) (w : world) : Prop :=
  fixed_stable h0 (heap w).

(** Hoare triples of the state monad, with a postcondition [Q] for normal
    termination and [E] for an exception. *)
Definition hoare {A} (P : world -> Prop) (m : M A)
    (Q : A -> world -> Prop) (E : world -> Prop) : Prop :=
  forall w, P w ->
    match m w with
    | (Ok a, w') => Q a w'
    | (Raise _, w') => E w'
    end.

(** [m] keeps every fixed entry of any earlier store, however it ends. *)
Definition keeps {A} (m : M A) : Prop :=
  forall h0, hoare (stable h0) m (fun _ => stable h0) (stable h0).

(** [m] does not touch the store. *)
Definition heap_const {A} (m : M A) : Prop :=
  forall w, heap (m w).2 = heap w.

(** What one generation does to the tracked pair: it is left as it is,
    or replaced by a candidate of the evaluated population whose score is
    strictly higher than the tracked best fitness. *)
Definition tracked_step (cfg : Config) (self : optimizer)
    (st : search) (w : world) (st' : search) : Prop :=
  (best_individual st' = best_individual st /\
   best_fitness st' = best_fitness st) \/
  ((best_fitness st < best_fitness st')%Q /\
   exists scores w1 i candidate,
     mapM (evaluate cfg self) (population st) w = (Ok scores, w1) /\
     population st !! i = Some candidate /\
     scores !! i = Some (best_fitness st') /\
     best_individual st' = Some candidate).

(** Vocabulary of the daily cap. *)
Definition on_day (b : Z) (d : string) (e : ScheduleEntry) : bool :=
  bool_decide (batch_id e = b /\ day e = d).

Definition classes_on (b : Z) (d : string) (es : list ScheduleEntry) : Z :=
  Z.of_nat (count_where (on_day b d) es).

Definition fixed_on (b : Z) (d : string) (es : list ScheduleEntry) : Z :=
  Z.of_nat (count_where (fun e => on_day b d e && get_is_fixed e) es).

(** The cap holds on every batch and day, unless all the classes of that
    batch and day are fixed ones. *)
Definition capped (cap : Z -> Z) (es : list ScheduleEntry) : Prop :=
  forall b d,
    classes_on b d es <= cap b \/
    Forall (fun e => on_day b d e = true -> get_is_fixed e = true) es.

Definition is_dropped_conflict (c : Conflict) : bool :=
  bool_decide (conflict_reason c = "Could not reschedule within daily limit").

Definition is_fixed_conflict_on (b : Z) (d : string) (c : Conflict) : bool :=
  bool_decide (conflict_reason c = "Fixed class caused limit exceeded"
               /\ conflict_batch_id c = b /\ conflict_day c = d).

(** The state [w] with the conflicts [cs] appended to [self.conflicts]. *)
Definition with_conflicts (w : world) (cs : list Conflict) : world :=
  {| heap := heap w; rng := rng w; drawn := drawn w;
     conflicts := conflicts w ++ cs |}.

(** A candidate all of whose locations hold fixed entries. *)
Definition all_fixed (h : list ScheduleEntry) (ind : list loc) : Prop :=
  Forall (fun l => exists e, h !! l = Some e /\ get_is_fixed e = true) ind.

(** A candidate of [n] entries, all fixed in store [h]. *)
Definition good (n : nat) (h : list ScheduleEntry) (ind : list loc) : Prop :=
  length ind = n /\ all_fixed h ind.

(** The invariant of the genetic loop when every constructed entry is a
    fixed one: the population has its configured size and every candidate
    in it, and the tracked best one, is [good]. *)
Definition all_good (self : optimizer) (n : nat) (h : list ScheduleEntry)
    (st : search) : Prop :=
  length (population st) = population_size self /\
  Forall (good n h) (population st) /\
  (forall best, best_individual st = Some best -> good n h best).

(** The channels through which the driver could tell its caller anything
    besides schedules and scores: [self.conflicts], the conflict list of a
    solution and the conflict count of its metrics.  [reports_notice] holds
    when any of them carries a record. *)
Definition nonempty {A} (l : list A) : bool :=
  match l with [] => false | _ => true end.

Definition reports_notice (solutions : list Solution) (w : world) : bool :=
  nonempty (conflicts w)
  || existsb (fun s => nonempty (sol_conflicts s)
                       || negb (total_conflicts (sol_metrics s) =? 0)%nat)
       solutions.

(** What a solution of a semester without special classes looks like. *)
Definition empty_solution (s : Solution) : Prop :=
  sol_schedule s = [] /\ sol_fitness s = 1000%Q /\ sol_conflicts s = [] /\
  total_conflicts (sol_metrics s) = 0%nat.

(** Fuel is a device of the model: a computation is [fuel_safe] when it
    never ends for lack of it. *)
Definition osafe {A} (o : outcome A) : Prop := o <> Raise OutOfFuel.

Definition fuel_safe {A} (m : M A) : Prop := forall w, osafe (m w).1.

(** ** Vocabulary of the evaluator, the operators and the caller *)

(** The nested dict [batch_daily_count] of the evaluator after the
    entries [es]. *)
Definition daily_counts (es : list ScheduleEntry) : gmap Z (gmap string Z) :=
  foldl (fun m e => bump (batch_id e) (day e) m) ∅ es.

(** The body of the evaluator's loop over the days of batch [b]. *)
Definition excess_of_day (cap : Z -> Z) (b : Z) (_ : string) (count v : Z) : Z :=
  if cap b <? count then v + (count - cap b) else v.

(** The dict [room_usage] of the utilization score, from [acc] on. *)
Definition room_usage_of (acc : gmap Z Z) (es : list ScheduleEntry) : gmap Z Z :=
  foldl (fun m e =>
    if bool_decide (venue_type e = Some "classroom")
    then <[venue_id e := default 0 (m !! venue_id e) + 1]> m
    else m) acc es.

(** Both times of the dict are texts that [strptime(..., '%H:%M')]
    accepts. *)
Definition parses (e : ScheduleEntry) : bool :=
  match strptime_HM (start_time e), strptime_HM (end_time e) with
  | Ok _, Ok _ => true
  | _, _ => false
  end.

(** What mutation may do to one dict: the keys ['day'], ['start_time'] and
    ['end_time'], ['venue_id'] and ['venue_type'] are the only ones
    assigned, with values drawn from the optimizer's own lists. *)
Definition mutation_of (self : optimizer) (e e' : ScheduleEntry) : Prop :=
  subject_id e' = subject_id e /\ batch_id e' = batch_id e /\
  faculty_id e' = faculty_id e /\ is_fixed e' = is_fixed e /\
  shift e' = shift e /\ class_type e' = class_type e /\
  priority e' = priority e /\ is_elective e' = is_elective e /\
  (day e' = day e \/ day e' ∈ working_days self) /\
  ((start_time e' = start_time e /\ end_time e' = end_time e) \/
   (start_time e', end_time e') ∈ time_slots self) /\
  ((venue_id e' = venue_id e /\ venue_type e' = venue_type e) \/
   (class_type e = Some "lab" /\ venue_type e' = Some "laboratory" /\
    exists lab, lab ∈ laboratories self /\ venue_id e' = laboratory_id lab) \/
   (class_type e <> Some "lab" /\ venue_type e' = Some "classroom" /\
    exists room, room ∈ classrooms self /\ venue_id e' = classroom_id room)).

(** The store [h'] comes from [h] by mutations of the dicts of
    [individual] alone. *)
Definition mutated (self : optimizer) (individual : list loc)
    (h h' : list ScheduleEntry) : Prop :=
  length h' = length h /\
  (forall l, l ∉ individual -> h' !! l = h !! l) /\
  (forall l e, h !! l = Some e ->
     exists e', h' !! l = Some e' /\ mutation_of self e e').

(** The dict of a special class, in the venue [get_suitable_venue]
    gives. *)
Definition special_dict (special : SpecialClass) : ScheduleEntry :=
  special_entry special {| venue_pk := 1; venue_kind := "classroom" |}.

(** The conflicts of type [ty]. *)
Definition of_type (ty : string) (c : Conflict) : bool :=
  bool_decide (conflict_type c = ty).

(** [m] records nothing in [self.conflicts], however it ends. *)
Definition quiet {A} (m : M A) : Prop :=
  forall w, conflicts (m w).2 = conflicts w.

(** The conflicts one construction records (they do not depend on the
    state it starts from, see [construction_conflicts_any_state]). *)
Definition construction_conflicts (cfg : Config) (self : optimizer)
  : list Conflict :=
  conflicts (create_comprehensive_schedule cfg self
               (initial_world (fun _ => 0%N))).2.

(** [m] neither creates nor removes a dict, however it ends. *)
Definition same_size {A} (m : M A) : Prop :=
  forall w, length (heap (m w).2) = length (heap w).

(** Every dict of the store is the unchanged dict of a special class. *)
Definition only_special_dicts (self : optimizer) (h : list ScheduleEntry)
  : Prop :=
  Forall (fun e => exists s, s ∈ special_classes self /\ e = special_dict s) h.

(** * Properties *)

(** ** Rationals *)

Lemma Qlt_bool_iff a b : Qlt_bool a b = true <-> (a < b)%Q.
Proof.
  unfold Qlt_bool. rewrite negb_true_iff. split.
  - intros H. apply Qnot_le_lt. intros Hle.
    apply Qle_bool_iff in Hle. congruence.
  - intros H. destruct (Qle_bool b a) eqn:E; [|reflexivity].
    apply Qle_bool_iff in E. exfalso. exact (Qlt_not_le _ _ H E).
Qed.

Lemma Qlt_bool_false a b : Qlt_bool a b = false <-> (b <= a)%Q.
Proof.
  unfold Qlt_bool. rewrite negb_false_iff. apply Qle_bool_iff.
Qed.


Lemma py_max0_nonneg x : (0 <= py_max0 x)%Q.
Proof.
  unfold py_max0. destruct (Qlt_bool 0 x) eqn:E.
  - apply Qlt_le_weak. now apply Qlt_bool_iff.
  - apply Qle_refl.
Qed.

(** ** Times *)

Example strftime_sample : strftime_HM {| hour := 9; minute := 5 |} = "09:05".
Proof. reflexivity. Qed.

Example strptime_sample :
  strptime_HM "09:05" = Ok 545 /\ strptime_HM "9:5" = Ok 545 /\
  strptime_HM "24:00" = Raise ValueError /\ strptime_HM "12:60" = Raise ValueError /\
  strptime_HM "12:075" = Raise ValueError.
Proof. repeat split; reflexivity. Qed.

(** The text written for a time of day by construction is read back by
    the evaluator as that time. *)
Lemma strptime_strftime (t : time) :
  time_ok t ->
  strptime_HM (strftime_HM t) = Ok (Z.of_nat (hour t) * 60 + Z.of_nat (minute t)).
Proof.
  destruct t as [h m]. intros [Hh Hm]. cbn [hour minute] in *.
  pose (check := fun h m : nat =>
    match strptime_HM (strftime_HM {| hour := h; minute := m |}) with
    | Ok z => z =? Z.of_nat h * 60 + Z.of_nat m
    | Raise _ => false
    end).
  assert (Hall : forallb (fun h => forallb (check h) (seq 0 60)) (seq 0 24) = true)
    by (vm_compute; reflexivity).
  rewrite forallb_forall in Hall.
  specialize (Hall h ltac:(apply in_seq; lia)).
  rewrite forallb_forall in Hall.
  specialize (Hall m ltac:(apply in_seq; lia)).
  unfold check in Hall.
  destruct (strptime_HM _) as [z|e]; [|discriminate].
  apply Z.eqb_eq in Hall. now subst.
Qed.

(** ** Rules of the Hoare logic *)

Lemma hoare_ret {A} (P : world -> Prop) (a : A) (Q : A -> world -> Prop) E :
  (forall w, P w -> Q a w) -> hoare P (mret a) Q E.
Proof. intros H w HP. cbn. auto. Qed.

Lemma hoare_bind {A B} (P : world -> Prop) (m : M A) (f : A -> M B)
    (R : A -> world -> Prop) (Q : B -> world -> Prop) E :
  hoare P m R E -> (forall a, hoare (R a) (f a) Q E) -> hoare P (m ≫= f) Q E.
Proof.
  intros Hm Hf w HP. specialize (Hm w HP).
  unfold mbind, M_bind. destruct (m w) as [[a|e] w1]; [|exact Hm].
  apply (Hf a w1 Hm).
Qed.

Lemma hoare_conseq {A} (P P' : world -> Prop) (m : M A)
    (Q Q' : A -> world -> Prop) (E E' : world -> Prop) :
  hoare P' m Q' E' ->
  (forall w, P w -> P' w) -> (forall a w, Q' a w -> Q a w) ->
  (forall w, E' w -> E w) -> hoare P m Q E.
Proof.
  intros H HP HQ HE w Hw. specialize (H w (HP w Hw)).
  destruct (m w) as [[a|e] w1]; auto.
Qed.

Lemma hoare_lift {A} (P : world -> Prop) (o : outcome A) :
  hoare P (lift o) (fun a w => P w /\ o = Ok a) P.
Proof. intros w HP. unfold lift. destruct o; auto. Qed.

Lemma hoare_raise {A} (P : world -> Prop) (e : exn) (Q : A -> world -> Prop) :
  hoare P (raise e) Q P.
Proof. intros w HP. exact HP. Qed.

(** A computation that leaves the store alone keeps any assertion on it. *)
Lemma hoare_frame {A} (m : M A) (F : list ScheduleEntry -> Prop) :
  heap_const m ->
  hoare (fun w => F (heap w)) m (fun _ w => F (heap w)) (fun w => F (heap w)).
Proof.
  intros Hc w HP. specialize (Hc w).
  destruct (m w) as [[a|e] w1]; cbn in Hc; now rewrite Hc.
Qed.

Lemma heap_const_keeps {A} (m : M A) : heap_const m -> keeps m.
Proof. intros Hc h0. apply (hoare_frame m (fixed_stable h0) Hc). Qed.

Lemma keeps_ret {A} (a : A) : keeps (mret a).
Proof. intros h0. now apply hoare_ret. Qed.

Lemma keeps_bind {A B} (m : M A) (f : A -> M B) :
  keeps m -> (forall a, keeps (f a)) -> keeps (m ≫= f).
Proof. intros Hm Hf h0. eapply hoare_bind; [apply Hm|]. intros a. apply Hf. Qed.

Lemma heap_const_ret {A} (a : A) : heap_const (mret a : M A).
Proof. intros w. reflexivity. Qed.

Lemma heap_const_lift {A} (o : outcome A) : heap_const (lift o).
Proof. intros w. reflexivity. Qed.

Lemma heap_const_bind {A B} (m : M A) (f : A -> M B) :
  heap_const m -> (forall a, heap_const (f a)) -> heap_const (m ≫= f).
Proof.
  intros Hm Hf w. specialize (Hm w). unfold mbind, M_bind.
  destruct (m w) as [[a|e] w1]; cbn in *; [|exact Hm].
  now rewrite Hf.
Qed.

Lemma heap_const_draw : heap_const draw.
Proof. intros w. reflexivity. Qed.

Lemma heap_const_random_random : heap_const random_random.
Proof.
  apply heap_const_bind; [apply heap_const_draw|].
  intros k. apply heap_const_ret.
Qed.

Lemma heap_const_randbelow n : heap_const (randbelow n).
Proof.
  apply heap_const_bind; [apply heap_const_draw|].
  intros k. apply heap_const_ret.
Qed.

Lemma heap_const_random_choice {A} (l : list A) : heap_const (random_choice l).
Proof.
  destruct l as [|x l]; [apply heap_const_lift|].
  apply heap_const_bind; [apply heap_const_randbelow|].
  intros i. apply heap_const_lift.
Qed.

Lemma heap_const_random_randint a b : heap_const (random_randint a b).
Proof.
  unfold random_randint. destruct (a <=? b); [|apply heap_const_lift].
  apply heap_const_bind; [apply heap_const_randbelow|].
  intros i. apply heap_const_ret.
Qed.

Lemma heap_const_sample_pool k : forall pool, heap_const (sample_pool pool k).
Proof.
  induction k as [|k IH]; intros pool; [apply heap_const_ret|].
  cbn [sample_pool].
  apply heap_const_bind; [apply heap_const_randbelow|]. intros j.
  apply heap_const_bind; [apply heap_const_lift|]. intros x.
  apply heap_const_bind; [apply heap_const_lift|]. intros y.
  apply heap_const_bind; [apply IH|]. intros rest.
  apply heap_const_ret.
Qed.

Lemma heap_const_random_sample_range n k : heap_const (random_sample_range n k).
Proof.
  unfold random_sample_range. destruct (k <=? n)%nat.
  - apply heap_const_sample_pool.
  - apply heap_const_lift.
Qed.

Lemma heap_const_read l : heap_const (read l).
Proof. intros w. reflexivity. Qed.

Lemma heap_const_read_schedule ind : heap_const (read_schedule ind).
Proof. intros w. reflexivity. Qed.

Lemma heap_const_append_conflict c : heap_const (append_conflict c).
Proof. intros w. reflexivity. Qed.

Lemma heap_const_get_conflicts : heap_const get_conflicts.
Proof. intros w. reflexivity. Qed.

Lemma heap_const_reset_conflicts : heap_const reset_conflicts.
Proof. intros w. reflexivity. Qed.

Lemma heap_const_mapM {A B} (f : A -> M B) (l : list A) :
  (forall a, heap_const (f a)) -> heap_const (mapM f l).
Proof.
  intros Hf. induction l as [|x l IH]; [apply heap_const_ret|].
  cbn [mapM]. apply heap_const_bind; [apply Hf|]. intros y.
  apply heap_const_bind; [apply IH|]. intros ys. apply heap_const_ret.
Qed.

(** ** Fixed entries are never rewritten *)

Lemma fixed_stable_refl h : fixed_stable h h.
Proof. intros l e H _. exact H. Qed.

Lemma fixed_stable_trans h1 h2 h3 :
  fixed_stable h1 h2 -> fixed_stable h2 h3 -> fixed_stable h1 h3.
Proof. intros H12 H23 l e H Hf. apply H23; [apply H12|]; assumption. Qed.

Lemma fixed_stable_app h e : fixed_stable h (h ++ [e]).
Proof. intros l e' H _. now apply lookup_app_l_Some. Qed.

(** Rewriting a dict that is not fixed leaves the fixed ones as they are. *)
Lemma fixed_stable_insert h l e f :
  h !! l = Some e -> get_is_fixed e = false -> fixed_stable h (<[l := f e]> h).
Proof.
  intros Hl Hnf l' e' Hl' Hf'.
  destruct (decide (l = l')) as [->|Hne].
  - congruence.
  - now rewrite list_lookup_insert_ne.
Qed.

Lemma keeps_alloc e : keeps (alloc e).
Proof.
  intros h0 w HP. cbn. unfold stable in *. cbn.
  eapply fixed_stable_trans; [exact HP|apply fixed_stable_app].
Qed.

Lemma hoare_read (F : list ScheduleEntry -> Prop) l :
  hoare (fun w => F (heap w)) (read l)
    (fun e w => F (heap w) /\ heap w !! l = Some e) (fun w => F (heap w)).
Proof.
  intros w HP. unfold read. destruct (heap w !! l) eqn:E; cbn; auto.
Qed.

Lemma hoare_modify h0 l e f :
  get_is_fixed e = false ->
  hoare (fun w => fixed_stable h0 (heap w) /\ heap w !! l = Some e)
    (modify l f) (fun _ => stable h0) (stable h0).
Proof.
  intros Hnf w [Hs Hl]. unfold modify. rewrite Hl. unfold stable. cbn.
  eapply fixed_stable_trans; [exact Hs|]. now apply fixed_stable_insert.
Qed.

(** A random draw between the test of [is_fixed] and the assignment. *)
Lemma hoare_choice_then_modify {A} h0 l e (choices : list A)
    (f : A -> ScheduleEntry -> ScheduleEntry) :
  get_is_fixed e = false ->
  hoare (fun w => fixed_stable h0 (heap w) /\ heap w !! l = Some e)
    (x ← random_choice choices; modify l (f x))
    (fun _ => stable h0) (stable h0).
Proof.
  intros Hnf.
  eapply hoare_bind.
  - eapply hoare_conseq;
      [apply (hoare_frame (random_choice choices)
                (fun h => fixed_stable h0 h /\ h !! l = Some e)),
             heap_const_random_choice | | |]; cbn; auto.
    + intros a w H. exact H.
    + intros w [H _]. exact H.
  - intros x. now apply hoare_modify.
Qed.

Lemma keeps_mutate_entry self l : keeps (mutate_entry self l).
Proof.
  intros h0. unfold mutate_entry.
  eapply hoare_bind; [apply (heap_const_keeps _ heap_const_random_random)|].
  intros r. cbn beta.
  destruct (Qlt_bool r (mutation_rate self)); [|now apply hoare_ret].
  eapply hoare_bind; [apply (hoare_read (fixed_stable h0))|].
  intros e. cbn beta.
  destruct (get_is_fixed e) eqn:Hfix.
  { apply hoare_ret. now intros w [H _]. }
  eapply hoare_bind.
  { eapply hoare_conseq;
      [apply (hoare_frame (random_choice [MutDay; MutTime; MutVenue])
                (fun h => fixed_stable h0 h /\ h !! l = Some e)),
             heap_const_random_choice | | |]; cbn; auto.
    - intros a w H. exact H.
    - intros w [H _]. exact H. }
  intros [| |]; cbn beta iota.
  - now apply (hoare_choice_then_modify h0 l e (working_days self) set_day).
  - now apply (hoare_choice_then_modify h0 l e (time_slots self)
                 (fun s => set_times s.1 s.2)).
  - eapply hoare_bind.
    { eapply hoare_conseq;
        [apply (hoare_read (fun h => fixed_stable h0 h /\ h !! l = Some e))
        | | |]; cbn; auto.
      - intros a w H. exact H.
      - intros w [H _]. exact H. }
    intros e'. cbn beta.
    assert (Hback : forall w : world,
      (fixed_stable h0 (heap w) /\ heap w !! l = Some e) /\
      heap w !! l = Some e' ->
      fixed_stable h0 (heap w) /\ heap w !! l = Some e).
    { intros w [H _]. exact H. }
    destruct (bool_decide (class_type e' = Some "lab")).
    + destruct (laboratories self) as [|lab labs] eqn:Hlabs.
      * apply hoare_ret. intros w H. apply (Hback w H).
      * eapply hoare_conseq;
          [apply (hoare_choice_then_modify h0 l e (lab :: labs)
                    (fun x => set_venue (laboratory_id x) "laboratory") Hfix)
          | exact Hback | |]; auto.
    + destruct (classrooms self) as [|room rooms] eqn:Hrooms.
      * apply hoare_ret. intros w H. apply (Hback w H).
      * eapply hoare_conseq;
          [apply (hoare_choice_then_modify h0 l e (room :: rooms)
                    (fun x => set_venue (classroom_id x) "classroom") Hfix)
          | exact Hback | |]; auto.
Qed.

Lemma keeps_mutate_all self ls : keeps (mutate_all self ls).
Proof.
  induction ls as [|l ls IH]; [apply keeps_ret|].
  cbn [mutate_all]. apply keeps_bind; [apply keeps_mutate_entry|].
  intros _. exact IH.
Qed.

Lemma keeps_comprehensive_mutation self individual :
  keeps (comprehensive_mutation self individual).
Proof.
  destruct individual as [|l ls]; [apply keeps_ret|].
  unfold comprehensive_mutation.
  apply keeps_bind; [apply keeps_mutate_all|]. intros _. apply keeps_ret.
Qed.

Lemma heap_const_tournament_selection population fitness_scores size :
  heap_const (tournament_selection population fitness_scores size).
Proof.
  unfold tournament_selection.
  apply heap_const_bind; [apply heap_const_random_sample_range|]. intros idx.
  apply heap_const_bind; [apply heap_const_lift|]. intros fs.
  apply heap_const_bind; [apply heap_const_lift|]. intros k.
  apply heap_const_bind; [apply heap_const_lift|]. intros win.
  apply heap_const_lift.
Qed.

Lemma heap_const_enhanced_crossover self parent1 parent2 :
  heap_const (enhanced_crossover self parent1 parent2).
Proof.
  unfold enhanced_crossover.
  apply heap_const_bind; [apply heap_const_random_random|]. intros r.
  destruct (_ || _ || _); [apply heap_const_ret|].
  apply heap_const_bind; [apply heap_const_random_randint|]. intros p.
  apply heap_const_ret.
Qed.

Section EngineInvariance.
Variable cfg : Config.
Variable self : optimizer.

Lemma heap_const_evaluate individual : heap_const (evaluate cfg self individual).
Proof.
  unfold evaluate.
  apply heap_const_bind; [apply heap_const_read_schedule|]. intros s.
  apply heap_const_lift.
Qed.

Lemma keeps_breed fuel : forall population fitness_scores new_population,
  keeps (breed self fuel population fitness_scores new_population).
Proof.
  induction fuel as [|fuel IH]; intros population fitness_scores new_population;
    cbn [breed]; destruct (_ <? _)%nat;
    try apply keeps_ret; try apply (heap_const_keeps _ (heap_const_lift _)).
  apply keeps_bind;
    [apply heap_const_keeps, heap_const_tournament_selection|]. intros p1.
  apply keeps_bind;
    [apply heap_const_keeps, heap_const_tournament_selection|]. intros p2.
  apply keeps_bind;
    [apply heap_const_keeps, heap_const_enhanced_crossover|]. intros [o1 o2].
  apply keeps_bind; [apply keeps_comprehensive_mutation|]. intros o1'.
  apply keeps_bind; [apply keeps_comprehensive_mutation|]. intros o2'.
  apply IH.
Qed.

Lemma keeps_generation st : keeps (generation cfg self st).
Proof.
  unfold generation.
  apply keeps_bind.
  { apply heap_const_keeps, heap_const_mapM. apply heap_const_evaluate. }
  intros scores.
  apply keeps_bind; [apply heap_const_keeps, heap_const_lift|]. intros idx.
  apply keeps_bind.
  { destruct (Qlt_bool _ _); [|apply keeps_ret].
    apply keeps_bind; [apply heap_const_keeps, heap_const_lift|].
    intros b. apply keeps_ret. }
  intros tracked.
  destruct (Qle_bool 900 _); [apply keeps_ret|].
  apply keeps_bind; [apply heap_const_keeps, heap_const_lift|]. intros elites.
  apply keeps_bind; [apply keeps_breed|]. intros np. apply keeps_ret.
Qed.

Lemma keeps_generations_from n : forall st, keeps (generations_from cfg self n st).
Proof.
  induction n as [|n IH]; intros st; [apply keeps_ret|].
  cbn [generations_from].
  apply keeps_bind; [apply keeps_generation|]. intros [st' stop].
  destruct stop; [apply keeps_ret|apply IH].
Qed.

Lemma keeps_enforce_loop todo : forall adjusted counts,
  keeps (enforce_loop cfg self todo adjusted counts).
Proof.
  induction todo as [|[l entry] todo IH]; intros adjusted counts;
    [apply keeps_ret|].
  cbn [enforce_loop]. cbn zeta.
  destruct (_ <? _); [apply IH|].
  destruct (get_is_fixed entry).
  - apply keeps_bind; [apply heap_const_keeps, heap_const_append_conflict|].
    intros _. apply IH.
  - apply keeps_bind; [apply keeps_ret|]. intros [l'|].
    + apply keeps_bind; [apply heap_const_keeps, heap_const_read|]. intros e'.
      destruct (_ !! day e'); [apply IH|].
      apply heap_const_keeps, heap_const_lift.
    + apply keeps_bind; [apply heap_const_keeps, heap_const_append_conflict|].
      intros _. apply IH.
Qed.

Lemma keeps_enforce_max_classes_per_day schedule :
  keeps (enforce_max_classes_per_day cfg self schedule).
Proof.
  unfold enforce_max_classes_per_day.
  apply keeps_bind; [apply heap_const_keeps, heap_const_read_schedule|].
  intros entries. apply keeps_enforce_loop.
Qed.

Lemma keeps_schedule_special_classes specials : forall schedule,
  keeps (schedule_special_classes specials schedule).
Proof.
  induction specials as [|s specials IH]; intros schedule; [apply keeps_ret|].
  cbn [schedule_special_classes].
  destruct (get_suitable_venue _ _); [|apply IH].
  apply keeps_bind; [apply keeps_alloc|]. intros l. apply IH.
Qed.

Lemma keeps_create_comprehensive_schedule :
  keeps (create_comprehensive_schedule cfg self).
Proof.
  unfold create_comprehensive_schedule.
  apply keeps_bind; [apply keeps_schedule_special_classes|]. intros s1.
  apply keeps_bind; [apply keeps_ret|]. intros s2.
  apply keeps_bind; [apply keeps_ret|]. intros s3.
  apply keeps_bind; [apply keeps_ret|]. intros s4.
  apply keeps_enforce_max_classes_per_day.
Qed.

Lemma keeps_initial_population n : keeps (initial_population cfg self n).
Proof.
  induction n as [|n IH]; [apply keeps_ret|].
  cbn [initial_population].
  apply keeps_bind; [apply keeps_create_comprehensive_schedule|]. intros i.
  apply keeps_bind; [apply IH|]. intros rest. apply keeps_ret.
Qed.

Lemma keeps_optimize :
  keeps (optimize_with_comprehensive_constraints cfg self).
Proof.
  unfold optimize_with_comprehensive_constraints.
  apply keeps_bind; [apply keeps_initial_population|]. intros pop.
  apply keeps_bind; [apply keeps_generations_from|]. intros st.
  destruct (best_individual st); [apply keeps_ret|].
  apply keeps_bind; [apply heap_const_keeps, heap_const_evaluate|].
  intros f. apply keeps_ret.
Qed.
End EngineInvariance.

Lemma comprehensive_mutation_same_list self individual w individual' w' :
  comprehensive_mutation self individual w = (Ok individual', w') ->
  individual' = individual.
Proof.
  intros H. destruct individual as [|l ls].
  { unfold comprehensive_mutation, mret, M_ret in H. congruence. }
  unfold comprehensive_mutation, mbind, M_bind, mret, M_ret in H.
  destruct (mutate_all self (l :: ls) w) as [[[]|x] w1]; congruence.
Qed.

(** C1: Fixed-entry invariance.  [comprehensive_mutation] returns the list
    it was given and, whatever the random draws and however it ends, every
    dict of the store whose [is_fixed] flag is true is afterwards the same
    record at the same location (day, times, venue, subject, batch and all
    other keys); crossover does not write to the store; and the same holds
    from any state of the genetic loop across any number of generations. *)
Theorem fixed_entry_invariance (cfg : Config) (self : optimizer) :
  (forall individual w l e,
     heap w !! l = Some e -> get_is_fixed e = true ->
     heap (comprehensive_mutation self individual w).2 !! l = Some e) /\
  (forall individual w individual' w',
     comprehensive_mutation self individual w = (Ok individual', w') ->
     individual' = individual) /\
  (forall parent1 parent2 w,
     heap (enhanced_crossover self parent1 parent2 w).2 = heap w) /\
  (forall n st w l e,
     heap w !! l = Some e -> get_is_fixed e = true ->
     heap (generations_from cfg self n st w).2 !! l = Some e).
Proof.
  repeat split.
  - intros individual w l e Hl Hf.
    pose proof (keeps_comprehensive_mutation self individual (heap w) w
                  (fixed_stable_refl _)) as H.
    destruct (comprehensive_mutation self individual w) as [[a|x] w1];
      apply (H l e Hl Hf).
  - apply comprehensive_mutation_same_list.
  - intros parent1 parent2 w. apply heap_const_enhanced_crossover.
  - intros n st w l e Hl Hf.
    pose proof (keeps_generations_from cfg self n st (heap w) w
                  (fixed_stable_refl _)) as H.
    destruct (generations_from cfg self n st w) as [[a|x] w1];
      apply (H l e Hl Hf).
Qed.

(** Every draw selects a mutation: the fixed lecture at location 0 stays,
    the movable one at location 2 gets another time slot. *)
Lemma fixed_entry_invariance_witness :
  let w := Samples.three_lectures_with Samples.oracle_one in
  let w' := (comprehensive_mutation (Samples.optimizer_with Samples.room60)
               [0; 1; 2]%nat w).2 in
  heap w !! 0%nat = Some (Samples.lecture 1 3 7 true "09:00" "10:00") /\
  heap w' !! 0%nat = Some (Samples.lecture 1 3 7 true "09:00" "10:00") /\
  heap w' !! 2%nat = Some (Samples.lecture 1 4 7 false "10:00" "11:00").
Proof.
  cbv zeta. split; [reflexivity|]. split.
  - apply (proj1 (fixed_entry_invariance default_Config
                    (Samples.optimizer_with Samples.room60))
             [0; 1; 2]%nat (Samples.three_lectures_with Samples.oracle_one)
             0%nat); reflexivity.
  - vm_compute. reflexivity.
Defined.

(** ** Inversion of the binds *)

Lemma obind_ok {A B} (o : outcome A) (f : A -> outcome B) (b : B) :
  o ≫= f = Ok b -> exists a, o = Ok a /\ f a = Ok b.
Proof. destruct o as [a|e]; cbn; [eauto|discriminate]. Qed.

Lemma bind_ok {A B} (m : M A) (f : A -> M B) w b w' :
  (m ≫= f) w = (Ok b, w') ->
  exists a w1, m w = (Ok a, w1) /\ f a w1 = (Ok b, w').
Proof.
  unfold mbind, M_bind. destruct (m w) as [[a|e] w1]; [eauto|discriminate].
Qed.

Lemma ret_ok {A} (a b : A) w w' :
  (mret a : M A) w = (Ok b, w') -> a = b /\ w = w'.
Proof. unfold mret, M_ret. intros H. now inversion H. Qed.

Lemma lift_ok {A} (o : outcome A) b w w' :
  lift o w = (Ok b, w') -> o = Ok b /\ w = w'.
Proof. unfold lift. intros H. now inversion H. Qed.

(** ** The fitness floor *)

(** C3: Fitness floor.  Whenever [calculate_comprehensive_fitness] returns
    a score, the score is greater than or equal to zero, whatever the
    schedule and its violations. *)
Theorem fitness_floor (cfg : Config) (self : optimizer)
    (schedule : list ScheduleEntry) (f : Q) :
  calculate_comprehensive_fitness cfg self schedule = Ok f -> (0 <= f)%Q.
Proof.
  unfold calculate_comprehensive_fitness. intros H.
  repeat (apply obind_ok in H; destruct H as (? & _ & H)).
  injection H as <-. apply py_max0_nonneg.
Qed.

(** Twenty lectures of one batch and one teacher on one day: the raw
    score is negative and the floor applies. *)
Lemma fitness_floor_witness :
  calculate_comprehensive_fitness default_Config
    (Samples.optimizer_with Samples.room60)
    (replicate 20 (Samples.lecture 1 3 7 true "09:00" "10:00")) = Ok 0%Q /\
  (0 <= 0)%Q.
Proof.
  assert (H : calculate_comprehensive_fitness default_Config
    (Samples.optimizer_with Samples.room60)
    (replicate 20 (Samples.lecture 1 3 7 true "09:00" "10:00")) = Ok 0%Q)
    by (vm_compute; reflexivity).
  split; [exact H|].
  exact (fitness_floor _ _ _ _ H).
Defined.

(** ** Crossover *)

Lemma deref_cons h l ls es :
  deref h (l :: ls) = Ok es <->
  exists e es', h !! l = Some e /\ deref h ls = Ok es' /\ es = e :: es'.
Proof.
  unfold deref. cbn [omapM]. split.
  - intros H. apply obind_ok in H as (e & He & H).
    apply obind_ok in H as (es' & Hes & H). injection H as <-.
    exists e, es'. destruct (h !! l); [|discriminate].
    injection He as ->. auto.
  - intros (e & es' & He & Hes & ->). rewrite He, Hes. reflexivity.
Qed.

Lemma deref_Permutation h ls ls' :
  Permutation ls ls' ->
  forall es, deref h ls = Ok es ->
  exists es', deref h ls' = Ok es' /\ Permutation es es'.
Proof.
  induction 1 as [|x l l' Hp IH|x y l|l l' l'' H1 IH1 H2 IH2]; intros es Hes.
  - exists es. split; [exact Hes|reflexivity].
  - apply deref_cons in Hes as (e & es0 & He & Hes0 & ->).
    destruct (IH _ Hes0) as (es1 & H1 & Hp1).
    exists (e :: es1). split; [|now constructor].
    apply deref_cons. eauto.
  - apply deref_cons in Hes as (e1 & es1 & He1 & Hes1 & ->).
    apply deref_cons in Hes1 as (e2 & es2 & He2 & Hes2 & ->).
    exists (e2 :: e1 :: es2). split; [|apply perm_swap].
    apply deref_cons. exists e2, (e1 :: es2). repeat split; auto.
    apply deref_cons. eauto.
  - destruct (IH1 _ Hes) as (es1 & Hd1 & Hp1).
    destruct (IH2 _ Hd1) as (es2 & Hd2 & Hp2).
    exists es2. split; [exact Hd2|]. now transitivity es1.
Qed.

Lemma swap_tails_Permutation {A} (n : nat) (p1 p2 : list A) :
  Permutation ((take n p1 ++ drop n p2) ++ (take n p2 ++ drop n p1)) (p1 ++ p2).
Proof.
  rewrite <- (take_drop n p1) at 3. rewrite <- (take_drop n p2) at 3.
  rewrite <- !app_assoc. apply Permutation_app_head.
  rewrite (Permutation_app_comm (drop n p1) (take n p2 ++ drop n p2)).
  rewrite <- !app_assoc.
  rewrite (Permutation_app_comm (drop n p2) (take n p2 ++ drop n p1)).
  rewrite <- !app_assoc. apply Permutation_app_head.
  apply Permutation_app_comm.
Qed.

(** C10: Crossover redistributes entries.  For parents of at least two
    entries each, [enhanced_crossover] returns two offspring; the
    locations of the two offspring together are a permutation of those of
    the two parents together, the store is not written, so the dicts they
    denote are the same multiset; and when the draw exceeds the crossover
    rate each offspring is its parent. *)
Theorem crossover_redistributes (self : optimizer)
    (parent1 parent2 : list loc) (w : world) :
  (2 <= length parent1)%nat -> (2 <= length parent2)%nat ->
  exists offspring1 offspring2 w',
    enhanced_crossover self parent1 parent2 w = (Ok (offspring1, offspring2), w') /\
    Permutation (offspring1 ++ offspring2) (parent1 ++ parent2) /\
    heap w' = heap w /\
    (forall es, deref (heap w) (parent1 ++ parent2) = Ok es ->
       exists es', deref (heap w') (offspring1 ++ offspring2) = Ok es' /\
                   Permutation es' es) /\
    (forall r w1, random_random w = (Ok r, w1) ->
       Qlt_bool (crossover_rate self) r = true ->
       offspring1 = parent1 /\ offspring2 = parent2).
Proof.
  intros H1 H2.
  assert (Hgoal : exists offspring1 offspring2 w',
    enhanced_crossover self parent1 parent2 w = (Ok (offspring1, offspring2), w') /\
    Permutation (offspring1 ++ offspring2) (parent1 ++ parent2) /\
    (forall r w1, random_random w = (Ok r, w1) ->
       Qlt_bool (crossover_rate self) r = true ->
       offspring1 = parent1 /\ offspring2 = parent2)).
  { unfold enhanced_crossover.
    destruct (random_random w) as [[r|x] w1] eqn:Hr;
      [|unfold random_random, draw, mbind, M_bind, mret, M_ret in Hr;
        discriminate].
    unfold mbind at 1. unfold M_bind at 1. rewrite Hr.
    destruct (Qlt_bool (crossover_rate self) r) eqn:Hskip; cbn [orb].
    - exists parent1, parent2, w1. repeat split; auto.
    - destruct (length parent1 =? 0)%nat eqn:E1;
        [apply Nat.eqb_eq in E1; lia|].
      destruct (length parent2 =? 0)%nat eqn:E2;
        [apply Nat.eqb_eq in E2; lia|].
      cbn [orb]. unfold random_randint.
      destruct (1 <=? Z.of_nat (length parent1 `min` length parent2) - 1) eqn:E;
        [|apply Z.leb_gt in E; lia].
      unfold randbelow, draw, mbind, M_bind, mret, M_ret. cbn.
      eexists _, _, _. split; [reflexivity|]. split.
      + apply swap_tails_Permutation.
      + intros r' w' Hr'. injection Hr' as <- <-. congruence. }
  destruct Hgoal as (o1 & o2 & w' & Hrun & Hperm & Hskip).
  exists o1, o2, w'.
  assert (Hheap : heap w' = heap w).
  { pose proof (heap_const_enhanced_crossover self parent1 parent2 w) as Hc.
    now rewrite Hrun in Hc. }
  repeat split; auto.
  - intros es Hes. rewrite Hheap.
    destruct (deref_Permutation (heap w) _ _ (Permutation_sym Hperm) es Hes)
      as (es' & Hd & Hp).
    exists es'. split; [exact Hd|now symmetry].
  - eapply Hskip; eauto.
  - eapply Hskip; eauto.
Qed.

Lemma crossover_redistributes_witness :
  (2 <= length [0; 1; 2]%nat)%nat /\ (2 <= length [2; 1]%nat)%nat /\
  exists offspring1 offspring2 w',
    enhanced_crossover (Samples.optimizer_with Samples.room60)
      [0; 1; 2]%nat [2; 1]%nat Samples.three_lectures
      = (Ok (offspring1, offspring2), w') /\
    Permutation (offspring1 ++ offspring2) ([0; 1; 2] ++ [2; 1])%nat.
Proof.
  split; [cbn; lia|]. split; [cbn; lia|].
  destruct (crossover_redistributes (Samples.optimizer_with Samples.room60)
              [0; 1; 2]%nat [2; 1]%nat Samples.three_lectures)
    as (o1 & o2 & w' & Hrun & Hperm & _); [cbn; lia|cbn; lia|].
  exists o1, o2, w'. split; assumption.
Defined.

(** ** The stable sort *)

Section StableSortFacts.
Context {A : Type} (le : A -> A -> bool) (R : A -> A -> Prop).
Hypothesis le_true : forall x y, le x y = true -> R x y.
Hypothesis le_false : forall x y, le x y = false -> R y x.
Hypothesis R_trans : forall x y z, R x y -> R y z -> R x z.

Lemma sort_insert_Permutation x l : Permutation (sort_insert le x l) (x :: l).
Proof.
  induction l as [|y l IH]; cbn; [reflexivity|].
  destruct (le x y); [reflexivity|].
  rewrite IH. apply perm_swap.
Qed.

Lemma stable_sort_Permutation l : Permutation (stable_sort le l) l.
Proof.
  induction l as [|x l IH]; cbn; [reflexivity|].
  unfold stable_sort in IH. rewrite sort_insert_Permutation. now constructor.
Qed.

Lemma sort_insert_sorted x l :
  StronglySorted R l -> StronglySorted R (sort_insert le x l).
Proof.
  induction 1 as [|y l Hs IH Hy]; cbn; [repeat constructor|].
  destruct (le x y) eqn:E.
  - constructor; [now constructor|].
    constructor; [now apply le_true|].
    eapply Forall_impl; [exact Hy|]. intros z Hz.
    eapply R_trans; [apply le_true|]; eassumption.
  - constructor; [exact IH|].
    eapply Permutation_Forall;
      [symmetry; apply sort_insert_Permutation|].
    constructor; [now apply le_false|exact Hy].
Qed.

Lemma stable_sort_sorted l : StronglySorted R (stable_sort le l).
Proof.
  induction l as [|x l IH]; cbn; [constructor|].
  now apply sort_insert_sorted.
Qed.
End StableSortFacts.

Lemma StronglySorted_lookup {A} (R : A -> A -> Prop) (l : list A) :
  StronglySorted R l ->
  forall i j a b, (i < j)%nat -> l !! i = Some a -> l !! j = Some b -> R a b.
Proof.
  induction 1 as [|x l Hs IH Hx]; intros i j a b Hij Ha Hb; [discriminate|].
  destruct j as [|j]; [lia|]. cbn in Hb.
  destruct i as [|i]; cbn in Ha.
  - injection Ha as <-. rewrite Forall_forall in Hx. apply Hx.
    eapply list_elem_of_lookup_2; eauto.
  - apply (IH i j); [lia|assumption..].
Qed.

(** ** The multi-solution driver *)

(** C7: Multi-solution ordering.  The list returned by
    [generate_multiple_optimized_solutions] is in descending order of
    fitness: each solution is at least as fit as the next one, and the
    first is at least as fit as every solution of the list. *)
Theorem solutions_sorted_descending (cfg : Config) (self : optimizer)
    (num_solutions : nat) (w : world) (solutions : list Solution) (w' : world) :
  generate_multiple_optimized_solutions cfg self num_solutions w
    = (Ok solutions, w') ->
  (forall i a b, solutions !! i = Some a -> solutions !! S i = Some b ->
     (sol_fitness b <= sol_fitness a)%Q) /\
  (forall first s, head solutions = Some first -> In s solutions ->
     (sol_fitness s <= sol_fitness first)%Q).
Proof.
  unfold generate_multiple_optimized_solutions. intros H.
  apply bind_ok in H as (runs & w1 & _ & H). apply ret_ok in H as [<- _].
  assert (Hs : StronglySorted (fun a b => (sol_fitness b <= sol_fitness a)%Q)
                 (stable_sort fitness_ge runs)).
  { apply stable_sort_sorted.
    - intros x y E. now apply Qle_bool_iff.
    - intros x y E. unfold fitness_ge in E.
      destruct (Qlt_le_dec (sol_fitness x) (sol_fitness y)) as [Hlt|Hle].
      + now apply Qlt_le_weak.
      + apply Qle_bool_iff in Hle. congruence.
    - intros x y z Hxy Hyz. eapply Qle_trans; eassumption. }
  split.
  - intros i a b Ha Hb.
    apply (StronglySorted_lookup _ _ Hs i (S i) a b); [lia|assumption..].
  - intros first s Hhead Hin.
    destruct (stable_sort fitness_ge runs) as [|x l] eqn:E; [discriminate|].
    injection Hhead as ->. destruct Hin as [->|Hin]; [apply Qle_refl|].
    apply StronglySorted_inv in Hs as [_ Hall].
    rewrite Forall_forall in Hall. apply Hall. now apply list_elem_of_In.
Qed.

Lemma solutions_sorted_descending_witness :
  exists solutions w',
    generate_multiple_optimized_solutions Samples.small_Config
      (new_optimizer Samples.small_Config Samples.campus 1) 3
      (initial_world Samples.oracle_zero) = (Ok solutions, w') /\
    length solutions = 3%nat /\
    (forall i a b, solutions !! i = Some a -> solutions !! S i = Some b ->
       (sol_fitness b <= sol_fitness a)%Q).
Proof.
  destruct (generate_multiple_optimized_solutions Samples.small_Config
      (new_optimizer Samples.small_Config Samples.campus 1) 3
      (initial_world Samples.oracle_zero)) as [[solutions|e] w'] eqn:H.
  - exists solutions, w'. split; [reflexivity|]. split.
    + vm_compute in H. injection H as <- _. reflexivity.
    + apply (solutions_sorted_descending _ _ _ _ _ _ H).
  - vm_compute in H. discriminate.
Defined.

(** ** The tracked best *)

Lemma argmax_from_lookup (l : list Q) : forall pre best m,
  pre !! best = Some m ->
  (pre ++ l) !! argmax_from l (length pre) best m
    = Some (foldl (fun m y => if Qlt_bool m y then y else m) m l).
Proof.
  induction l as [|y l IH]; intros pre best m Hb; cbn.
  - rewrite app_nil_r. exact Hb.
  - replace (pre ++ y :: l) with ((pre ++ [y]) ++ l)
      by now rewrite <- app_assoc.
    replace (S (length pre)) with (length (pre ++ [y]))
      by (rewrite length_app; cbn; lia).
    destruct (Qlt_bool m y).
    + apply IH. rewrite lookup_app_r by lia.
      now rewrite Nat.sub_diag.
    + apply IH. now apply lookup_app_l_Some.
Qed.

Lemma np_argmax_py_max (l : list Q) i :
  np_argmax l = Ok i -> exists m, py_max l = Some m /\ l !! i = Some m.
Proof.
  destruct l as [|x l]; cbn; [discriminate|]. intros H. injection H as <-.
  eexists. split; [reflexivity|].
  apply (argmax_from_lookup l [x] 0%nat x). reflexivity.
Qed.

Lemma mapM_length {A B} (f : A -> M B) (l : list A) : forall w ys w',
  mapM f l w = (Ok ys, w') -> length ys = length l.
Proof.
  induction l as [|x l IH]; intros w ys w' H; cbn [mapM] in H.
  - apply ret_ok in H as [<- _]. reflexivity.
  - apply bind_ok in H as (y & w1 & _ & H).
    apply bind_ok in H as (ys' & w2 & Hys & H).
    apply ret_ok in H as [<- _]. cbn. f_equal. eapply IH; eauto.
Qed.

Section BestEver.
Variable cfg : Config.
Variable self : optimizer.

Lemma tracked_step_le st w st' :
  tracked_step cfg self st w st' -> (best_fitness st <= best_fitness st')%Q.
Proof.
  intros [[_ ->]|[H _]]; [apply Qle_refl|now apply Qlt_le_weak].
Qed.

Lemma generation_tracked st w st' stop w' :
  generation cfg self st w = (Ok (st', stop), w') ->
  tracked_step cfg self st w st'.
Proof.
  unfold generation. intros H.
  apply bind_ok in H as (scores & w1 & Hscores & H).
  apply bind_ok in H as (idx & w2 & Hidx & H).
  apply lift_ok in Hidx as [Hidx <-].
  apply bind_ok in H as (tracked & w3 & Htracked & H).
  assert (Hfields : best_individual st' = tracked.1 /\
                    best_fitness st' = tracked.2).
  { destruct (Qle_bool 900 _).
    - apply ret_ok in H as [H _]. injection H as <- _. auto.
    - apply bind_ok in H as (elites & w4 & _ & H).
      apply bind_ok in H as (np & w5 & _ & H).
      apply ret_ok in H as [H _]. injection H as <- _. auto. }
  destruct Hfields as [Hi Hf]. clear H.
  destruct (Qlt_bool (best_fitness st) (default 0%Q (py_max scores))) eqn:Hlt.
  - right.
    apply bind_ok in Htracked as (best & w4 & Hbest & Htracked).
    apply lift_ok in Hbest as [Hbest <-].
    apply ret_ok in Htracked as [<- _]. cbn in Hi, Hf.
    destruct (population st !! idx) as [candidate|] eqn:Hcand; [|discriminate].
    injection Hbest as ->.
    split; [rewrite Hf; now apply Qlt_bool_iff|].
    exists scores, w1, idx, best. repeat split; auto.
    destruct scores as [|s0 scores'] eqn:Escores.
    + apply mapM_length in Hscores. cbn in Hscores.
      symmetry in Hscores. apply length_zero_iff_nil in Hscores.
      rewrite Hscores in Hcand. discriminate.
    + apply np_argmax_py_max in Hidx as (m & Hm & Hl).
      rewrite Hf, Hm. exact Hl.
  - left. apply ret_ok in Htracked as [<- _]. cbn in Hi, Hf. auto.
Qed.

Lemma generations_from_S n st :
  generations_from cfg self (S n) st =
  ('(st', stop) ← generation cfg self st;
   if (stop : bool) then mret st' else generations_from cfg self n st').
Proof. reflexivity. Qed.

Lemma generations_from_monotone n : forall st w st' w',
  generations_from cfg self n st w = (Ok st', w') ->
  (best_fitness st <= best_fitness st')%Q.
Proof.
  induction n as [|n IH]; intros st w st' w' H; cbn [generations_from] in H.
  - apply ret_ok in H as [<- _]. apply Qle_refl.
  - apply bind_ok in H as ([st1 stop] & w1 & Hgen & H).
    apply generation_tracked in Hgen.
    apply (tracked_step_le st w st1) in Hgen.
    destruct stop.
    + apply ret_ok in H as [<- _]. exact Hgen.
    + eapply Qle_trans; [exact Hgen|]. eapply IH; eauto.
Qed.

(** C6: Monotonic best-ever.  Let the generation loop, from one state and
    one oracle, be run with a budget of [k] generations and with a budget
    of [k + 1].  The tracked best fitness after the longer run is at least
    the one after the shorter run; the tracked best individual and fitness
    are either both unchanged, or replaced by a candidate of the population
    evaluated in that generation whose score is strictly higher than the
    previous best fitness.  [best_fitness] never decreases over a whole
    run either. *)
Theorem best_fitness_monotone (k : nat) : forall (st : search) (w : world)
    (after_k : search) (w_k : world) (after_next : search) (w_next : world),
  generations_from cfg self k st w = (Ok after_k, w_k) ->
  generations_from cfg self (S k) st w = (Ok after_next, w_next) ->
  (best_fitness after_k <= best_fitness after_next)%Q /\
  tracked_step cfg self after_k w_k after_next /\
  (best_fitness st <= best_fitness after_k)%Q.
Proof.
  induction k as [|k IH]; intros st w after_k w_k after_next w_next Hk Hn.
  - cbn [generations_from] in Hk. apply ret_ok in Hk as [<- <-].
    cbn [generations_from] in Hn.
    apply bind_ok in Hn as ([st1 stop] & w1 & Hgen & Hn).
    assert (st1 = after_next) as ->.
    { destruct stop; apply ret_ok in Hn as [H _]; exact H. }
    apply generation_tracked in Hgen.
    split; [exact (tracked_step_le _ _ _ Hgen)|].
    split; [exact Hgen|apply Qle_refl].
  - pose proof (generations_from_monotone _ _ _ _ _ Hk) as Hle.
    rewrite generations_from_S in Hk. rewrite generations_from_S in Hn.
    apply bind_ok in Hk as ([st1 stop] & w1 & Hgen & Hk).
    apply bind_ok in Hn as ([st1' stop'] & w1' & Hgen' & Hn).
    rewrite Hgen in Hgen'. injection Hgen' as <- <- <-.
    destruct stop.
    + apply ret_ok in Hk as [<- <-]. apply ret_ok in Hn as [<- <-].
      split; [apply Qle_refl|]. split; [left; auto|exact Hle].
    + destruct (IH _ _ _ _ _ _ Hk Hn) as (H1 & H2 & _). auto.
Qed.
End BestEver.

Lemma best_fitness_monotone_witness :
  exists after_1 w_1 after_2 w_2,
    generations_from default_Config (Samples.optimizer_with Samples.room60) 1
      Samples.crowded_search Samples.crowded_monday = (Ok after_1, w_1) /\
    generations_from default_Config (Samples.optimizer_with Samples.room60) 2
      Samples.crowded_search Samples.crowded_monday = (Ok after_2, w_2) /\
    (0 < best_fitness after_1)%Q /\
    (best_fitness after_1 <= best_fitness after_2)%Q.
Proof.
  destruct (generations_from default_Config
              (Samples.optimizer_with Samples.room60) 1
              Samples.crowded_search Samples.crowded_monday)
    as [[after_1|e] w_1] eqn:H1; [|vm_compute in H1; discriminate].
  destruct (generations_from default_Config
              (Samples.optimizer_with Samples.room60) 2
              Samples.crowded_search Samples.crowded_monday)
    as [[after_2|e] w_2] eqn:H2; [|vm_compute in H2; discriminate].
  exists after_1, w_1, after_2, w_2.
  split; [reflexivity|]. split; [reflexivity|]. split.
  - vm_compute in H1. injection H1 as <- _. reflexivity.
  - exact (proj1 (best_fitness_monotone default_Config
                    (Samples.optimizer_with Samples.room60) 1
                    _ _ _ _ _ _ H1 H2)).
Defined.

(** ** The daily cap *)

Lemma count_of_init_count b d m b' d' :
  count_of (init_count b d m) b' d' = count_of m b' d'.
Proof.
  unfold count_of, init_count.
  destruct (m !! b) as [inner|] eqn:Hb; cbn zeta.
  - rewrite Hb. unfold default; cbn [from_option id].
    destruct (inner !! d) as [c|] eqn:Hd; [reflexivity|].
    destruct (decide (b = b')) as [<-|Hne].
    + rewrite lookup_insert_eq, Hb. unfold default; cbn [from_option id].
      destruct (decide (d = d')) as [<-|Hne'].
      * now rewrite lookup_insert_eq, Hd.
      * now rewrite lookup_insert_ne.
    + now rewrite lookup_insert_ne.
  - rewrite lookup_insert_eq. unfold default; cbn [from_option id]. rewrite lookup_empty.
    destruct (decide (b = b')) as [<-|Hne].
    + rewrite lookup_insert_eq, Hb. unfold default; cbn [from_option id].
      destruct (decide (d = d')) as [<-|Hne'].
      * now rewrite lookup_insert_eq, lookup_empty.
      * now rewrite lookup_insert_ne.
    + rewrite !lookup_insert_ne by assumption. reflexivity.
Qed.

Lemma count_of_bump b d m b' d' :
  count_of (bump b d m) b' d' =
  count_of m b' d' + (if bool_decide (b' = b /\ d' = d) then 1 else 0).
Proof.
  unfold count_of, bump. cbn zeta.
  destruct (decide (b = b')) as [<-|Hne].
  - rewrite lookup_insert_eq. unfold default; cbn [from_option id].
    destruct (decide (d = d')) as [<-|Hne'].
    + rewrite lookup_insert_eq. unfold default; cbn [from_option id].
      rewrite bool_decide_eq_true_2 by auto. reflexivity.
    + rewrite lookup_insert_ne by assumption.
      rewrite bool_decide_eq_false_2 by (intros [_ ?]; congruence). lia.
  - rewrite lookup_insert_ne by assumption.
    rewrite bool_decide_eq_false_2 by (intros [? _]; congruence). lia.
Qed.

Lemma count_where_app {A} (p : A -> bool) (l1 l2 : list A) :
  count_where p (l1 ++ l2) = (count_where p l1 + count_where p l2)%nat.
Proof. unfold count_where. now rewrite List.filter_app, length_app. Qed.

Lemma count_where_Permutation {A} (p : A -> bool) (l1 l2 : list A) :
  Permutation l1 l2 -> count_where p l1 = count_where p l2.
Proof.
  unfold count_where. induction 1; cbn; try destruct (p x); try destruct (p y);
    cbn; congruence.
Qed.

Lemma count_where_none {A} (p : A -> bool) (l : list A) :
  Forall (fun x => p x = false) l -> count_where p l = 0%nat.
Proof.
  unfold count_where. induction 1 as [|x l Hx _ IH]; cbn; [reflexivity|].
  now rewrite Hx.
Qed.

Lemma classes_on_snoc b d es e :
  classes_on b d (es ++ [e]) =
  classes_on b d es + (if on_day b d e then 1 else 0).
Proof.
  unfold classes_on. rewrite count_where_app. unfold count_where at 2. cbn.
  destruct (on_day b d e); cbn; lia.
Qed.

Lemma classes_on_app_le b d es es' :
  classes_on b d es <= classes_on b d (es ++ es').
Proof. unfold classes_on. rewrite count_where_app. lia. Qed.

Lemma fixed_on_cons b d e es :
  fixed_on b d (e :: es) =
  (if on_day b d e && get_is_fixed e then 1 else 0) + fixed_on b d es.
Proof.
  unfold fixed_on, count_where. cbn.
  destruct (on_day b d e && get_is_fixed e); cbn [length]; lia.
Qed.

Lemma fixed_on_none b d es :
  Forall (fun e => get_is_fixed e = false) es -> fixed_on b d es = 0.
Proof.
  intros H. unfold fixed_on. rewrite count_where_none; [reflexivity|].
  eapply Forall_impl; [exact H|]. intros e He. cbn. rewrite He.
  apply andb_false_r.
Qed.

Lemma fixed_on_nonneg b d es : 0 <= fixed_on b d es.
Proof. unfold fixed_on. lia. Qed.

Lemma on_day_self e : on_day (batch_id e) (day e) e = true.
Proof. unfold on_day. now apply bool_decide_eq_true_2. Qed.

Lemma with_conflicts_nil w : with_conflicts w [] = w.
Proof. destruct w. unfold with_conflicts. cbn. now rewrite app_nil_r. Qed.

Lemma with_conflicts_app w cs cs' :
  with_conflicts (with_conflicts w cs) cs' = with_conflicts w (cs ++ cs').
Proof. unfold with_conflicts. cbn. now rewrite app_assoc. Qed.

Lemma bind_append_conflict {B} c (f : unit -> M B) w :
  (append_conflict c ≫= f) w = f tt (with_conflicts w [c]).
Proof. reflexivity. Qed.

Lemma bind_ret {A B} (a : A) (f : A -> M B) w : (mret a ≫= f) w = f a w.
Proof. reflexivity. Qed.

Section DailyCap.
Variable cfg : Config.
Variable self : optimizer.

Lemma enforce_loop_spec (todo : list (loc * ScheduleEntry)) :
  forall adjusted counts w seen,
  (forall b d, count_of counts b d = classes_on b d seen) ->
  StronglySorted (fun x y : loc * ScheduleEntry =>
    get_is_fixed x.2 = false -> get_is_fixed y.2 = false) todo ->
  (Forall (fun e => get_is_fixed e = true) seen \/
   Forall (fun p : loc * ScheduleEntry => get_is_fixed p.2 = false) todo) ->
  capped (max_classes_of cfg self) seen ->
  exists kept dropped cs,
    enforce_loop cfg self todo adjusted counts w
      = (Ok (adjusted ++ kept.*1), with_conflicts w cs) /\
    Permutation todo (kept ++ dropped) /\
    Forall (fun p : loc * ScheduleEntry => get_is_fixed p.2 = false) dropped /\
    capped (max_classes_of cfg self) (seen ++ kept.*2) /\
    Forall (fun c => conflict_type c = "max_classes_exceeded") cs /\
    List.filter is_dropped_conflict cs = map dropped_conflict dropped.*2 /\
    (forall b d,
       Z.of_nat (count_where (is_fixed_conflict_on b d) cs) =
       Z.max 0 (classes_on b d seen + fixed_on b d kept.*2
                - Z.max (classes_on b d seen) (max_classes_of cfg self b))) /\
    Forall (fun p : loc * ScheduleEntry =>
      max_classes_of cfg self (batch_id p.2)
      <= classes_on (batch_id p.2) (day p.2) (seen ++ kept.*2)) dropped.
Proof.
  induction todo as [|[l e] rest IH]; intros adjusted counts w seen Hc Hs Hph Hcap.
  - exists [], [], []. cbn. rewrite !app_nil_r, with_conflicts_nil.
    repeat split; auto. intros b d. unfold fixed_on, count_where. cbn. lia.
  - apply StronglySorted_inv in Hs as [Hs Hhd].
    cbn [enforce_loop]. cbn zeta.
    assert (Hc1 : forall b' d', count_of (init_count (batch_id e) (day e) counts) b' d'
                    = classes_on b' d' seen).
    { intros. now rewrite count_of_init_count. }
    assert (Hc2 : forall b' d',
      count_of (bump (batch_id e) (day e) (init_count (batch_id e) (day e) counts)) b' d'
      = classes_on b' d' (seen ++ [e])).
    { intros. rewrite count_of_bump, Hc1, classes_on_snoc. unfold on_day.
      destruct (bool_decide (b' = batch_id e /\ d' = day e)) eqn:E1;
      destruct (bool_decide (batch_id e = b' /\ day e = d')) eqn:E2; try reflexivity.
      - apply bool_decide_eq_true in E1. apply bool_decide_eq_false in E2.
        destruct E1 as [-> ->]. now destruct E2.
      - apply bool_decide_eq_true in E2. apply bool_decide_eq_false in E1.
        destruct E2 as [<- <-]. now destruct E1. }
    rewrite Hc1.
    set (b := batch_id e) in *. set (d := day e) in *.
    set (c := classes_on b d seen) in *.
    set (cap := max_classes_of cfg self b) in *.
    assert (Hrest : get_is_fixed e = false ->
              Forall (fun p : loc * ScheduleEntry => get_is_fixed p.2 = false) rest).
    { intros Hf. eapply Forall_impl; [exact Hhd|]. cbn. auto. }
    assert (Hseen : get_is_fixed e = true ->
              Forall (fun x => get_is_fixed x = true) (seen ++ [e])).
    { intros Hf. destruct Hph as [Hph|Hph].
      - apply Forall_app. split; [exact Hph|]. now constructor.
      - apply Forall_cons in Hph as [Hph _]. cbn in Hph. congruence. }
    assert (Hkept0 : forall kept' dropped' : list (loc * ScheduleEntry),
              get_is_fixed e = false -> rest ≡ₚ kept' ++ dropped' ->
              forall b' d', fixed_on b' d' kept'.*2 = 0).
    { intros kept' dropped' Hf Hp b' d'. apply fixed_on_none.
      apply Forall_fmap. specialize (Hrest Hf). rewrite Hp in Hrest.
      apply Forall_app in Hrest as [Hk _]. exact Hk. }
    assert (Hon : forall b' d', on_day b' d' e = true -> b' = b /\ d' = d).
    { intros b' d' H. apply bool_decide_eq_true in H. destruct H; auto. }
    destruct (c <? cap) eqn:Hlt.
    + apply Z.ltb_lt in Hlt.
      destruct (IH (adjusted ++ [l]) _ w (seen ++ [e]) Hc2 Hs)
        as (kept' & dropped' & cs' & Hrun & Hperm & Hdrop & Hcap' & Hty & Hfil & Hcnt & Hfull).
      { destruct (get_is_fixed e) eqn:Hf; [left; auto|right; auto]. }
      { intros b' d'. rewrite classes_on_snoc.
        destruct (on_day b' d' e) eqn:Eon.
        - destruct (Hon _ _ Eon) as [-> ->]. left. fold c. lia.
        - destruct (Hcap b' d') as [H|H]; [left; lia|right].
          apply Forall_app. split; [exact H|]. constructor; [|constructor].
          congruence. }
      exists ((l, e) :: kept'), dropped', cs'.
      rewrite Hrun. cbn [fmap list_fmap fst snd]. 
      split; [now rewrite <- app_assoc|].
      split; [cbn; now constructor|]. split; [exact Hdrop|].
      split; [now rewrite <- app_assoc in Hcap'|]. split; [exact Hty|].
      split; [exact Hfil|]. split.
      * intros b' d'. rewrite Hcnt, classes_on_snoc.
        change (((l, e) :: kept').*2) with (e :: kept'.*2).
        rewrite fixed_on_cons.
        pose proof (fixed_on_nonneg b' d' kept'.*2) as Hnn.
        destruct (on_day b' d' e) eqn:Eon; cbn [andb]; [|lia].
        destruct (Hon _ _ Eon) as [-> ->]. fold c cap.
        destruct (get_is_fixed e) eqn:Hf; [lia|].
        rewrite (Hkept0 kept' dropped' eq_refl Hperm). lia.
      * change (((l, e) :: kept').*2) with (e :: kept'.*2).
        eapply Forall_impl; [exact Hfull|]. intros p Hp.
        now rewrite <- app_assoc in Hp.
    + apply Z.ltb_ge in Hlt.
      destruct (get_is_fixed e) eqn:Hf.
      * rewrite bind_append_conflict.
        destruct (IH (adjusted ++ [l]) _
                    (with_conflicts w [fixed_conflict b d (c + 1) cap])
                    (seen ++ [e]) Hc2 Hs)
          as (kept' & dropped' & cs' & Hrun & Hperm & Hdrop & Hcap' & Hty & Hfil & Hcnt & Hfull).
        { left. auto. }
        { intros b' d'. right. eapply Forall_impl; [apply Hseen; reflexivity|].
          cbn. auto. }
        exists ((l, e) :: kept'), dropped',
          (fixed_conflict b d (c + 1) cap :: cs').
        rewrite Hrun, with_conflicts_app. cbn [fmap list_fmap fst snd].
        split; [now rewrite <- app_assoc|].
        split; [cbn; now constructor|]. split; [exact Hdrop|].
        split; [now rewrite <- app_assoc in Hcap'|].
        split; [constructor; [reflexivity|exact Hty]|].
        split; [exact Hfil|]. split.
        -- intros b' d'.
           change (((l, e) :: kept').*2) with (e :: kept'.*2).
           rewrite fixed_on_cons, Hf, andb_true_r.
           unfold count_where in *. cbn [List.filter].
           assert (Eq : is_fixed_conflict_on b' d' (fixed_conflict b d (c + 1) cap)
                        = on_day b' d' e).
           { unfold is_fixed_conflict_on, on_day. cbn. fold b d.
             apply bool_decide_ext. intuition congruence. }
           rewrite Eq. specialize (Hcnt b' d').
           rewrite classes_on_snoc in Hcnt.
           pose proof (fixed_on_nonneg b' d' kept'.*2) as Hnn.
           destruct (on_day b' d' e) eqn:Eon; cbn [length]; [|lia].
           destruct (Hon _ _ Eon) as [-> ->]. fold c cap in Hcnt |- *. lia.
        -- change (((l, e) :: kept').*2) with (e :: kept'.*2).
           eapply Forall_impl; [exact Hfull|]. intros p Hp.
           now rewrite <- app_assoc in Hp.
      * unfold reschedule_to_different_day. rewrite bind_ret.
        rewrite bind_append_conflict.
        destruct (IH adjusted _ (with_conflicts w [dropped_conflict e])
                    seen Hc1 Hs)
          as (kept' & dropped' & cs' & Hrun & Hperm & Hdrop & Hcap' & Hty & Hfil & Hcnt & Hfull).
        { right. auto. }
        { exact Hcap. }
        exists kept', ((l, e) :: dropped'), (dropped_conflict e :: cs').
        rewrite Hrun, with_conflicts_app.
        split; [reflexivity|].
        split; [now apply Permutation_cons_app|].
        split; [now constructor|]. split; [exact Hcap'|].
        split; [constructor; [reflexivity|exact Hty]|].
        split; [cbn; now rewrite Hfil|]. split.
        -- intros b' d'. rewrite <- Hcnt. unfold count_where. reflexivity.
        -- constructor; [|exact Hfull]. cbn. fold b d cap.
           pose proof (classes_on_app_le b d seen kept'.*2). fold c in H. lia.
Qed.

Lemma key_order_fixed_first (x y : loc * ScheduleEntry) :
  key_le (sort_key x.2) (sort_key y.2) = true ->
  get_is_fixed x.2 = false -> get_is_fixed y.2 = false.
Proof.
  unfold key_le, sort_key. cbn. intros H Hx. rewrite Hx in H. cbn in H.
  destruct (get_is_fixed y.2); [discriminate|reflexivity].
Qed.

Lemma key_order_total (x y : loc * ScheduleEntry) :
  key_le (sort_key x.2) (sort_key y.2) = false ->
  get_is_fixed y.2 = false -> get_is_fixed x.2 = false.
Proof.
  unfold key_le, sort_key. cbn. intros H Hy. rewrite Hy in H.
  destruct (get_is_fixed x.2); [discriminate|reflexivity].
Qed.

Lemma deref_zip h ls : forall es,
  deref h ls = Ok es ->
  length ls = length es /\
  Forall (fun p : loc * ScheduleEntry => h !! p.1 = Some p.2) (zip ls es).
Proof.
  induction ls as [|l ls IH]; intros es H.
  - injection H as <-. split; [reflexivity|constructor].
  - apply deref_cons in H as (e & es' & He & Hes & ->).
    destruct (IH _ Hes) as [Hlen Hall]. cbn. split; [now f_equal|].
    now constructor.
Qed.

Lemma deref_pairs h (ps : list (loc * ScheduleEntry)) :
  Forall (fun p => h !! p.1 = Some p.2) ps -> deref h ps.*1 = Ok ps.*2.
Proof.
  induction 1 as [|[l e] ps Hp _ IH]; [reflexivity|].
  cbn [fmap list_fmap]. apply deref_cons. cbn in Hp. eauto.
Qed.

(** Pairs of a location and its dict, before projection to either. *)
Lemma enforce_pairs schedule w entries :
  deref (heap w) schedule = Ok entries ->
  exists kept dropped cs,
    enforce_max_classes_per_day cfg self schedule w
      = (Ok kept.*1, with_conflicts w cs) /\
    Permutation (zip schedule entries) (kept ++ dropped) /\
    Forall (fun p : loc * ScheduleEntry => heap w !! p.1 = Some p.2)
      (kept ++ dropped) /\
    Forall (fun p : loc * ScheduleEntry => get_is_fixed p.2 = false) dropped /\
    capped (max_classes_of cfg self) kept.*2 /\
    Forall (fun c => conflict_type c = "max_classes_exceeded") cs /\
    List.filter is_dropped_conflict cs = map dropped_conflict dropped.*2 /\
    (forall b d,
       Z.of_nat (count_where (is_fixed_conflict_on b d) cs) =
       Z.max 0 (fixed_on b d kept.*2 - Z.max 0 (max_classes_of cfg self b))) /\
    Forall (fun p : loc * ScheduleEntry =>
      max_classes_of cfg self (batch_id p.2)
      <= classes_on (batch_id p.2) (day p.2) kept.*2) dropped.
Proof.
  intros Hd. unfold enforce_max_classes_per_day.
  unfold mbind at 1. unfold M_bind at 1. unfold read_schedule. rewrite Hd.
  set (sorted := stable_sort _ (zip schedule entries)).
  assert (Hperm : Permutation sorted (zip schedule entries))
    by apply stable_sort_Permutation.
  assert (Hsorted : StronglySorted (fun x y : loc * ScheduleEntry =>
            get_is_fixed x.2 = false -> get_is_fixed y.2 = false) sorted).
  { apply stable_sort_sorted.
    - apply key_order_fixed_first.
    - apply key_order_total.
    - auto. }
  destruct (enforce_loop_spec sorted [] ∅ w [])
    as (kept & dropped & cs & Hrun & Hp & Hdrop & Hcap & Hty & Hfil & Hcnt & Hfull).
  { intros b d. reflexivity. }
  { exact Hsorted. }
  { left. constructor. }
  { intros b d. right. constructor. }
  exists kept, dropped, cs. cbn [app] in *.
  split; [exact Hrun|]. split; [now rewrite <- Hp, Hperm|].
  split.
  { rewrite <- Hp, Hperm. now apply deref_zip. }
  repeat split; auto.
Qed.

(** C8: Daily cap enforcement.  On a schedule whose locations are all in
    the store, [enforce_max_classes_per_day] returns a schedule and appends
    conflicts to [self.conflicts], without touching the store, such that:
    the input entries are the kept ones plus the dropped ones; no fixed
    entry is dropped; for every batch and day the kept classes do not
    exceed the batch's cap unless all classes kept for that batch and day
    are fixed; an entry is dropped only when its batch and day have reached
    the cap; every conflict has type [max_classes_exceeded]; the dropped
    entries have, in order, their conflict recorded; and for every batch
    and day the fixed entries beyond the cap have one conflict each. *)
Theorem daily_cap_enforced (schedule : list loc) (w : world)
    (entries : list ScheduleEntry) :
  deref (heap w) schedule = Ok entries ->
  exists adjusted kept dropped cs,
    enforce_max_classes_per_day cfg self schedule w
      = (Ok adjusted, with_conflicts w cs) /\
    deref (heap w) adjusted = Ok kept /\
    Permutation entries (kept ++ dropped) /\
    Forall (fun e => get_is_fixed e = false) dropped /\
    capped (max_classes_of cfg self) kept /\
    Forall (fun e => max_classes_of cfg self (batch_id e)
                     <= classes_on (batch_id e) (day e) kept) dropped /\
    Forall (fun c => conflict_type c = "max_classes_exceeded") cs /\
    List.filter is_dropped_conflict cs = map dropped_conflict dropped /\
    (forall b d,
       Z.of_nat (count_where (is_fixed_conflict_on b d) cs) =
       Z.max 0 (fixed_on b d entries - Z.max 0 (max_classes_of cfg self b))).
Proof.
  intros Hd.
  destruct (enforce_pairs schedule w entries Hd)
    as (kept & dropped & cs & Hrun & Hp & Hheap & Hdrop & Hcap & Hty & Hfil & Hcnt & Hfull).
  assert (Hentries : Permutation entries (kept.*2 ++ dropped.*2)).
  { rewrite <- fmap_app, <- Hp. rewrite snd_zip; [reflexivity|].
    apply deref_zip in Hd as [-> _]. lia. }
  exists kept.*1, kept.*2, dropped.*2, cs.
  split; [exact Hrun|]. split.
  { apply deref_pairs. now apply Forall_app in Hheap as [H _]. }
  split; [exact Hentries|]. split; [now apply Forall_fmap|].
  split; [exact Hcap|]. split; [now apply Forall_fmap|].
  split; [exact Hty|]. split; [exact Hfil|].
  intros b d. rewrite Hcnt.
  assert (Hsplit : fixed_on b d entries
                   = fixed_on b d kept.*2 + fixed_on b d dropped.*2).
  { unfold fixed_on.
    rewrite (count_where_Permutation _ _ _ Hentries), count_where_app. lia. }
  rewrite Hsplit, (fixed_on_none b d dropped.*2) by now apply Forall_fmap.
  now rewrite Z.add_0_r.
Qed.
End DailyCap.

Lemma daily_cap_enforced_witness :
  deref (heap Samples.eight_lectures) (seq 0 8)
    = Ok (heap Samples.eight_lectures) /\
  exists adjusted kept cs,
    enforce_max_classes_per_day default_Config
      (Samples.optimizer_with Samples.room60) (seq 0 8) Samples.eight_lectures
      = (Ok adjusted, with_conflicts Samples.eight_lectures cs) /\
    deref (heap Samples.eight_lectures) adjusted = Ok kept /\
    length adjusted = 6%nat /\ length cs = 2%nat /\
    capped (max_classes_of default_Config
              (Samples.optimizer_with Samples.room60)) kept.
Proof.
  assert (Hd : deref (heap Samples.eight_lectures) (seq 0 8)
               = Ok (heap Samples.eight_lectures)) by reflexivity.
  split; [exact Hd|].
  destruct (daily_cap_enforced default_Config
              (Samples.optimizer_with Samples.room60) _ _ _ Hd)
    as (adjusted & kept & dropped & cs & Hrun & Hk & _ & _ & Hcap & _).
  exists adjusted, kept, cs.
  split; [exact Hrun|]. split; [exact Hk|].
  vm_compute in Hrun. injection Hrun as <- <-.
  repeat split; [exact Hcap].
Defined.

(** ** No fixed entry is lost *)

Lemma keeps_run {A} (m : M A) w :
  keeps m -> fixed_stable (heap w) (heap (m w).2).
Proof.
  intros Hk. specialize (Hk (heap w) w (fixed_stable_refl _)).
  destruct (m w) as [[a|e] w']; exact Hk.
Qed.

Lemma all_fixed_stable h h' ind :
  fixed_stable h h' -> all_fixed h ind -> all_fixed h' ind.
Proof.
  intros Hs Ha. eapply Forall_impl; [exact Ha|].
  intros l (e & He & Hf). exists e. auto.
Qed.

Lemma good_stable n h h' ind : fixed_stable h h' -> good n h ind -> good n h' ind.
Proof. intros Hs [Hl Ha]. split; [exact Hl|]. eapply all_fixed_stable; eauto. Qed.

Lemma all_fixed_deref h ind :
  all_fixed h ind ->
  exists es, deref h ind = Ok es /\ length es = length ind /\
             Forall (fun e => get_is_fixed e = true) es.
Proof.
  induction 1 as [|l ind (e & He & Hf) _ (es & Hes & Hlen & Hall)].
  - exists []. repeat split. constructor.
  - exists (e :: es). split; [apply deref_cons; eauto|].
    split; [cbn; now f_equal|now constructor].
Qed.

Lemma count_where_all {A} (p : A -> bool) (l : list A) :
  Forall (fun x => p x = true) l -> count_where p l = length l.
Proof.
  unfold count_where. induction 1 as [|x l Hx _ IH]; cbn; [reflexivity|].
  rewrite Hx. cbn. now f_equal.
Qed.

Lemma schedule_special_classes_spec specials : forall schedule w,
  all_fixed (heap w) schedule ->
  exists schedule' w',
    schedule_special_classes specials schedule w = (Ok schedule', w') /\
    length schedule' = (length schedule + length specials)%nat /\
    all_fixed (heap w') schedule'.
Proof.
  induction specials as [|s specials IH]; intros schedule w Ha.
  - exists schedule, w. cbn. repeat split; [lia|exact Ha].
  - cbn [schedule_special_classes get_suitable_venue].
    unfold mbind at 1. unfold M_bind at 1. cbn [alloc].
    set (e := special_entry s _).
    set (w1 := {| heap := heap w ++ [e]; rng := rng w; drawn := drawn w;
                  conflicts := conflicts w |}).
    destruct (IH (schedule ++ [length (heap w)]) w1)
      as (schedule' & w' & Hrun & Hlen & Ha').
    { apply Forall_app. split.
      - eapply all_fixed_stable; [|exact Ha]. apply fixed_stable_app.
      - constructor; [|constructor]. exists e. split; [|reflexivity].
        cbn. rewrite lookup_app_r by lia. now rewrite Nat.sub_diag. }
    exists schedule', w'. split; [exact Hrun|]. split; [|exact Ha'].
    rewrite Hlen, length_app. cbn. lia.
Qed.

Section FixedCount.
Variable cfg : Config.
Variable self : optimizer.

Lemma enforce_all_fixed schedule w :
  all_fixed (heap w) schedule ->
  exists adjusted cs,
    enforce_max_classes_per_day cfg self schedule w
      = (Ok adjusted, with_conflicts w cs) /\
    Permutation adjusted schedule.
Proof.
  intros Ha. destruct (all_fixed_deref _ _ Ha) as (es & Hd & Hlen & Hall).
  destruct (enforce_pairs cfg self schedule w es Hd)
    as (kept & dropped & cs & Hrun & Hp & _ & Hdrop & _).
  assert (Hpairs : Forall (fun p : loc * ScheduleEntry => get_is_fixed p.2 = true)
                     (zip schedule es)).
  { assert (H : Forall (fun e => get_is_fixed e = true) (zip schedule es).*2)
      by (rewrite snd_zip by lia; exact Hall).
    apply Forall_fmap in H. exact H. }
  assert (dropped = []) as ->.
  { rewrite Hp in Hpairs. apply Forall_app in Hpairs as [_ Hd'].
    destruct dropped as [|p dropped]; [reflexivity|].
    apply Forall_cons in Hdrop as [H1 _]. apply Forall_cons in Hd' as [H2 _].
    congruence. }
  rewrite app_nil_r in Hp.
  exists kept.*1, cs. split; [exact Hrun|].
  rewrite <- Hp. rewrite fst_zip by lia. reflexivity.
Qed.

Lemma create_comprehensive_schedule_spec w :
  exists individual w',
    create_comprehensive_schedule cfg self w = (Ok individual, w') /\
    good (length (special_classes self)) (heap w') individual.
Proof.
  unfold create_comprehensive_schedule.
  destruct (schedule_special_classes_spec (special_classes self) [] w)
    as (s1 & w1 & Hrun & Hlen & Ha); [constructor|].
  unfold mbind at 1. unfold M_bind at 1. rewrite Hrun.
  unfold schedule_lab_sessions, schedule_electives_advanced,
    schedule_theory_classes.
  rewrite !bind_ret. rewrite !app_nil_r.
  destruct (enforce_all_fixed s1 w1 Ha) as (adjusted & cs & Hrun' & Hp).
  exists adjusted, (with_conflicts w1 cs). split; [exact Hrun'|].
  split.
  - rewrite (Permutation_length Hp), Hlen. reflexivity.
  - unfold all_fixed. rewrite Hp. exact Ha.
Qed.

Lemma initial_population_spec n : forall w,
  exists pop w',
    initial_population cfg self n w = (Ok pop, w') /\
    length pop = n /\
    Forall (good (length (special_classes self)) (heap w')) pop.
Proof.
  induction n as [|n IH]; intros w.
  - exists [], w. repeat split. constructor.
  - cbn [initial_population].
    destruct (create_comprehensive_schedule_spec w) as (ind & w1 & Hrun & Hg).
    unfold mbind at 1. unfold M_bind at 1. rewrite Hrun.
    destruct (IH w1) as (pop & w' & Hrun' & Hlen & Hall).
    unfold mbind at 1. unfold M_bind at 1. rewrite Hrun'.
    exists (ind :: pop), w'. split; [reflexivity|]. split; [cbn; now f_equal|].
    constructor; [|exact Hall].
    eapply good_stable; [|exact Hg].
    pose proof (keeps_run (initial_population cfg self n) w1
                  (keeps_initial_population cfg self n)) as Hs.
    now rewrite Hrun' in Hs.
Qed.

Lemma randbelow_lt n w i w' :
  (0 < n)%nat -> randbelow n w = (Ok i, w') -> (i < n)%nat.
Proof.
  intros Hn H. unfold randbelow, draw, mbind, M_bind, mret, M_ret in H.
  injection H as <- _.
  pose proof (N.mod_lt (rng w (drawn w)) (N.of_nat n)). lia.
Qed.

Lemma random_randint_range a b w p w' :
  random_randint a b w = (Ok p, w') -> a <= p <= b.
Proof.
  unfold random_randint. destruct (a <=? b) eqn:E; [|discriminate].
  apply Z.leb_le in E. intros H.
  apply bind_ok in H as (i & w1 & Hi & H). apply ret_ok in H as [<- _].
  apply randbelow_lt in Hi; lia.
Qed.

Lemma omapM_lookup_members {A} (l : list A) (idxs : list nat) (xs : list A) :
  omapM (fun i => of_option IndexError (l !! i)) idxs = Ok xs ->
  Forall (fun x => x ∈ l) xs.
Proof.
  revert xs. induction idxs as [|i idxs IH]; intros xs H; cbn [omapM] in H.
  - injection H as <-. constructor.
  - apply obind_ok in H as (x & Hx & H).
    apply obind_ok in H as (xs' & Hxs & H). injection H as <-.
    constructor; [|now apply IH].
    destruct (l !! i) eqn:E; [|discriminate]. injection Hx as ->.
    eapply list_elem_of_lookup_2; eauto.
Qed.

Lemma tournament_selection_member population fitness_scores size w p w' :
  tournament_selection population fitness_scores size w = (Ok p, w') ->
  p ∈ population.
Proof.
  unfold tournament_selection. intros H.
  apply bind_ok in H as (idx & w1 & _ & H).
  apply bind_ok in H as (fs & w2 & _ & H).
  apply bind_ok in H as (k & w3 & _ & H).
  apply bind_ok in H as (win & w4 & _ & H).
  apply lift_ok in H as [H _].
  destruct (population !! win) eqn:E; [|discriminate]. injection H as ->.
  eapply list_elem_of_lookup_2; eauto.
Qed.

Lemma swap_tails_good n h c p1 p2 :
  (c <= n)%nat -> good n h p1 -> good n h p2 ->
  good n h (take c p1 ++ drop c p2).
Proof.
  intros Hc [Hl1 Ha1] [Hl2 Ha2]. split.
  - rewrite length_app, length_take, length_drop. lia.
  - apply Forall_app. split; [now apply Forall_take|now apply Forall_drop].
Qed.

Lemma enhanced_crossover_good n h p1 p2 w o1 o2 w' :
  good n h p1 -> good n h p2 ->
  enhanced_crossover self p1 p2 w = (Ok (o1, o2), w') ->
  good n h o1 /\ good n h o2.
Proof.
  intros H1 H2 H. unfold enhanced_crossover in H.
  apply bind_ok in H as (r & w1 & _ & H).
  destruct (_ || _ || _).
  - apply ret_ok in H as [H _]. injection H as <- <-. auto.
  - apply bind_ok in H as (p & w2 & Hp & H).
    apply ret_ok in H as [H _]. injection H as <- <-.
    apply random_randint_range in Hp.
    destruct H1 as [Hl1 Ha1], H2 as [Hl2 Ha2].
    split; apply swap_tails_good; try (split; assumption); lia.
Qed.

Lemma breed_good n h population fitness_scores fuel :
  Forall (good n h) population ->
  forall new_population w result w',
  Forall (good n h) new_population ->
  breed self fuel population fitness_scores new_population w = (Ok result, w') ->
  Forall (good n h) result /\ (population_size self <= length result)%nat.
Proof.
  intros Hpop. induction fuel as [|fuel IH]; intros new_population w result w' Hnew H;
    cbn [breed] in H;
    destruct (length new_population <? population_size self)%nat eqn:E;
    try discriminate.
  - apply ret_ok in H as [<- _]. apply Nat.ltb_ge in E. auto.
  - apply bind_ok in H as (p1 & w1 & Hp1 & H).
    apply bind_ok in H as (p2 & w2 & Hp2 & H).
    apply bind_ok in H as ([o1 o2] & w3 & Hx & H).
    apply bind_ok in H as (o1' & w4 & Hm1 & H).
    apply bind_ok in H as (o2' & w5 & Hm2 & H).
    apply comprehensive_mutation_same_list in Hm1 as ->.
    apply comprehensive_mutation_same_list in Hm2 as ->.
    apply tournament_selection_member in Hp1, Hp2.
    rewrite Forall_forall in Hpop.
    destruct (enhanced_crossover_good n h p1 p2 w2 o1 o2 w3) as [Ho1 Ho2]; auto.
    eapply IH; [|exact H].
    apply Forall_app. split; [exact Hnew|].
    constructor; [exact Ho1|]. constructor; [exact Ho2|constructor].
  - apply ret_ok in H as [<- _]. apply Nat.ltb_ge in E. auto.
Qed.

Lemma generation_all_good n h st w st' stop w' :
  all_good self n h st ->
  generation cfg self st w = (Ok (st', stop), w') ->
  all_good self n h st'.
Proof.
  intros (Hlen & Hpop & Hbest) H. unfold generation in H.
  apply bind_ok in H as (scores & w1 & Hscores & H).
  apply bind_ok in H as (idx & w2 & Hidx & H).
  apply bind_ok in H as (tracked & w3 & Htracked & H).
  assert (Ht : forall best, tracked.1 = Some best -> good n h best).
  { destruct (Qlt_bool _ _).
    - apply bind_ok in Htracked as (best & w4 & Hb & Htracked).
      apply ret_ok in Htracked as [<- _]. apply lift_ok in Hb as [Hb _].
      cbn. intros b Eb. injection Eb as <-.
      destruct (population st !! idx) eqn:E; [|discriminate].
      injection Hb as ->. rewrite Forall_forall in Hpop. apply Hpop.
      eapply list_elem_of_lookup_2; eauto.
    - apply ret_ok in Htracked as [<- _]. exact Hbest. }
  destruct (Qle_bool 900 _).
  - apply ret_ok in H as [H _]. injection H as <- _.
    split; [exact Hlen|]. split; [exact Hpop|exact Ht].
  - apply bind_ok in H as (elites & w4 & He & H).
    apply bind_ok in H as (np & w5 & Hnp & H).
    apply ret_ok in H as [H _]. injection H as <- _.
    apply lift_ok in He as [He _]. apply omapM_lookup_members in He.
    assert (Helites : Forall (good n h) elites).
    { eapply Forall_impl; [exact He|]. intros x Hx.
      rewrite Forall_forall in Hpop. now apply Hpop. }
    destruct (breed_good n h _ _ _ Hpop _ _ _ _ Helites Hnp) as [Hg Hsz].
    split; [cbn; rewrite length_take; lia|].
    split; [cbn; now apply Forall_take|exact Ht].
Qed.

Lemma generations_from_all_good n h k : forall st w st' w',
  all_good self n h st ->
  generations_from cfg self k st w = (Ok st', w') ->
  all_good self n h st'.
Proof.
  induction k as [|k IH]; intros st w st' w' Hg H.
  - apply ret_ok in H as [<- _]. exact Hg.
  - rewrite generations_from_S in H.
    apply bind_ok in H as ([st1 stop] & w1 & Hgen & H).
    apply (generation_all_good n h) in Hgen; [|exact Hg].
    destruct stop; [apply ret_ok in H as [<- _]; exact Hgen|].
    eapply IH; eauto.
Qed.

Lemma optimize_good w best fit w' :
  (0 < population_size self)%nat ->
  optimize_with_comprehensive_constraints cfg self w = (Ok (best, fit), w') ->
  good (length (special_classes self)) (heap w') best.
Proof.
  intros Hsize H. unfold optimize_with_comprehensive_constraints in H.
  destruct (initial_population_spec (population_size self) w)
    as (pop & w1 & Hinit & Hlen & Hpop).
  apply bind_ok in H as (pop' & w1' & Hinit' & H).
  rewrite Hinit in Hinit'. injection Hinit' as <- <-.
  apply bind_ok in H as (st & w2 & Hloop & H).
  set (n := length (special_classes self)) in *.
  assert (Hg : all_good self n (heap w1) st).
  { eapply generations_from_all_good; [|exact Hloop].
    split; [exact Hlen|]. split; [exact Hpop|]. cbn. discriminate. }
  assert (Hs12 : fixed_stable (heap w1) (heap w2)).
  { match type of Hloop with ?m w1 = _ =>
      pose proof (keeps_run m w1 (keeps_generations_from cfg self _ _)) as Hs
    end.
    now rewrite Hloop in Hs. }
  destruct Hg as (Hlen' & Hpop' & Hbest).
  destruct (best_individual st) as [b|] eqn:Eb.
  - apply ret_ok in H as [H <-]. injection H as <- _.
    eapply good_stable; [exact Hs12|]. now apply Hbest.
  - apply bind_ok in H as (f & w3 & Hev & H).
    apply ret_ok in H as [H <-]. injection H as <- _.
    assert (heap w3 = heap w2) as ->.
    { pose proof (heap_const_evaluate cfg self
                    (default [] (head (population st))) w2) as Hc.
      now rewrite Hev in Hc. }
    eapply good_stable; [exact Hs12|].
    destruct (population st) as [|x l]; [cbn in Hlen'; lia|].
    cbn. now apply Forall_cons in Hpop' as [Hx _].
Qed.

(** C2: No silent loss of fixed classes.  With a population of at least
    one candidate, the best schedule returned by a run of
    [optimize_with_comprehensive_constraints] denotes, in the store the
    run ends in, as many entries as the snapshot has special classes, and
    all of them are fixed: the count of entries with [is_fixed] true equals
    the count of [SpecialClass] records. *)
Theorem fixed_classes_all_present (w : world) (best : list loc) (fitness : Q)
    (w' : world) :
  (0 < population_size self)%nat ->
  optimize_with_comprehensive_constraints cfg self w = (Ok (best, fitness), w') ->
  exists entries,
    deref (heap w') best = Ok entries /\
    count_where get_is_fixed entries = length (special_classes self) /\
    length entries = length (special_classes self).
Proof.
  intros Hsize H. destruct (optimize_good _ _ _ _ Hsize H) as [Hlen Ha].
  destruct (all_fixed_deref _ _ Ha) as (es & Hd & Hl & Hall).
  exists es. split; [exact Hd|].
  rewrite (count_where_all _ _ Hall). lia.
Qed.
End FixedCount.

(** Fourteen fixed exams: the score stays under the early-stop threshold,
    so all generations run, with crossover at every reproduction. *)
Lemma fixed_classes_all_present_witness :
  (0 < population_size (new_optimizer Samples.small_Config Samples.exam_week 1))%nat /\
  exists best fitness w' entries,
    optimize_with_comprehensive_constraints Samples.small_Config
      (new_optimizer Samples.small_Config Samples.exam_week 1)
      (initial_world Samples.oracle_zero) = (Ok (best, fitness), w') /\
    (32 <= drawn w')%nat /\
    deref (heap w') best = Ok entries /\
    count_where get_is_fixed entries = 14%nat.
Proof.
  split; [cbn; lia|].
  destruct (optimize_with_comprehensive_constraints Samples.small_Config
      (new_optimizer Samples.small_Config Samples.exam_week 1)
      (initial_world Samples.oracle_zero)) as [[[best fitness]|e] w'] eqn:H;
    [|vm_compute in H; discriminate].
  destruct (fixed_classes_all_present Samples.small_Config
              (new_optimizer Samples.small_Config Samples.exam_week 1)
              _ _ _ _ ltac:(cbn; lia) H) as (entries & Hd & Hc & _).
  exists best, fitness, w', entries.
  split; [reflexivity|]. split; [|split; [exact Hd|exact Hc]].
  vm_compute in H. injection H as _ _ <-. cbn. lia.
Defined.

(** ** A semester without subjects *)

Lemma no_subjects_no_special_classes cfg db sid :
  subjects (new_optimizer cfg db sid) = [] ->
  special_classes (new_optimizer cfg db sid) = [].
Proof.
  cbn [subjects special_classes new_optimizer]. intros Hs.
  induction (db_special_classes db) as [|r rows IH]; [reflexivity|].
  cbn [omap list_omap]. rewrite IH. unfold load_special_class.
  destruct (List.find _ (db_subjects db)) as [s|] eqn:Hf; [|reflexivity].
  destruct (bool_decide (subject_semester_id s = sid)) eqn:Hsem; [|reflexivity].
  apply List.find_some in Hf as [Hin _].
  assert (Hin' : In s (List.filter
            (fun s => bool_decide (subject_semester_id s = sid)) (db_subjects db))).
  { apply List.filter_In. auto. }
  rewrite Hs in Hin'. destruct Hin'.
Qed.

Section EmptySemester.
Variable cfg : Config.
Variable self : optimizer.
Hypothesis Hweights : weights self = OPTIMIZATION_WEIGHTS default_Config.
Hypothesis Hspecial : special_classes self = [].

Lemma fitness_empty : calculate_comprehensive_fitness cfg self [] = Ok 1000%Q.
Proof.
  unfold calculate_comprehensive_fitness, weight. rewrite Hweights.
  vm_compute. reflexivity.
Qed.

Lemma evaluate_empty w : evaluate cfg self [] w = (Ok 1000%Q, w).
Proof.
  unfold evaluate, read_schedule, mbind, M_bind, lift. cbn [deref omapM].
  now rewrite fitness_empty.
Qed.

Lemma create_empty w : create_comprehensive_schedule cfg self w = (Ok [], w).
Proof. unfold create_comprehensive_schedule. rewrite Hspecial. reflexivity. Qed.

Lemma initial_population_empty n w :
  initial_population cfg self n w = (Ok (replicate n []), w).
Proof.
  induction n as [|n IH]; [reflexivity|].
  cbn [initial_population]. unfold mbind at 1. unfold M_bind at 1.
  rewrite create_empty. unfold mbind at 1. unfold M_bind at 1. now rewrite IH.
Qed.

Lemma evaluate_all_empty n w :
  mapM (evaluate cfg self) (replicate n []) w = (Ok (replicate n 1000%Q), w).
Proof.
  induction n as [|n IH]; [reflexivity|].
  cbn [replicate mapM]. unfold mbind at 1. unfold M_bind at 1.
  rewrite evaluate_empty. unfold mbind at 1. unfold M_bind at 1. now rewrite IH.
Qed.

Lemma py_max_constant n :
  foldl (fun m y => if Qlt_bool m y then y else m) 1000%Q (replicate n 1000%Q)
  = 1000%Q.
Proof. induction n as [|n IH]; [reflexivity|exact IH]. Qed.

Lemma argmax_constant n : forall i,
  argmax_from (replicate n 1000%Q) i 0 1000%Q = 0%nat.
Proof. induction n as [|n IH]; intros i; [reflexivity|apply IH]. Qed.

Lemma bind_run {A B} (m : M A) (f : A -> M B) w a w1 :
  m w = (Ok a, w1) -> (m ≫= f) w = f a w1.
Proof. intros H. unfold mbind, M_bind. now rewrite H. Qed.

(** With no candidate the loop never finds a best one. *)
Lemma generations_from_no_candidate w :
  population_size self = 0%nat ->
  forall k history, exists history',
    generations_from cfg self k
      {| population := []; best_fitness_history := history;
         best_individual := None; best_fitness := 0 |} w
    = (Ok {| population := []; best_fitness_history := history';
             best_individual := None; best_fitness := 0 |}, w).
Proof.
  intros Hsize. induction k as [|k IH]; intros history; [eexists; reflexivity|].
  destruct (IH (history ++ [0%Q])) as (history' & Hk).
  exists history'. rewrite <- Hk.
  rewrite generations_from_S. unfold generation, breed.
  rewrite Hsize. cbn. rewrite Hsize. reflexivity.
Qed.

(** With candidates, all empty, the first generation stops the loop. *)
Lemma generation_empty m history w :
  generation cfg self
    {| population := replicate (S m) []; best_fitness_history := history;
       best_individual := None; best_fitness := 0 |} w
  = (Ok ({| population := replicate (S m) [];
            best_fitness_history := history ++ [1000%Q];
            best_individual := Some []; best_fitness := 1000 |}, true), w).
Proof.
  unfold generation. cbn [population].
  erewrite bind_run by apply evaluate_all_empty.
  cbn [replicate py_max np_argmax default from_option id].
  rewrite py_max_constant, argmax_constant.
  reflexivity.
Qed.

Lemma optimize_empty w :
  optimize_with_comprehensive_constraints cfg self w = (Ok ([], 1000%Q), w).
Proof.
  unfold optimize_with_comprehensive_constraints.
  erewrite bind_run by apply initial_population_empty.
  destruct (population_size self) as [|m] eqn:Hsize.
  - destruct (generations_from_no_candidate w Hsize (generations self) [])
      as (history' & Hk).
    cbn [replicate]. erewrite bind_run by exact Hk.
    cbn [best_individual population head default from_option id].
    erewrite bind_run by apply evaluate_empty. reflexivity.
  - destruct (generations self) as [|g].
    + cbn [generations_from]. rewrite bind_ret.
      cbn [best_individual population replicate head default from_option id].
      erewrite bind_run by apply evaluate_empty. reflexivity.
    + rewrite generations_from_S.
      erewrite bind_run; [|erewrite bind_run by apply generation_empty; reflexivity].
      reflexivity.
Qed.

Lemma metrics_empty w :
  exists metrics,
    calculate_solution_metrics self [] w = (Ok metrics, w) /\
    total_conflicts metrics = length (conflicts w).
Proof.
  unfold calculate_solution_metrics, read_schedule, get_conflicts, lift,
    mbind, M_bind, mret, M_ret.
  cbn [deref omapM collect_hours]. eexists. split; reflexivity.
Qed.
End EmptySemester.

Lemma solution_runs_empty (cfg : Config) (self : optimizer) :
  weights self = OPTIMIZATION_WEIGHTS default_Config ->
  special_classes self = [] ->
  forall remaining i solutions w,
  conflicts w = [] ->
  Forall empty_solution solutions ->
  exists result w',
    solution_runs cfg self i remaining solutions w = (Ok result, w') /\
    length result = (length solutions + remaining)%nat /\
    Forall empty_solution result /\
    heap w' = heap w /\ drawn w' = drawn w /\ conflicts w' = [].
Proof.
  intros Hw Hs. induction remaining as [|remaining IH];
    intros i solutions w Hc Hall.
  - exists solutions, w. cbn. repeat split; auto.
  - cbn [solution_runs]. cbn zeta.
    set (varied := with_search_parameters self _ _).
    erewrite bind_run by (apply (optimize_empty cfg varied); assumption).
    destruct (metrics_empty varied w) as (metrics & Hm & Htotal).
    erewrite bind_run by exact Hm.
    erewrite bind_run by reflexivity.
    erewrite bind_run by reflexivity.
    rewrite Hc in *.
    match goal with |- context [solution_runs _ _ _ _ ?sols ?w1] =>
      destruct (IH (S i) sols w1) as (result & w' & Hrun & Hlen & Hres & Hh & Hd & Hc')
    end.
    { reflexivity. }
    { apply Forall_app. split; [exact Hall|].
      constructor; [|constructor]. repeat split; auto. }
    exists result, w'. split; [exact Hrun|].
    split; [rewrite Hlen, length_app; cbn; lia|]. auto.
Qed.

(** C9, as the code has it: an empty semester is searched like any other.
    When the semester has no subject, the snapshot has no special class;
    the driver runs every requested search without drawing a random number
    or touching the store, and returns that many solutions, each with an
    empty schedule, the fitness 1000 of the empty schedule and no conflict;
    no notice reaches the caller. *)
Theorem empty_semester_is_searched (cfg : Config) (db : Database) (sid : Z)
    (num_solutions : nat) (w : world) :
  OPTIMIZATION_WEIGHTS cfg = OPTIMIZATION_WEIGHTS default_Config ->
  subjects (new_optimizer cfg db sid) = [] ->
  conflicts w = [] ->
  exists solutions w',
    generate_multiple_optimized_solutions cfg (new_optimizer cfg db sid)
      num_solutions w = (Ok solutions, w') /\
    length solutions = num_solutions /\
    Forall empty_solution solutions /\
    reports_notice solutions w' = false /\
    heap w' = heap w /\ drawn w' = drawn w.
Proof.
  intros Hw Hsub Hc.
  pose proof (no_subjects_no_special_classes cfg db sid Hsub) as Hsp.
  destruct (solution_runs_empty cfg (new_optimizer cfg db sid) Hw Hsp
              num_solutions 0%nat [] w Hc (List.Forall_nil _))
    as (runs & w' & Hrun & Hlen & Hall & Hh & Hd & Hc').
  exists (stable_sort fitness_ge runs), w'.
  unfold generate_multiple_optimized_solutions.
  erewrite bind_run by exact Hrun.
  pose proof (stable_sort_Permutation fitness_ge runs) as Hp.
  assert (Hsorted : Forall empty_solution (stable_sort fitness_ge runs))
    by now rewrite Hp.
  split; [reflexivity|]. split; [now rewrite (Permutation_length Hp)|].
  split; [exact Hsorted|]. split; [|auto].
  unfold reports_notice. rewrite Hc'. cbn [nonempty orb].
  clear Hp. induction Hsorted as [|s l (_ & _ & Hsc & Htc) _ IH];
    [reflexivity|].
  cbn [existsb]. rewrite Hsc, Htc. exact IH.
Qed.

Lemma empty_semester_is_searched_witness :
  OPTIMIZATION_WEIGHTS default_Config = OPTIMIZATION_WEIGHTS default_Config /\
  subjects (new_optimizer default_Config Samples.exam_week 2) = [] /\
  conflicts (initial_world Samples.oracle_zero) = [] /\
  exists solutions w',
    generate_multiple_optimized_solutions default_Config
      (new_optimizer default_Config Samples.exam_week 2) 3
      (initial_world Samples.oracle_zero) = (Ok solutions, w') /\
    length solutions = 3%nat /\
    Forall empty_solution solutions.
Proof.
  split; [reflexivity|]. split; [reflexivity|]. split; [reflexivity|].
  destruct (empty_semester_is_searched default_Config Samples.exam_week 2 3
              (initial_world Samples.oracle_zero) eq_refl eq_refl eq_refl)
    as (solutions & w' & Hrun & Hlen & Hall & _).
  exists solutions, w'. auto.
Defined.

(** C9, as the specification states it, fails on the code: semester 2 of
    the sample database has no subject, the driver is asked for three
    alternatives, and it is not the case that it returns with a notice in
    any of its channels. *)
Lemma empty_semester_no_notice :
  subjects (new_optimizer default_Config Samples.exam_week 2) = [] /\
  ~ exists solutions w',
      generate_multiple_optimized_solutions default_Config
        (new_optimizer default_Config Samples.exam_week 2) 3
        (initial_world Samples.oracle_zero) = (Ok solutions, w') /\
      reports_notice solutions w' = true.
Proof.
  split; [reflexivity|].
  intros (solutions & w' & Hrun & Hnotice).
  vm_compute in Hrun. injection Hrun as <- <-.
  vm_compute in Hnotice. discriminate.
Qed.

(** ** The placeholder checks *)

(** C4, the code at the failing input: a batch of 70 students sits in a
    room of capacity 60; the capacity check counts no violation and the
    fitness is the one obtained when the room has capacity 80. *)
Theorem capacity_overrun_not_detected :
  let schedule := [Samples.lecture 1 3 7 false "09:00" "10:00"] in
  student_count (Samples.batch_of 3 70 6) = 70 /\
  classroom_capacity Samples.room60 = 60 /\
  check_capacity_violations schedule = 0 /\
  calculate_comprehensive_fitness default_Config
    (Samples.optimizer_with Samples.room60) schedule = Ok 2050%Q /\
  calculate_comprehensive_fitness default_Config
    (Samples.optimizer_with Samples.room80) schedule = Ok 2050%Q.
Proof. cbv zeta. repeat split; vm_compute; reflexivity. Qed.

(** C5, the code at the failing input: two classes in room 1 on Monday
    from 09:00 to 10:00; the room check counts no conflict and the fitness
    is the one obtained when the second class is held an hour later. *)
Theorem double_booking_not_detected :
  let clash := [Samples.lecture 1 3 7 false "09:00" "10:00";
                Samples.lecture 2 4 8 false "09:00" "10:00"] in
  let apart := [Samples.lecture 1 3 7 false "09:00" "10:00";
                Samples.lecture 2 4 8 false "10:00" "11:00"] in
  check_room_conflicts clash = 0 /\
  calculate_comprehensive_fitness default_Config
    (Samples.optimizer_with Samples.room60) clash = Ok 2050%Q /\
  calculate_comprehensive_fitness default_Config
    (Samples.optimizer_with Samples.room60) apart = Ok 2050%Q.
Proof. cbv zeta. repeat split; vm_compute; reflexivity. Qed.

(** ** The loops of the model have fuel enough *)

Lemma osafe_ok {A} (a : A) : osafe (Ok a).
Proof. discriminate. Qed.

Lemma osafe_bind {A B} (o : outcome A) (f : A -> outcome B) :
  osafe o -> (forall a, osafe (f a)) -> osafe (o ≫= f).
Proof.
  intros Ho Hf. destruct o as [a|e]; [apply Hf|].
  unfold osafe in *. cbn. intros H. apply Ho. congruence.
Qed.

Lemma osafe_of_option {A} (e : exn) (o : option A) :
  e <> OutOfFuel -> osafe (of_option e o).
Proof. intros He. destruct o; cbn; [discriminate|]. unfold osafe. congruence. Qed.

Lemma osafe_omapM {A B} (f : A -> outcome B) (l : list A) :
  (forall a, osafe (f a)) -> osafe (omapM f l).
Proof.
  intros Hf. induction l as [|x l IH]; cbn [omapM]; [apply osafe_ok|].
  apply osafe_bind; [apply Hf|]. intros y.
  apply osafe_bind; [exact IH|]. intros ys. apply osafe_ok.
Qed.

Lemma osafe_strptime_HM s : osafe (strptime_HM s).
Proof.
  unfold strptime_HM. destruct (parse_H s) as [[h rest]|]; [|discriminate].
  destruct (parse_M rest); discriminate.
Qed.

Lemma osafe_collect_hours schedule : forall acc, osafe (collect_hours schedule acc).
Proof.
  induction schedule as [|e rest IH]; intros acc; cbn [collect_hours];
    [apply osafe_ok|].
  apply osafe_bind; [apply osafe_strptime_HM|]. intros s.
  apply osafe_bind; [apply osafe_strptime_HM|]. intros t. apply IH.
Qed.

Lemma osafe_weight self key : osafe (weight self key).
Proof.
  unfold weight. apply osafe_bind; [now apply osafe_of_option|].
  intros w. apply osafe_ok.
Qed.

Lemma osafe_fitness cfg self schedule :
  osafe (calculate_comprehensive_fitness cfg self schedule).
Proof.
  unfold calculate_comprehensive_fitness.
  repeat (apply osafe_bind; [apply osafe_weight|]; intros ?).
  apply osafe_bind.
  { unfold calculate_faculty_load_balance_score.
    apply osafe_bind; [apply osafe_collect_hours|]. intros [? ?].
    apply osafe_ok. }
  intros b. apply osafe_bind; [apply osafe_weight|]. intros ?. apply osafe_ok.
Qed.

Lemma osafe_np_argmax l : osafe (np_argmax l).
Proof. destruct l; discriminate. Qed.

Lemma fuel_safe_ret {A} (a : A) : fuel_safe (mret a : M A).
Proof. intros w. apply osafe_ok. Qed.

Lemma fuel_safe_lift {A} (o : outcome A) : osafe o -> fuel_safe (lift o).
Proof. intros H w. exact H. Qed.

Lemma fuel_safe_bind {A B} (m : M A) (f : A -> M B) :
  fuel_safe m -> (forall a, fuel_safe (f a)) -> fuel_safe (m ≫= f).
Proof.
  intros Hm Hf w. specialize (Hm w). unfold mbind, M_bind.
  destruct (m w) as [[a|e] w1]; [apply Hf|].
  unfold osafe in *. cbn in *. intros H. apply Hm. congruence.
Qed.

Lemma fuel_safe_draw : fuel_safe draw.
Proof. intros w. apply osafe_ok. Qed.

Lemma fuel_safe_random_random : fuel_safe random_random.
Proof.
  apply fuel_safe_bind; [apply fuel_safe_draw|]. intros k. apply fuel_safe_ret.
Qed.

Lemma fuel_safe_randbelow n : fuel_safe (randbelow n).
Proof.
  apply fuel_safe_bind; [apply fuel_safe_draw|]. intros k. apply fuel_safe_ret.
Qed.

Lemma fuel_safe_random_choice {A} (l : list A) : fuel_safe (random_choice l).
Proof.
  destruct l as [|x l]; [apply fuel_safe_lift; discriminate|].
  apply fuel_safe_bind; [apply fuel_safe_randbelow|]. intros i.
  apply fuel_safe_lift. now apply osafe_of_option.
Qed.

Lemma fuel_safe_random_randint a b : fuel_safe (random_randint a b).
Proof.
  unfold random_randint. destruct (a <=? b);
    [|apply fuel_safe_lift; discriminate].
  apply fuel_safe_bind; [apply fuel_safe_randbelow|]. intros i.
  apply fuel_safe_ret.
Qed.

Lemma fuel_safe_sample_pool k : forall pool, fuel_safe (sample_pool pool k).
Proof.
  induction k as [|k IH]; intros pool; [apply fuel_safe_ret|].
  cbn [sample_pool].
  apply fuel_safe_bind; [apply fuel_safe_randbelow|]. intros j.
  apply fuel_safe_bind; [apply fuel_safe_lift; now apply osafe_of_option|].
  intros x.
  apply fuel_safe_bind; [apply fuel_safe_lift; now apply osafe_of_option|].
  intros y.
  apply fuel_safe_bind; [apply IH|]. intros rest. apply fuel_safe_ret.
Qed.

Lemma fuel_safe_tournament_selection population fitness_scores size :
  fuel_safe (tournament_selection population fitness_scores size).
Proof.
  unfold tournament_selection.
  apply fuel_safe_bind.
  { unfold random_sample_range. destruct (_ <=? _)%nat;
      [apply fuel_safe_sample_pool|apply fuel_safe_lift; discriminate]. }
  intros idx. apply fuel_safe_bind.
  { apply fuel_safe_lift, osafe_omapM. intros i. now apply osafe_of_option. }
  intros fs. apply fuel_safe_bind; [apply fuel_safe_lift, osafe_np_argmax|].
  intros k. apply fuel_safe_bind;
    [apply fuel_safe_lift; now apply osafe_of_option|].
  intros win. apply fuel_safe_lift. now apply osafe_of_option.
Qed.

Lemma fuel_safe_enhanced_crossover self parent1 parent2 :
  fuel_safe (enhanced_crossover self parent1 parent2).
Proof.
  unfold enhanced_crossover.
  apply fuel_safe_bind; [apply fuel_safe_random_random|]. intros r.
  destruct (_ || _ || _); [apply fuel_safe_ret|].
  apply fuel_safe_bind; [apply fuel_safe_random_randint|]. intros p.
  apply fuel_safe_ret.
Qed.

Lemma fuel_safe_read l : fuel_safe (read l).
Proof. intros w. cbn. now apply osafe_of_option. Qed.

Lemma fuel_safe_modify l f : fuel_safe (modify l f).
Proof. intros w. unfold modify. destruct (heap w !! l); discriminate. Qed.

Lemma fuel_safe_read_schedule ind : fuel_safe (read_schedule ind).
Proof.
  intros w. cbn. apply osafe_omapM. intros l. now apply osafe_of_option.
Qed.

Lemma fuel_safe_mutate_entry self l : fuel_safe (mutate_entry self l).
Proof.
  unfold mutate_entry.
  apply fuel_safe_bind; [apply fuel_safe_random_random|]. intros r.
  destruct (Qlt_bool r _); [|apply fuel_safe_ret].
  apply fuel_safe_bind; [apply fuel_safe_read|]. intros e.
  destruct (get_is_fixed e); [apply fuel_safe_ret|].
  apply fuel_safe_bind; [apply fuel_safe_random_choice|]. intros [| |].
  - apply fuel_safe_bind; [apply fuel_safe_random_choice|]. intros d.
    apply fuel_safe_modify.
  - apply fuel_safe_bind; [apply fuel_safe_random_choice|]. intros d.
    apply fuel_safe_modify.
  - apply fuel_safe_bind; [apply fuel_safe_read|]. intros e'.
    destruct (bool_decide _).
    + destruct (laboratories self) eqn:E; [apply fuel_safe_ret|].
      apply fuel_safe_bind; [apply fuel_safe_random_choice|]. intros d.
      apply fuel_safe_modify.
    + destruct (classrooms self) eqn:E; [apply fuel_safe_ret|].
      apply fuel_safe_bind; [apply fuel_safe_random_choice|]. intros d.
      apply fuel_safe_modify.
Qed.

Lemma fuel_safe_comprehensive_mutation self individual :
  fuel_safe (comprehensive_mutation self individual).
Proof.
  destruct individual as [|l ls]; [apply fuel_safe_ret|].
  unfold comprehensive_mutation.
  apply fuel_safe_bind; [|intros _; apply fuel_safe_ret].
  generalize (l :: ls). intros ls'.
  induction ls' as [|x ls' IH]; [apply fuel_safe_ret|].
  cbn [mutate_all]. apply fuel_safe_bind; [apply fuel_safe_mutate_entry|].
  intros _. exact IH.
Qed.

Lemma fuel_safe_mapM {A B} (f : A -> M B) (l : list A) :
  (forall a, fuel_safe (f a)) -> fuel_safe (mapM f l).
Proof.
  intros Hf. induction l as [|x l IH]; [apply fuel_safe_ret|].
  cbn [mapM]. apply fuel_safe_bind; [apply Hf|]. intros y.
  apply fuel_safe_bind; [apply IH|]. intros ys. apply fuel_safe_ret.
Qed.

Section Fuel.
Variable cfg : Config.
Variable self : optimizer.

Lemma fuel_safe_evaluate individual : fuel_safe (evaluate cfg self individual).
Proof.
  unfold evaluate.
  apply fuel_safe_bind; [apply fuel_safe_read_schedule|]. intros s.
  apply fuel_safe_lift, osafe_fitness.
Qed.

(** Each turn of the [while] loop adds two offspring: as many units of
    fuel as candidates are missing is enough. *)
Lemma fuel_safe_breed fuel : forall population fitness_scores new_population,
  (population_size self <= length new_population + fuel)%nat ->
  fuel_safe (breed self fuel population fitness_scores new_population).
Proof.
  induction fuel as [|fuel IH]; intros population fitness_scores new_population Hf;
    cbn [breed]; destruct (_ <? _)%nat eqn:E; try apply fuel_safe_ret.
  - apply Nat.ltb_lt in E. lia.
  - apply fuel_safe_bind; [apply fuel_safe_tournament_selection|]. intros p1.
    apply fuel_safe_bind; [apply fuel_safe_tournament_selection|]. intros p2.
    apply fuel_safe_bind; [apply fuel_safe_enhanced_crossover|]. intros [o1 o2].
    apply fuel_safe_bind; [apply fuel_safe_comprehensive_mutation|]. intros o1'.
    apply fuel_safe_bind; [apply fuel_safe_comprehensive_mutation|]. intros o2'.
    apply IH. rewrite length_app. cbn. lia.
Qed.

Lemma fuel_safe_generation st : fuel_safe (generation cfg self st).
Proof.
  unfold generation.
  apply fuel_safe_bind; [apply fuel_safe_mapM, fuel_safe_evaluate|].
  intros scores. apply fuel_safe_bind.
  { apply fuel_safe_lift. destruct scores; [apply osafe_ok|apply osafe_np_argmax]. }
  intros idx. apply fuel_safe_bind.
  { destruct (Qlt_bool _ _); [|apply fuel_safe_ret].
    apply fuel_safe_bind; [apply fuel_safe_lift; now apply osafe_of_option|].
    intros b. apply fuel_safe_ret. }
  intros tracked. destruct (Qle_bool 900 _); [apply fuel_safe_ret|].
  apply fuel_safe_bind.
  { apply fuel_safe_lift, osafe_omapM. intros i. now apply osafe_of_option. }
  intros elites. apply fuel_safe_bind; [apply fuel_safe_breed; lia|].
  intros np. apply fuel_safe_ret.
Qed.

Lemma fuel_safe_generations_from n : forall st,
  fuel_safe (generations_from cfg self n st).
Proof.
  induction n as [|n IH]; intros st; [apply fuel_safe_ret|].
  cbn [generations_from].
  apply fuel_safe_bind; [apply fuel_safe_generation|]. intros [st' stop].
  destruct stop; [apply fuel_safe_ret|apply IH].
Qed.

Lemma fuel_safe_append_conflict c : fuel_safe (append_conflict c).
Proof. intros w. apply osafe_ok. Qed.

Lemma fuel_safe_enforce_loop todo : forall adjusted counts,
  fuel_safe (enforce_loop cfg self todo adjusted counts).
Proof.
  induction todo as [|[l entry] todo IH]; intros adjusted counts;
    [apply fuel_safe_ret|].
  cbn [enforce_loop]. cbn zeta.
  destruct (_ <? _); [apply IH|].
  destruct (get_is_fixed entry).
  - apply fuel_safe_bind; [apply fuel_safe_append_conflict|]. intros _. apply IH.
  - apply fuel_safe_bind; [apply fuel_safe_ret|]. intros [l'|].
    + apply fuel_safe_bind; [apply fuel_safe_read|]. intros e'.
      destruct (_ !! day e'); [apply IH|apply fuel_safe_lift; discriminate].
    + apply fuel_safe_bind; [apply fuel_safe_append_conflict|]. intros _.
      apply IH.
Qed.

Lemma fuel_safe_create_comprehensive_schedule :
  fuel_safe (create_comprehensive_schedule cfg self).
Proof.
  unfold create_comprehensive_schedule.
  apply fuel_safe_bind.
  { generalize (@nil loc). induction (special_classes self) as [|s l IH];
      intros schedule; [apply fuel_safe_ret|].
    cbn [schedule_special_classes get_suitable_venue].
    apply fuel_safe_bind; [intros w; apply osafe_ok|]. intros x. apply IH. }
  intros s1. apply fuel_safe_bind; [apply fuel_safe_ret|]. intros s2.
  apply fuel_safe_bind; [apply fuel_safe_ret|]. intros s3.
  apply fuel_safe_bind; [apply fuel_safe_ret|]. intros s4.
  unfold enforce_max_classes_per_day.
  apply fuel_safe_bind; [apply fuel_safe_read_schedule|]. intros es.
  apply fuel_safe_enforce_loop.
Qed.

Lemma fuel_safe_optimize :
  fuel_safe (optimize_with_comprehensive_constraints cfg self).
Proof.
  unfold optimize_with_comprehensive_constraints.
  apply fuel_safe_bind.
  { induction (population_size self) as [|n IH]; [apply fuel_safe_ret|].
    cbn [initial_population].
    apply fuel_safe_bind; [apply fuel_safe_create_comprehensive_schedule|].
    intros i. apply fuel_safe_bind; [exact IH|]. intros r. apply fuel_safe_ret. }
  intros pop. apply fuel_safe_bind; [apply fuel_safe_generations_from|].
  intros st. destruct (best_individual st); [apply fuel_safe_ret|].
  apply fuel_safe_bind; [apply fuel_safe_evaluate|]. intros f.
  apply fuel_safe_ret.
Qed.
End Fuel.

(** The driver never ends for lack of fuel: a [Raise] of the model is an
    exception of the program (or a location outside the store). *)
Lemma fuel_safe_generate_multiple_optimized_solutions cfg self num_solutions :
  fuel_safe (generate_multiple_optimized_solutions cfg self num_solutions).
Proof.
  unfold generate_multiple_optimized_solutions.
  apply fuel_safe_bind; [|intros r; apply fuel_safe_ret].
  generalize (@nil Solution). generalize 0%nat.
  induction num_solutions as [|n IH]; intros i solutions;
    [apply fuel_safe_ret|].
  cbn [solution_runs]. cbn zeta.
  apply fuel_safe_bind; [apply fuel_safe_optimize|]. intros [s f].
  apply fuel_safe_bind.
  { unfold calculate_solution_metrics.
    apply fuel_safe_bind; [apply fuel_safe_read_schedule|]. intros es.
    apply fuel_safe_bind; [apply fuel_safe_lift, osafe_collect_hours|].
    intros [h1 h2]. apply fuel_safe_bind; [intros w; apply osafe_ok|].
    intros cs. apply fuel_safe_ret. }
  intros m. apply fuel_safe_bind; [intros w; apply osafe_ok|]. intros cs.
  apply fuel_safe_bind; [intros w; apply osafe_ok|]. intros _. apply IH.
Qed.

(** * More of the engine and its caller *)

(** ** The counter of daily-cap violations *)

Lemma classes_on_cons b d e es :
  classes_on b d (e :: es) = (if on_day b d e then 1 else 0) + classes_on b d es.
Proof.
  unfold classes_on, count_where. cbn. destruct (on_day b d e); cbn [length]; lia.
Qed.

Lemma classes_on_nonneg b d es : 0 <= classes_on b d es.
Proof. unfold classes_on. lia. Qed.

Lemma classes_on_pos b d es :
  0 < classes_on b d es <-> exists e, e ∈ es /\ batch_id e = b /\ day e = d.
Proof.
  induction es as [|x es IH].
  - split; [unfold classes_on, count_where; cbn; lia|].
    intros (e & He & _). inversion He.
  - rewrite classes_on_cons. destruct (on_day b d x) eqn:E.
    + split; [|pose proof (classes_on_nonneg b d es); lia].
      intros _. exists x. apply bool_decide_eq_true in E. split; [left|exact E].
    + rewrite Z.add_0_l, IH. split.
      * intros (e & He & H). exists e. split; [now right|exact H].
      * intros (e & He & Hb & Hd). apply elem_of_cons in He as [->|He].
        -- apply bool_decide_eq_false in E. now destruct E.
        -- eauto.
Qed.

Lemma daily_counts_snoc es e :
  daily_counts (es ++ [e]) = bump (batch_id e) (day e) (daily_counts es).
Proof. unfold daily_counts. now rewrite foldl_app. Qed.

Lemma count_of_daily_counts es b d :
  count_of (daily_counts es) b d = classes_on b d es.
Proof.
  induction es as [|e es IH] using rev_ind; [reflexivity|].
  rewrite daily_counts_snoc, count_of_bump, IH, classes_on_snoc.
  unfold on_day.
  destruct (bool_decide (b = batch_id e /\ d = day e)) eqn:E1;
  destruct (bool_decide (batch_id e = b /\ day e = d)) eqn:E2; try reflexivity.
  - apply bool_decide_eq_true in E1. apply bool_decide_eq_false in E2.
    destruct E1 as [-> ->]. now destruct E2.
  - apply bool_decide_eq_true in E2. apply bool_decide_eq_false in E1.
    destruct E2 as [<- <-]. now destruct E1.
Qed.

(** The keys of the nested dict are the batches and days that occur. *)
Lemma daily_counts_positive es : forall b daily d c,
  daily_counts es !! b = Some daily -> daily !! d = Some c -> 0 < c.
Proof.
  induction es as [|e es IH] using rev_ind; intros b daily d c Hb Hd.
  - unfold daily_counts in Hb. cbn in Hb. now rewrite lookup_empty in Hb.
  - rewrite daily_counts_snoc in Hb. unfold bump in Hb. cbn zeta in Hb.
    destruct (decide (batch_id e = b)) as [Eb|Eb].
    + subst b. rewrite lookup_insert_eq in Hb. injection Hb as <-.
      destruct (daily_counts es !! batch_id e) as [inner|] eqn:Hin; cbn in Hd.
      * destruct (decide (day e = d)) as [Ed|Ed].
        -- subst d. rewrite lookup_insert_eq in Hd. injection Hd as <-.
           destruct (inner !! day e) as [c0|] eqn:Hc0; cbn; [|lia].
           pose proof (IH _ _ _ _ Hin Hc0). lia.
        -- rewrite lookup_insert_ne in Hd by assumption. eapply IH; eauto.
      * destruct (decide (day e = d)) as [Ed|Ed].
        -- subst d. rewrite lookup_insert_eq in Hd. injection Hd as <-.
           rewrite lookup_empty. cbn. lia.
        -- rewrite lookup_insert_ne, lookup_empty in Hd by assumption.
           discriminate.
    + rewrite lookup_insert_ne in Hb by assumption. eapply IH; eauto.
Qed.

Lemma daily_counts_lookup es b daily d c :
  daily_counts es !! b = Some daily -> daily !! d = Some c ->
  c = classes_on b d es /\ 0 < c.
Proof.
  intros Hb Hd. split; [|eapply daily_counts_positive; eauto].
  rewrite <- count_of_daily_counts. unfold count_of.
  rewrite Hb. cbn. now rewrite Hd.
Qed.

Lemma bump_present_same b d m :
  exists daily c, bump b d m !! b = Some daily /\ daily !! d = Some c.
Proof.
  unfold bump. eexists _, _. split; apply lookup_insert_eq.
Qed.

Lemma bump_present_other b' d' m b d :
  (exists daily c, m !! b = Some daily /\ daily !! d = Some c) ->
  exists daily c, bump b' d' m !! b = Some daily /\ daily !! d = Some c.
Proof.
  intros (daily & c & Hb & Hd). unfold bump. cbn zeta.
  destruct (decide (b' = b)) as [->|Hne].
  - rewrite Hb. cbn. destruct (decide (d' = d)) as [->|Hne'].
    + eexists _, _. split; apply lookup_insert_eq.
    + eexists _, c. split; [apply lookup_insert_eq|].
      now rewrite lookup_insert_ne.
  - exists daily, c. split; [|exact Hd]. now rewrite lookup_insert_ne.
Qed.

Lemma daily_counts_present es e :
  e ∈ es ->
  exists daily c, daily_counts es !! batch_id e = Some daily /\
                  daily !! day e = Some c.
Proof.
  induction es as [|x es IH] using rev_ind; intros He; [inversion He|].
  rewrite daily_counts_snoc.
  apply elem_of_app in He as [He|He].
  - apply bump_present_other. auto.
  - apply list_elem_of_singleton in He as ->. apply bump_present_same.
Qed.

Section Violations.
Variable cap : Z -> Z.

Lemma inner_fold_spec b (daily : gmap string Z) v0 :
  let r := map_fold (excess_of_day cap b) v0 daily in
  v0 <= r /\ (r = v0 <-> forall d c, daily !! d = Some c -> c <= cap b).
Proof.
  cbv zeta.
  apply (map_fold_weak_ind (fun r (m : gmap string Z) =>
    v0 <= r /\ (r = v0 <-> forall d c, m !! d = Some c -> c <= cap b))).
  - split; [lia|]. split; [|reflexivity]. intros _ d c H.
    now rewrite lookup_empty in H.
  - intros d c m r Hnone [Hle Hiff]. unfold excess_of_day.
    destruct (cap b <? c) eqn:E.
    + apply Z.ltb_lt in E. split; [lia|]. split; [lia|].
      intros H. specialize (H d c (lookup_insert_eq _ _ _)). lia.
    + apply Z.ltb_ge in E. split; [exact Hle|]. rewrite Hiff. split.
      * intros H d' c' Hl. destruct (decide (d = d')) as [<-|Hne].
        -- rewrite lookup_insert_eq in Hl. injection Hl as <-. exact E.
        -- rewrite lookup_insert_ne in Hl by assumption. eauto.
      * intros H d' c' Hl. apply (H d' c').
        rewrite lookup_insert_ne; [exact Hl|]. intros <-. congruence.
Qed.

Lemma outer_fold_spec (m : gmap Z (gmap string Z)) :
  let r := map_fold (fun b daily v => map_fold (excess_of_day cap b) v daily) 0 m in
  0 <= r /\
  (r = 0 <-> forall b daily d c,
               m !! b = Some daily -> daily !! d = Some c -> c <= cap b).
Proof.
  cbv zeta.
  apply (map_fold_weak_ind (fun r (m : gmap Z (gmap string Z)) =>
    0 <= r /\
    (r = 0 <-> forall b daily d c,
                 m !! b = Some daily -> daily !! d = Some c -> c <= cap b))).
  - split; [lia|]. split; [|reflexivity]. intros _ b daily d c H.
    now rewrite lookup_empty in H.
  - intros b daily m' r Hnone [Hle Hiff].
    destruct (inner_fold_spec b daily r) as [Hle' Hiff'].
    split; [lia|]. split.
    + intros H0. assert (r = 0) by lia. subst r.
      intros b' daily' d c Hb Hd.
      destruct (decide (b = b')) as [<-|Hne].
      * rewrite lookup_insert_eq in Hb. injection Hb as <-.
        eapply (proj1 Hiff'); eauto.
      * rewrite lookup_insert_ne in Hb by assumption.
        eapply (proj1 Hiff); eauto.
    + intros H.
      assert (r = 0) as ->.
      { apply Hiff. intros b' daily' d c Hb Hd. apply (H b' daily' d c); [|exact Hd].
        rewrite lookup_insert_ne; [exact Hb|]. intros <-. congruence. }
      apply Hiff'. intros d c Hd.
      apply (H b daily d c); [apply lookup_insert_eq|exact Hd].
Qed.
End Violations.

Lemma violations_spec (cfg : Config) (self : optimizer)
    (schedule : list ScheduleEntry) :
  0 <= check_max_classes_per_day_violations cfg self schedule /\
  (check_max_classes_per_day_violations cfg self schedule = 0 <->
   forall e, e ∈ schedule ->
     classes_on (batch_id e) (day e) schedule
     <= max_classes_of cfg self (batch_id e)).
Proof.
  unfold check_max_classes_per_day_violations.
  fold (daily_counts schedule).
  destruct (outer_fold_spec (max_classes_of cfg self) (daily_counts schedule))
    as [Hle Hiff].
  split; [exact Hle|]. unfold excess_of_day in Hiff. rewrite Hiff. split.
  - intros H e He.
    destruct (daily_counts_present _ _ He) as (daily & c & Hb & Hd).
    destruct (daily_counts_lookup _ _ _ _ _ Hb Hd) as [<- _]. eauto.
  - intros H b daily d c Hb Hd.
    destruct (daily_counts_lookup _ _ _ _ _ Hb Hd) as [-> Hpos].
    apply classes_on_pos in Hpos as (e & He & <- & <-). now apply H.
Qed.

(** X1: The counter of cap violations is never negative, and it is zero
    exactly when no batch has, on any day it is taught, more classes than
    its cap. *)
Theorem violations_zero_iff_capped (cfg : Config) (self : optimizer)
    (schedule : list ScheduleEntry) :
  0 <= check_max_classes_per_day_violations cfg self schedule /\
  (check_max_classes_per_day_violations cfg self schedule = 0 <->
   forall e, e ∈ schedule ->
     classes_on (batch_id e) (day e) schedule
     <= max_classes_of cfg self (batch_id e)).
Proof. apply violations_spec. Qed.

Lemma classes_on_all_fixed b d es :
  Forall (fun e => on_day b d e = true -> get_is_fixed e = true) es ->
  classes_on b d es = fixed_on b d es.
Proof.
  unfold classes_on, fixed_on, count_where.
  induction 1 as [|e es He _ IH]; [reflexivity|]. cbn.
  destruct (on_day b d e) eqn:E; cbn.
  - rewrite (He eq_refl). cbn. lia.
  - exact IH.
Qed.

(** X2: After the cap adjustment the evaluator counts no cap violation,
    provided no batch has more fixed classes on one day than its cap. *)
Theorem enforced_schedule_has_no_violation (cfg : Config) (self : optimizer)
    (schedule : list loc) (w : world) (entries : list ScheduleEntry) :
  deref (heap w) schedule = Ok entries ->
  (forall e, e ∈ entries ->
     fixed_on (batch_id e) (day e) entries
     <= max_classes_of cfg self (batch_id e)) ->
  exists adjusted w' kept,
    enforce_max_classes_per_day cfg self schedule w = (Ok adjusted, w') /\
    deref (heap w') adjusted = Ok kept /\
    check_max_classes_per_day_violations cfg self kept = 0.
Proof.
  intros Hd Hfixed.
  destruct (enforce_pairs cfg self schedule w entries Hd)
    as (kept & dropped & cs & Hrun & Hp & Hheap & Hdrop & Hcap & _).
  assert (Hentries : Permutation entries (kept.*2 ++ dropped.*2)).
  { rewrite <- fmap_app, <- Hp. rewrite snd_zip; [reflexivity|].
    apply deref_zip in Hd as [-> _]. lia. }
  exists kept.*1, (with_conflicts w cs), kept.*2.
  split; [exact Hrun|]. split.
  { apply deref_pairs. now apply Forall_app in Hheap as [H _]. }
  apply violations_spec. intros e He.
  destruct (Hcap (batch_id e) (day e)) as [H|H]; [exact H|].
  rewrite (classes_on_all_fixed _ _ _ H).
  assert (Hsplit : fixed_on (batch_id e) (day e) entries
                   = fixed_on (batch_id e) (day e) kept.*2
                     + fixed_on (batch_id e) (day e) dropped.*2).
  { unfold fixed_on.
    rewrite (count_where_Permutation _ _ _ Hentries), count_where_app. lia. }
  rewrite (fixed_on_none _ _ dropped.*2) in Hsplit by now apply Forall_fmap.
  rewrite <- (Z.add_0_r (fixed_on _ _ kept.*2)), <- Hsplit.
  apply Hfixed. rewrite Hentries. apply elem_of_app. now left.
Qed.

Lemma enforced_schedule_has_no_violation_witness :
  exists adjusted w' kept,
    enforce_max_classes_per_day default_Config
      (Samples.optimizer_with Samples.room60) (seq 0 8) Samples.eight_lectures
      = (Ok adjusted, w') /\
    length adjusted = 6%nat /\
    deref (heap w') adjusted = Ok kept /\
    check_max_classes_per_day_violations default_Config
      (Samples.optimizer_with Samples.room60) kept = 0.
Proof.
  destruct (enforced_schedule_has_no_violation default_Config
              (Samples.optimizer_with Samples.room60) (seq 0 8)
              Samples.eight_lectures
              (replicate 8 (Samples.lecture 1 3 7 false "09:00" "10:00"))
              eq_refl)
    as (adjusted & w' & kept & Hrun & Hd & Hv).
  { intros e He. apply elem_of_replicate in He as [-> _].
    vm_compute. discriminate. }
  exists adjusted, w', kept. split; [exact Hrun|].
  split; [|split; [exact Hd|exact Hv]].
  vm_compute in Hrun. injection Hrun as <- _. reflexivity.
Defined.

(** ** The utilization score *)

Lemma room_usage_empty es : forall acc,
  room_usage_of acc es = ∅ <->
  acc = ∅ /\ Forall (fun e => venue_type e <> Some "classroom") es.
Proof.
  induction es as [|e es IH]; intros acc; cbn.
  - split; [intros H; split; [exact H|constructor]|now intros [H _]].
  - fold (room_usage_of (if bool_decide (venue_type e = Some "classroom")
                         then <[venue_id e := default 0 (acc !! venue_id e) + 1]> acc
                         else acc) es).
    rewrite IH. destruct (bool_decide _) eqn:E.
    + apply bool_decide_eq_true in E. split.
      * intros [H _]. now apply insert_non_empty in H.
      * intros [_ H]. apply Forall_cons in H as [H _]. contradiction.
    + apply bool_decide_eq_false in E. split.
      * intros [H1 H2]. split; [exact H1|now constructor].
      * intros [H1 H2]. apply Forall_cons in H2 as [_ H2]. auto.
Qed.

Lemma classroom_score_spec (cfg : Config) (self : optimizer)
    (schedule : list ScheduleEntry) :
  let score := calculate_classroom_utilization_score cfg self schedule in
  (score = 0 \/ score = 5 \/ score = 15 \/ score = 20) /\
  (score = 0 <->
   Forall (fun e => venue_type e <> Some "classroom") schedule).
Proof.
  cbv zeta. unfold calculate_classroom_utilization_score. cbv zeta.
  fold (room_usage_of ∅ schedule).
  destruct (bool_decide (room_usage_of ∅ schedule = ∅)) eqn:E.
  - apply bool_decide_eq_true in E. split; [auto|]. split; [|reflexivity].
    intros _. now apply room_usage_empty in E as [_ E].
  - apply bool_decide_eq_false in E.
    assert (Hno : ~ Forall (fun e => venue_type e <> Some "classroom") schedule).
    { intros H. apply E. now apply room_usage_empty. }
    destruct (_ && _); [split; [auto|split; [discriminate|tauto]]|].
    destruct (_ && _); split; auto; split; try discriminate; tauto.
Qed.

(** X3: The classroom utilization score is 0, 5, 15 or 20, and it is 0
    exactly when no entry of the schedule is held in a classroom. *)
Theorem classroom_utilization_score_values (cfg : Config) (self : optimizer)
    (schedule : list ScheduleEntry) :
  let score := calculate_classroom_utilization_score cfg self schedule in
  (score = 0 \/ score = 5 \/ score = 15 \/ score = 20) /\
  (score = 0 <->
   Forall (fun e => venue_type e <> Some "classroom") schedule).
Proof. apply classroom_score_spec. Qed.

(** ** The faculty score and the range of the fitness *)

Lemma strptime_HM_raises s e : strptime_HM s = Raise e -> e = ValueError.
Proof.
  unfold strptime_HM. destruct (parse_H s) as [[h rest]|]; [|congruence].
  destruct (parse_M rest); congruence.
Qed.

Lemma collect_hours_outcome schedule : forall acc,
  (Forall (fun e => parses e = true) schedule /\
   exists r, collect_hours schedule acc = Ok r) \/
  (~ Forall (fun e => parses e = true) schedule /\
   collect_hours schedule acc = Raise ValueError).
Proof.
  induction schedule as [|e rest IH]; intros acc; cbn [collect_hours].
  - left. split; [constructor|eauto].
  - destruct (strptime_HM (start_time e)) as [s|x] eqn:Es.
    + destruct (strptime_HM (end_time e)) as [t|x] eqn:Et.
      * cbn. destruct (IH (add_hours (faculty_id e) (day e) (duration_hours s t) acc))
          as [[Hall Hr]|[Hno Hr]].
        -- left. split; [|exact Hr]. constructor; [|exact Hall].
           unfold parses. now rewrite Es, Et.
        -- right. split; [|exact Hr]. intros H. apply Hno.
           now apply Forall_cons in H as [_ H].
      * right. cbn. pose proof (strptime_HM_raises _ _ Et) as ->. split; [|reflexivity].
        intros H. apply Forall_cons in H as [H _]. unfold parses in H.
        now rewrite Es, Et in H.
    + right. cbn. pose proof (strptime_HM_raises _ _ Es) as ->. split; [|reflexivity].
      intros H. apply Forall_cons in H as [H _]. unfold parses in H.
      now rewrite Es in H.
Qed.

Lemma daily_excess_ge (limit : Q) (daily : gmap string Q) (v1 : Q) :
  (v1 <= map_fold (fun (_ : string) daily_hours v2 =>
           if Qlt_bool limit daily_hours
           then (v2 + (daily_hours - limit))%Q else v2) v1 daily)%Q.
Proof.
  apply (map_fold_weak_ind (fun r (_ : gmap string Q) => (v1 <= r)%Q)).
  - apply Qle_refl.
  - intros d x m r _ Hr. destruct (Qlt_bool limit x) eqn:E; [|exact Hr].
    apply Qlt_bool_iff in E. lra.
Qed.

Lemma faculty_score_spec (self : optimizer) (schedule : list ScheduleEntry) :
  (Forall (fun e => parses e = true) schedule /\
   exists s, calculate_faculty_load_balance_score self schedule = Ok s /\
             (s <= 20)%Q) \/
  (~ Forall (fun e => parses e = true) schedule /\
   calculate_faculty_load_balance_score self schedule = Raise ValueError).
Proof.
  unfold calculate_faculty_load_balance_score.
  destruct (collect_hours_outcome schedule (∅, ∅)) as [[Hall [[fh fd] Hr]]|[Hno Hr]];
    rewrite Hr; cbn; [left|right; auto].
  split; [exact Hall|]. eexists. split; [reflexivity|].
  match goal with |- (?b - ?v <= 20)%Q =>
    assert (Hb : (b <= 20)%Q); [|assert (Hv : (0 <= v)%Q); [|lra]]
  end.
  - destruct (bool_decide (fh = ∅)); [lra|].
    repeat (destruct (Qlt_bool _ _)); lra.
  - apply (map_fold_weak_ind (fun r (_ : gmap (option Z) Q) => (0 <= r)%Q)).
    + apply Qle_refl.
    + intros f x m r _ Hr'. destruct (find_faculty self f) as [fac|]; [|exact Hr'].
      eapply Qle_trans; [|apply daily_excess_ge].
      destruct (Qlt_bool _ x) eqn:E; [|exact Hr'].
      apply Qlt_bool_iff in E. lra.
Qed.

(** X4: The faculty score is defined exactly on the schedules whose
    times are well-formed ['%H:%M'] texts, where it is at most 20; on any
    other schedule the call raises [ValueError]. *)
Theorem faculty_score_outcome (self : optimizer)
    (schedule : list ScheduleEntry) :
  (Forall (fun e => parses e = true) schedule /\
   exists s, calculate_faculty_load_balance_score self schedule = Ok s /\
             (s <= 20)%Q) \/
  (~ Forall (fun e => parses e = true) schedule /\
   calculate_faculty_load_balance_score self schedule = Raise ValueError).
Proof. apply faculty_score_spec. Qed.

Lemma default_weight key v :
  OPTIMIZATION_WEIGHTS default_Config !! key = Some v ->
  forall self, weights self = OPTIMIZATION_WEIGHTS default_Config ->
  weight self key = Ok (inject_Z v).
Proof. intros H self Hw. unfold weight. now rewrite Hw, H. Qed.

Lemma inject_Z_nonneg z : 0 <= z -> (0 <= inject_Z z)%Q.
Proof. intros H. unfold Qle. cbn. lia. Qed.

Lemma py_max0_le x bound : (0 <= bound)%Q -> (x <= bound)%Q -> (py_max0 x <= bound)%Q.
Proof. intros H0 Hx. unfold py_max0. now destruct (Qlt_bool 0 x). Qed.

(** X5: With the shipped weights the fitness is defined exactly on the
    schedules whose times are well-formed ['%H:%M'] texts, where it lies
    between 0 and 2800; on any other schedule it raises [ValueError]. *)
Theorem fitness_range (cfg : Config) (self : optimizer)
    (schedule : list ScheduleEntry) :
  weights self = OPTIMIZATION_WEIGHTS default_Config ->
  (Forall (fun e => parses e = true) schedule /\
   exists f, calculate_comprehensive_fitness cfg self schedule = Ok f /\
             (0 <= f <= 2800)%Q) \/
  (~ Forall (fun e => parses e = true) schedule /\
   calculate_comprehensive_fitness cfg self schedule = Raise ValueError).
Proof.
  intros Hw. unfold calculate_comprehensive_fitness.
  rewrite (default_weight "room_conflicts" 200 ltac:(vm_compute; reflexivity) self Hw),
    (default_weight "faculty_conflicts" 200 ltac:(vm_compute; reflexivity) self Hw),
    (default_weight "batch_conflicts" 200 ltac:(vm_compute; reflexivity) self Hw),
    (default_weight "capacity_violations" 160 ltac:(vm_compute; reflexivity) self Hw),
    (default_weight "shift_violations" 140 ltac:(vm_compute; reflexivity) self Hw),
    (default_weight "max_classes_per_day" 120 ltac:(vm_compute; reflexivity) self Hw),
    (default_weight "faculty_availability_violations" 150
       ltac:(vm_compute; reflexivity) self Hw),
    (default_weight "special_class_violations" 300
       ltac:(vm_compute; reflexivity) self Hw),
    (default_weight "lab_conflicts" 180 ltac:(vm_compute; reflexivity) self Hw),
    (default_weight "lab_duration_violations" 100
       ltac:(vm_compute; reflexivity) self Hw),
    (default_weight "elective_sync_violations" 70
       ltac:(vm_compute; reflexivity) self Hw),
    (default_weight "classroom_utilization" 50 ltac:(vm_compute; reflexivity) self Hw),
    (default_weight "lab_utilization" 60 ltac:(vm_compute; reflexivity) self Hw),
    (default_weight "faculty_load_balance" 40 ltac:(vm_compute; reflexivity) self Hw).
  cbn [mbind outcome_bind].
  unfold check_room_conflicts, check_faculty_conflicts, check_batch_conflicts,
    check_capacity_violations, check_shift_violations,
    check_faculty_availability_violations, check_special_class_violations,
    check_lab_conflicts, check_lab_duration_violations,
    check_elective_sync_violations, calculate_lab_utilization_score.
  pose proof (inject_Z_nonneg _
                (proj1 (violations_spec cfg self schedule))) as HV.
  assert (HU : (inject_Z (calculate_classroom_utilization_score cfg self schedule)
                <= 20)%Q).
  { destruct (proj1 (classroom_score_spec cfg self schedule))
      as [-> | [-> | [-> | ->]]]; unfold Qle; cbn; lia. }
  set (qV := inject_Z (check_max_classes_per_day_violations cfg self schedule)) in *.
  set (qU := inject_Z (calculate_classroom_utilization_score cfg self schedule)) in *.
  destruct (faculty_score_spec self schedule) as [[Hall (b & Hb & Hle)]|[Hno Hr]];
    rewrite ?Hb, ?Hr; cbn [mbind outcome_bind]; [left|right; auto].
  split; [exact Hall|]. eexists. split; [reflexivity|].
  split; [apply py_max0_nonneg|].
  apply py_max0_le; [lra|]. unfold inject_Z. lra.
Qed.

Lemma fitness_range_witness :
  exists f,
    calculate_comprehensive_fitness default_Config
      (Samples.optimizer_with Samples.room60)
      (heap Samples.three_lectures) = Ok f /\ (0 <= f <= 2800)%Q.
Proof.
  destruct (fitness_range default_Config
              (Samples.optimizer_with Samples.room60)
              (heap Samples.three_lectures) eq_refl)
    as [[_ H]|[Hno _]]; [exact H|].
  exfalso. apply Hno. repeat constructor.
Defined.

(** ** Early stop and the size of the population *)

Lemma evaluate_world cfg self individual w r w' :
  evaluate cfg self individual w = (r, w') -> w' = w.
Proof.
  unfold evaluate, read_schedule, mbind, M_bind, lift.
  destruct (deref (heap w) individual); intros H; now inversion H.
Qed.

Lemma evaluate_all_world cfg self population : forall w r w',
  mapM (evaluate cfg self) population w = (r, w') -> w' = w.
Proof.
  induction population as [|x l IH]; intros w r w' H; cbn [mapM] in H.
  - now inversion H.
  - unfold mbind at 1 in H. unfold M_bind at 1 in H.
    destruct (evaluate cfg self x w) as [[y|e] w1] eqn:Hx;
      apply evaluate_world in Hx as ->; [|now inversion H].
    unfold mbind at 1 in H. unfold M_bind at 1 in H.
    destruct (mapM (evaluate cfg self) l w) as [[ys|e] w2] eqn:Hl;
      apply IH in Hl as ->; now inversion H.
Qed.

Lemma breed_extends self fuel population fitness_scores :
  forall new_population w result w',
  breed self fuel population fitness_scores new_population w = (Ok result, w') ->
  (population_size self <= length result)%nat /\
  exists offspring, result = new_population ++ offspring.
Proof.
  induction fuel as [|fuel IH]; intros new_population w result w' H;
    cbn [breed] in H;
    destruct (length new_population <? population_size self)%nat eqn:E;
    try discriminate.
  - apply ret_ok in H as [<- _]. apply Nat.ltb_ge in E.
    split; [exact E|]. exists []. now rewrite app_nil_r.
  - apply bind_ok in H as (p1 & w1 & _ & H).
    apply bind_ok in H as (p2 & w2 & _ & H).
    apply bind_ok in H as ([o1 o2] & w3 & _ & H).
    apply bind_ok in H as (o1' & w4 & _ & H).
    apply bind_ok in H as (o2' & w5 & _ & H).
    apply IH in H as [Hsz (more & ->)]. split; [exact Hsz|].
    exists ([o1'; o2'] ++ more). now rewrite app_assoc.
  - apply ret_ok in H as [<- _]. apply Nat.ltb_ge in E.
    split; [exact E|]. exists []. now rewrite app_nil_r.
Qed.

(** X6: A generation that ends in [break] has found a score of at least 900;
    it leaves the population and the whole state as they were: nothing is
    drawn, mutated or recorded. *)
Theorem early_stop_is_quiet (cfg : Config) (self : optimizer) (st : search)
    (w : world) (st' : search) (w' : world) :
  generation cfg self st w = (Ok (st', true), w') ->
  population st' = population st /\ w' = w /\
  (900 <= best_fitness st')%Q.
Proof.
  unfold generation. intros H.
  apply bind_ok in H as (scores & w1 & Hscores & H).
  apply evaluate_all_world in Hscores as ->.
  apply bind_ok in H as (idx & w2 & Hidx & H). apply lift_ok in Hidx as [_ <-].
  apply bind_ok in H as (tracked & w3 & Htracked & H).
  destruct (Qle_bool 900 (default 0%Q (py_max scores))) eqn:E.
  - apply ret_ok in H as [H <-]. injection H as <-. cbn.
    apply Qle_bool_iff in E.
    destruct (Qlt_bool (best_fitness st) _) eqn:Elt.
    + apply bind_ok in Htracked as (b & w4 & Hb & Htracked).
      apply lift_ok in Hb as [_ <-]. apply ret_ok in Htracked as [<- <-]. auto.
    + apply ret_ok in Htracked as [<- <-]. cbn.
      apply Qlt_bool_false in Elt. repeat split; auto. lra.
  - apply bind_ok in H as (elites & w4 & _ & H).
    apply bind_ok in H as (np & w5 & _ & H).
    apply ret_ok in H as [H _]. discriminate.
Qed.

Lemma early_stop_is_quiet_witness :
  exists st',
    generation default_Config (Samples.optimizer_with Samples.room60)
      {| population := [[]; []]; best_fitness_history := [];
         best_individual := None; best_fitness := 0 |}
      Samples.three_lectures = (Ok (st', true), Samples.three_lectures) /\
    population st' = [[]; []] /\ (900 <= best_fitness st')%Q.
Proof.
  destruct (generation default_Config (Samples.optimizer_with Samples.room60)
      {| population := [[]; []]; best_fitness_history := [];
         best_individual := None; best_fitness := 0 |}
      Samples.three_lectures) as [[[st' stop]|e] w'] eqn:H;
    [|vm_compute in H; discriminate].
  assert (stop = true) as -> by (vm_compute in H; now injection H as _ <- _).
  destruct (early_stop_is_quiet _ _ _ _ _ _ H) as (Hp & -> & Hb).
  exists st'. auto.
Defined.

(** X7: A generation that does not stop hands over a population of exactly
    the configured size, whatever the size of the one it was given. *)
Theorem next_population_has_configured_size (cfg : Config) (self : optimizer)
    (st : search) (w : world) (st' : search) (w' : world) :
  generation cfg self st w = (Ok (st', false), w') ->
  length (population st') = population_size self.
Proof.
  unfold generation. intros H.
  apply bind_ok in H as (scores & w1 & Hscores & H).
  apply bind_ok in H as (idx & w2 & Hidx & H).
  apply bind_ok in H as (tracked & w3 & Htracked & H).
  destruct (Qle_bool 900 (default 0%Q (py_max scores))) eqn:E.
  - apply ret_ok in H as [H _]. discriminate.
  - apply bind_ok in H as (elites & w4 & _ & H).
    apply bind_ok in H as (np & w5 & Hnp & H).
    apply ret_ok in H as [H _]. injection H as <-. cbn.
    apply breed_extends in Hnp as [Hsz _].
    rewrite length_take. lia.
Qed.

Lemma next_population_has_configured_size_witness :
  exists st' w',
    generation default_Config (Samples.optimizer_with Samples.room60)
      Samples.crowded_search Samples.crowded_monday = (Ok (st', false), w') /\
    length (population st') = 4%nat.
Proof.
  destruct (generation default_Config (Samples.optimizer_with Samples.room60)
      Samples.crowded_search Samples.crowded_monday)
    as [[[st' stop]|e] w'] eqn:H; [|vm_compute in H; discriminate].
  assert (stop = false) as -> by (vm_compute in H; now injection H as _ <- _).
  exists st', w'. split; [reflexivity|].
  exact (next_population_has_configured_size _ _ _ _ _ _ H).
Defined.

(** ** Elitism *)

Lemma argsort_insert_Permutation (l : list Q) i : forall sorted,
  Permutation (argsort_insert l i sorted) (i :: sorted).
Proof.
  induction sorted as [|j rest IH]; cbn; [reflexivity|].
  destruct (Qle_bool _ _); [reflexivity|].
  rewrite IH. apply perm_swap.
Qed.

Lemma np_argsort_Permutation (l : list Q) :
  Permutation (np_argsort l) (seq 0 (length l)).
Proof.
  unfold np_argsort. induction (seq 0 (length l)) as [|i s IH]; cbn;
    [reflexivity|].
  rewrite argsort_insert_Permutation. now constructor.
Qed.

Lemma argsort_insert_sorted (l : list Q) i : forall sorted,
  StronglySorted (fun a b => (nth a l 0 <= nth b l 0)%Q) sorted ->
  StronglySorted (fun a b => (nth a l 0 <= nth b l 0)%Q)
    (argsort_insert l i sorted).
Proof.
  induction sorted as [|j rest IH]; intros Hs; cbn.
  - repeat constructor.
  - inversion Hs as [|? ? Hrest Hj]; subst.
    destruct (Qle_bool _ _) eqn:E.
    + apply Qle_bool_iff in E. constructor; [exact Hs|].
      constructor; [exact E|].
      eapply List.Forall_impl; [|exact Hj]. cbn. intros a Ha. lra.
    + assert (nth j l 0 <= nth i l 0)%Q as Hji.
      { destruct (Qlt_le_dec (nth j l 0%Q) (nth i l 0%Q)) as [H|H]; [lra|].
        apply Qle_bool_iff in H. congruence. }
      constructor; [now apply IH|].
      eapply Permutation_Forall;
        [symmetry; apply argsort_insert_Permutation|].
      constructor; assumption.
Qed.

Lemma np_argsort_sorted (l : list Q) :
  StronglySorted (fun a b => (nth a l 0 <= nth b l 0)%Q) (np_argsort l).
Proof.
  unfold np_argsort. induction (seq 0 (length l)) as [|i s IH]; cbn.
  - constructor.
  - now apply argsort_insert_sorted.
Qed.

Lemma sorted_last_greatest {A} (R : A -> A -> Prop) (s : list A) (j : A) :
  StronglySorted R (s ++ [j]) -> Forall (fun i => R i j) s.
Proof.
  induction s as [|a s IH]; cbn; intros H; [constructor|].
  inversion H as [|? ? Hs Ha]; subst. constructor; [|now apply IH].
  apply List.Forall_app in Ha as [_ Ha]. now inversion Ha.
Qed.

Lemma last_k_last {A} (k : nat) (s : list A) (j : A) :
  (1 <= k)%nat -> j ∈ last_k k (s ++ [j]).
Proof.
  intros Hk. unfold last_k. rewrite length_app. cbn.
  rewrite drop_app_le by lia. apply elem_of_app. right. now left.
Qed.

Lemma length_last_k {A} (k : nat) (l : list A) :
  (length (last_k k l) <= k)%nat.
Proof. unfold last_k. rewrite length_drop. lia. Qed.

Lemma omapM_length {A B} (f : A -> outcome B) (l : list A) : forall ys,
  omapM f l = Ok ys -> length ys = length l.
Proof.
  induction l as [|x l IH]; intros ys H; cbn [omapM] in H.
  - now injection H as <-.
  - apply obind_ok in H as (y & _ & H).
    apply obind_ok in H as (ys' & Hys & H). injection H as <-.
    cbn. f_equal. now apply IH.
Qed.

Lemma omapM_lookup_elem {A} (l : list A) (idxs : list nat) (xs : list A) j :
  omapM (fun i => of_option IndexError (l !! i)) idxs = Ok xs ->
  j ∈ idxs -> exists x, l !! j = Some x /\ x ∈ xs.
Proof.
  revert xs. induction idxs as [|i idxs IH]; intros xs H Hj; cbn [omapM] in H.
  - inversion Hj.
  - apply obind_ok in H as (x & Hx & H).
    apply obind_ok in H as (xs' & Hxs & H). injection H as <-.
    destruct (l !! i) eqn:E; [|discriminate]. injection Hx as ->.
    apply elem_of_cons in Hj as [->|Hj].
    + exists x. split; [exact E|now left].
    + destruct (IH _ Hxs Hj) as (y & Hy & Hin). exists y.
      split; [exact Hy|now right].
Qed.

(** A best-scoring index is among the elite indices. *)
Lemma elite_indices_greatest (scores : list Q) (k : nat) :
  scores <> [] -> (1 <= k)%nat ->
  exists j, j ∈ last_k k (np_argsort scores) /\
    (j < length scores)%nat /\
    forall i s, scores !! i = Some s -> (s <= nth j scores 0)%Q.
Proof.
  intros Hne Hk.
  pose proof (np_argsort_Permutation scores) as Hperm.
  pose proof (np_argsort_sorted scores) as Hsorted.
  destruct (np_argsort scores) as [|a rest] eqn:E using rev_ind.
  - apply Permutation_nil in Hperm. destruct scores; [congruence|discriminate].
  - clear IHrest. rename a into j. exists j.
    split; [now apply last_k_last|].
    assert (Hj : j ∈ seq 0 (length scores)).
    { rewrite <- Hperm. apply elem_of_app. right. now left. }
    apply elem_of_seq in Hj. split; [lia|].
    intros i s Hi.
    assert (Hin : i ∈ rest ++ [j]).
    { rewrite Hperm. apply elem_of_seq. apply lookup_lt_Some in Hi. lia. }
    replace s with (nth i scores 0%Q)
      by (now apply nth_lookup_Some).
    apply elem_of_app in Hin as [Hin|Hin].
    + apply sorted_last_greatest in Hsorted.
      rewrite Forall_forall in Hsorted. now apply Hsorted.
    + apply list_elem_of_singleton in Hin as ->. lra.
Qed.

(** X8: Elitism: when a generation goes on to breed, a candidate whose score
    is the greatest of the generation is carried over into the next
    population (as the same list of entry references). *)
Theorem elite_survives (cfg : Config) (self : optimizer) (st : search)
    (w : world) (st' : search) (w' : world) :
  (0 < population_size self)%nat ->
  population st <> [] ->
  generation cfg self st w = (Ok (st', false), w') ->
  exists (scores : list Q) (j : nat) (candidate : list loc),
    mapM (evaluate cfg self) (population st) w = (Ok scores, w) /\
    population st !! j = Some candidate /\
    (forall i s, scores !! i = Some s -> (s <= nth j scores 0)%Q) /\
    candidate ∈ population st'.
Proof.
  intros Hsize Hne H. unfold generation in H.
  apply bind_ok in H as (scores & w1 & Hscores & H).
  pose proof (evaluate_all_world _ _ _ _ _ _ Hscores) as ->.
  pose proof (mapM_length _ _ _ _ _ Hscores) as Hlen.
  apply bind_ok in H as (idx & w2 & Hidx & H).
  apply bind_ok in H as (tracked & w3 & Htracked & H).
  destruct (Qle_bool 900 (default 0%Q (py_max scores))) eqn:E.
  { apply ret_ok in H as [H _]. discriminate. }
  apply bind_ok in H as (elites & w4 & Helites & H).
  apply lift_ok in Helites as [Helites _].
  apply bind_ok in H as (np & w5 & Hnp & H).
  apply ret_ok in H as [H _]. injection H as <-. cbn.
  assert (Hs : scores <> []).
  { intros ->. destruct (population st); [congruence|discriminate]. }
  destruct (elite_indices_greatest scores
              (Nat.max 1 (population_size self / 10)) Hs ltac:(lia))
    as (j & Hj & _ & Hmax).
  destruct (omapM_lookup_elem _ _ _ _ Helites Hj) as (c & Hc & Hin).
  exists scores, j, c. repeat split; auto.
  apply breed_extends in Hnp as [_ (more & ->)].
  apply omapM_length in Helites.
  pose proof (length_last_k (Nat.max 1 (population_size self / 10))
                (np_argsort scores)) as Hk.
  assert (Nat.max 1 (population_size self / 10) <= population_size self)%nat.
  { pose proof (Nat.Div0.div_le_upper_bound (population_size self) 10
                  (population_size self)). lia. }
  rewrite take_app_ge by lia.
  apply elem_of_app. now left.
Qed.

Lemma elite_survives_witness :
  exists st' w' candidate,
    generation default_Config (Samples.optimizer_with Samples.room60)
      Samples.crowded_search Samples.crowded_monday = (Ok (st', false), w') /\
    candidate ∈ population Samples.crowded_search /\
    candidate ∈ population st'.
Proof.
  destruct (generation default_Config (Samples.optimizer_with Samples.room60)
      Samples.crowded_search Samples.crowded_monday)
    as [[[st' stop]|e] w'] eqn:H; [|vm_compute in H; discriminate].
  assert (stop = false) as -> by (vm_compute in H; now injection H as _ <- _).
  destruct (elite_survives default_Config
              (Samples.optimizer_with Samples.room60)
              Samples.crowded_search Samples.crowded_monday st' w'
              ltac:(cbn; lia) ltac:(discriminate) H)
    as (scores & j & c & _ & Hc & _ & Hin).
  exists st', w', c. split; [reflexivity|]. split; [|exact Hin].
  eapply list_elem_of_lookup_2. exact Hc.
Defined.

(** ** Sampling and tournament selection *)

Lemma pool_step (pool : list nat) j x y :
  pool !! j = Some x -> pool !! (length pool - 1)%nat = Some y ->
  Permutation pool (x :: take (length pool - 1) (<[j := y]> pool)).
Proof.
  destruct pool as [|y' init _] using rev_ind; [discriminate|].
  rewrite length_app. cbn [length].
  replace (length init + 1 - 1)%nat with (length init) by lia.
  intros Hx Hy.
  rewrite lookup_app_r in Hy by lia.
  rewrite Nat.sub_diag in Hy. injection Hy as ->.
  destruct (decide (j < length init)%nat) as [Hlt|Hge].
  - rewrite lookup_app_l in Hx by lia.
    rewrite insert_app_l by lia.
    rewrite take_app_length' by now rewrite length_insert.
    rewrite insert_take_drop by lia.
    rewrite <- (take_drop_middle init j x Hx) at 1.
    generalize (take j init) (drop (S j) init). intros a b.
    transitivity (x :: (a ++ b) ++ [y]).
    + rewrite <- app_assoc. cbn. rewrite <- Permutation_middle.
      constructor. now rewrite app_assoc.
    + constructor. rewrite <- Permutation_cons_append.
      apply Permutation_middle.
  - apply lookup_lt_Some in Hx as Hj. rewrite length_app in Hj. cbn in Hj.
    assert (j = length init) as -> by lia.
    rewrite lookup_app_r in Hx by lia.
    rewrite Nat.sub_diag in Hx. injection Hx as ->.
    rewrite insert_app_r_alt by lia. rewrite Nat.sub_diag. cbn.
    rewrite take_app_length' by reflexivity.
    symmetry. apply Permutation_cons_append.
Qed.

Lemma randbelow_run n w :
  exists j w', randbelow n w = (Ok j, w') /\
    heap w' = heap w /\ conflicts w' = conflicts w /\ rng w' = rng w.
Proof.
  unfold randbelow, draw, mbind, M_bind, mret, M_ret. cbn.
  eexists _, _. split; [reflexivity|]. cbn. auto.
Qed.

Lemma sample_pool_spec : forall k pool w, (k <= length pool)%nat ->
  exists idxs w' rest,
    sample_pool pool k w = (Ok idxs, w') /\ length idxs = k /\
    Permutation pool (idxs ++ rest) /\
    heap w' = heap w /\ conflicts w' = conflicts w /\ rng w' = rng w.
Proof.
  induction k as [|k IH]; intros pool w Hk; cbn [sample_pool].
  - exists [], w, pool. repeat split; reflexivity.
  - destruct (randbelow_run (length pool) w) as (j & w1 & Hj & Hh & Hc & Hr).
    assert (j < length pool)%nat as Hlt
      by (eapply randbelow_lt; [lia|exact Hj]).
    destruct (lookup_lt_is_Some_2 pool j Hlt) as [x Hx].
    destruct (lookup_lt_is_Some_2 pool (length pool - 1) ltac:(lia)) as [y Hy].
    destruct (IH (take (length pool - 1) (<[j := y]> pool)) w1)
      as (idxs & w' & rest & Hrun & Hlen & Hperm & Hh' & Hc' & Hr').
    { rewrite length_take, length_insert. lia. }
    exists (x :: idxs), w', rest.
    split.
    { erewrite bind_run by exact Hj.
      unfold lift at 1. unfold mbind at 1, M_bind at 1. rewrite Hx. cbn [of_option].
      unfold lift at 1. unfold mbind at 1, M_bind at 1. rewrite Hy. cbn [of_option].
      erewrite bind_run by exact Hrun. reflexivity. }
    split; [cbn; now rewrite Hlen|].
    split; [|repeat split; congruence].
    rewrite (pool_step pool j x y Hx Hy). cbn. now constructor.
Qed.

Lemma foldl_max_ge (l : list Q) : forall m,
  (m <= foldl (fun m y => if Qlt_bool m y then y else m) m l)%Q /\
  Forall (fun x => (x <= foldl (fun m y => if Qlt_bool m y then y else m) m l)%Q) l.
Proof.
  induction l as [|y l IH]; intros m; cbn.
  - split; [lra|constructor].
  - destruct (Qlt_bool m y) eqn:E.
    + apply Qlt_bool_iff in E. destruct (IH y) as [H1 H2].
      split; [lra|]. constructor; assumption.
    + apply Qlt_bool_false in E. destruct (IH m) as [H1 H2].
      split; [exact H1|]. constructor; [lra|assumption].
Qed.

Lemma py_max_ge (l : list Q) m :
  py_max l = Some m -> Forall (fun x => (x <= m)%Q) l.
Proof.
  destruct l as [|x l]; cbn; [discriminate|]. intros H. injection H as <-.
  destruct (foldl_max_ge l x). now constructor.
Qed.

Lemma omapM_lookup_run {A} (l : list A) (d : A) (idxs : list nat) :
  Forall (fun i => (i < length l)%nat) idxs ->
  omapM (fun i => of_option IndexError (l !! i)) idxs
    = Ok ((fun i => nth i l d) <$> idxs).
Proof.
  induction 1 as [|i idxs Hi _ IH]; cbn [omapM]; [reflexivity|].
  destruct (lookup_lt_is_Some_2 l i Hi) as [x Hx]. rewrite Hx. cbn.
  rewrite IH. cbn. now rewrite (nth_lookup_Some _ _ d _ Hx).
Qed.

(** X9: Tournament selection on a scored, non-empty population always
    returns: the winner is one of [min(3, len(population))] distinct
    sampled candidates and no sampled candidate scores higher; nothing but
    the generator's state changes.  On an empty population [np.argmax]
    raises [ValueError]. *)
Theorem tournament_selection_picks_sampled_best
    (population : list (list loc)) (fitness_scores : list Q) (w : world) :
  length fitness_scores = length population ->
  match population with
  | [] => tournament_selection population fitness_scores 3 w
            = (Raise ValueError, w)
  | _ => exists sampled winner_index winner w',
      tournament_selection population fitness_scores 3 w = (Ok winner, w') /\
      NoDup sampled /\
      length sampled = Nat.min 3 (length population) /\
      winner_index ∈ sampled /\
      population !! winner_index = Some winner /\
      (forall i, i ∈ sampled ->
         (nth i fitness_scores 0 <= nth winner_index fitness_scores 0)%Q) /\
      heap w' = heap w /\ conflicts w' = conflicts w
  end.
Proof.
  intros Hlen. destruct population as [|c0 population'] eqn:Epop.
  { unfold tournament_selection. cbn. destruct w; reflexivity. }
  rewrite <- Epop in *. assert (Hpos : (0 < length population)%nat)
    by (rewrite Epop; cbn; lia). clear Epop c0 population'.
  unfold tournament_selection, random_sample_range.
  set (k := Nat.min 3 (length population)).
  assert (k <= length population)%nat as Hk by (unfold k; lia).
  apply Nat.leb_le in Hk as Hkb. rewrite Hkb.
  destruct (sample_pool_spec k (seq 0 (length population)) w
              ltac:(now rewrite length_seq))
    as (idxs & w' & rest & Hrun & Hidxs & Hperm & Hh & Hc & _).
  assert (Hbelow : Forall (fun i => (i < length population)%nat) idxs).
  { apply Forall_forall. intros i Hi.
    assert (i ∈ seq 0 (length population)) as Hin
      by (rewrite Hperm; apply elem_of_app; now left).
    apply elem_of_seq in Hin. lia. }
  assert (Hnodup : NoDup idxs).
  { pose proof (NoDup_seq 0 (length population)) as Hnd.
    rewrite Hperm in Hnd. now apply NoDup_app in Hnd as [Hnd _]. }
  erewrite bind_run by exact Hrun.
  unfold lift at 1. unfold mbind at 1, M_bind at 1.
  rewrite (omapM_lookup_run fitness_scores 0%Q idxs)
    by (now rewrite Hlen).
  set (tf := (fun i => nth i fitness_scores 0%Q) <$> idxs).
  destruct (np_argmax tf) as [a|e] eqn:Earg.
  2:{ destruct tf eqn:Etf; [|discriminate].
      apply (f_equal length) in Etf. unfold tf in Etf.
      rewrite length_fmap in Etf. cbn in Etf. unfold k in *. lia. }
  destruct (np_argmax_py_max _ _ Earg) as (m & Hmax & Ha).
  unfold lift at 1. unfold mbind at 1, M_bind at 1.
  unfold tf in Ha. rewrite list_lookup_fmap in Ha.
  destruct (idxs !! a) as [win|] eqn:Ewin; [|discriminate].
  cbn in Ha. injection Ha as Ha.
  unfold lift at 1. unfold mbind at 1, M_bind at 1. cbn [of_option].
  assert (Hwin : win ∈ idxs) by (eapply list_elem_of_lookup_2; eauto).
  assert (win < length population)%nat as Hlt.
  { rewrite Forall_forall in Hbelow. now apply Hbelow. }
  destruct (lookup_lt_is_Some_2 population win Hlt) as [p Hp].
  exists idxs, win, p, w'. unfold lift. rewrite Hp. cbn [of_option].
  split; [rewrite Earg, Ewin; cbn [of_option]; now rewrite Hp|].
  repeat split; auto.
  intros i Hi. rewrite Ha.
  apply py_max_ge in Hmax. rewrite Forall_forall in Hmax. apply Hmax.
  unfold tf. apply list_elem_of_fmap. now exists i.
Qed.

Lemma tournament_selection_picks_sampled_best_witness :
  exists sampled winner_index winner w',
    tournament_selection [[0%nat]; [1%nat]; [2%nat]; [0%nat; 1%nat]]
      [3%Q; 1%Q; 4%Q; 1%Q] 3 Samples.three_lectures = (Ok winner, w') /\
    length sampled = 3%nat /\ winner_index ∈ sampled /\
    [[0%nat]; [1%nat]; [2%nat]; [0%nat; 1%nat]] !! winner_index = Some winner.
Proof.
  destruct (tournament_selection_picks_sampled_best
              [[0%nat]; [1%nat]; [2%nat]; [0%nat; 1%nat]]
              [3%Q; 1%Q; 4%Q; 1%Q] Samples.three_lectures eq_refl)
    as (sampled & i & winner & w' & Hrun & _ & Hlen & Hin & Hw & _).
  exists sampled, i, winner, w'. auto.
Defined.

(** ** Crossover at the edges *)

(** X10: Crossover needs two entries in each parent.  When a parent has
    fewer, the call returns the parents as they are if the draw exceeds
    the crossover rate or a parent is empty, and otherwise ends in the
    [ValueError] of [random.randint(1, 0)]. *)
Theorem crossover_short_parent (self : optimizer)
    (parent1 parent2 : list loc) (w : world) (r : Q) (w1 : world) :
  random_random w = (Ok r, w1) ->
  (length parent1 < 2 \/ length parent2 < 2)%nat ->
  enhanced_crossover self parent1 parent2 w =
    if Qlt_bool (crossover_rate self) r
       || bool_decide (parent1 = []) || bool_decide (parent2 = [])
    then (Ok (parent1, parent2), w1)
    else (Raise ValueError, w1).
Proof.
  intros Hr Hshort. unfold enhanced_crossover.
  erewrite bind_run by exact Hr.
  destruct (Qlt_bool (crossover_rate self) r); cbn [orb]; [reflexivity|].
  destruct parent1 as [|a p1]; [reflexivity|].
  destruct parent2 as [|b p2]; [reflexivity|].
  cbn [length Nat.eqb orb bool_decide decide_rel].
  rewrite !bool_decide_eq_false_2 by discriminate. cbn [orb].
  unfold random_randint.
  destruct (1 <=? _) eqn:E; [|reflexivity].
  apply Z.leb_le in E. cbn [length] in *. lia.
Qed.

Lemma crossover_short_parent_witness :
  (length [0%nat] < 2 \/ length [1%nat; 2%nat] < 2)%nat /\
  (enhanced_crossover (Samples.optimizer_with Samples.room60)
     [0%nat] [1%nat; 2%nat] Samples.three_lectures).1 = Raise ValueError.
Proof.
  split; [left; cbn; lia|].
  erewrite crossover_short_parent; [|reflexivity|left; cbn; lia].
  vm_compute. reflexivity.
Defined.

Lemma mutation_of_refl self e : mutation_of self e e.
Proof. unfold mutation_of. intuition. Qed.

Lemma mutation_of_trans self e1 e2 e3 :
  mutation_of self e1 e2 -> mutation_of self e2 e3 -> mutation_of self e1 e3.
Proof.
  unfold mutation_of.
  intros (A1 & A2 & A3 & A4 & A5 & A6 & A7 & A8 & Ad & At & Av)
         (B1 & B2 & B3 & B4 & B5 & B6 & B7 & B8 & Bd & Bt & Bv).
  repeat (split; [congruence|]).
  split; [|split].
  - destruct Bd as [Bd|Bd]; [rewrite Bd; exact Ad|now right].
  - destruct Bt as [[Bs Be]|Bt]; [rewrite Bs, Be; exact At|now right].
  - destruct Bv as [[Bi Bty]|[(Bc & Bty & Bl)|(Bc & Bty & Bl)]].
    + rewrite Bi, Bty. exact Av.
    + right. left. rewrite <- A6. auto.
    + right. right. rewrite <- A6. auto.
Qed.

Lemma mutated_refl self individual h : mutated self individual h h.
Proof.
  split; [reflexivity|]. split; [reflexivity|].
  intros l e H. exists e. split; [exact H|apply mutation_of_refl].
Qed.

Lemma mutated_trans self individual h1 h2 h3 :
  mutated self individual h1 h2 -> mutated self individual h2 h3 ->
  mutated self individual h1 h3.
Proof.
  intros (L1 & O1 & M1) (L2 & O2 & M2). split; [congruence|]. split.
  - intros l Hl. rewrite O2, O1; auto.
  - intros l e He. destruct (M1 l e He) as (e2 & He2 & Hm1).
    destruct (M2 l e2 He2) as (e3 & He3 & Hm2).
    exists e3. split; [exact He3|]. eapply mutation_of_trans; eauto.
Qed.

Lemma mutated_insert self individual h l e e' :
  l ∈ individual -> h !! l = Some e -> mutation_of self e e' ->
  mutated self individual h (<[l := e']> h).
Proof.
  intros Hin Hl Hm. split; [apply length_insert|]. split.
  - intros l' Hl'. apply list_lookup_insert_ne. intros ->. contradiction.
  - intros l' e0 He0. destruct (decide (l' = l)) as [->|Hne].
    + unfold loc in *. rewrite Hl in He0. injection He0 as <-.
      exists e'. split; [|exact Hm].
      apply list_lookup_insert_eq. now apply lookup_lt_Some in Hl.
    + exists e0. split; [|apply mutation_of_refl].
      rewrite list_lookup_insert_ne by congruence. exact He0.
Qed.

Lemma random_random_frame w :
  heap (random_random w).2 = heap w /\
  conflicts (random_random w).2 = conflicts w.
Proof. split; reflexivity. Qed.

Lemma random_choice_spec {A} (choices : list A) w :
  heap (random_choice choices w).2 = heap w /\
  conflicts (random_choice choices w).2 = conflicts w /\
  forall x, (random_choice choices w).1 = Ok x -> x ∈ choices.
Proof.
  unfold random_choice. destruct choices as [|c cs] eqn:E.
  { cbn. repeat split; auto. discriminate. }
  rewrite <- E. clear E.
  unfold randbelow, draw, lift, mbind, M_bind, mret, M_ret. cbn.
  repeat split; auto.
  intros x. destruct (choices !! _) eqn:El; cbn; [|discriminate].
  intros H. injection H as ->. eapply list_elem_of_lookup_2; eauto.
Qed.

(** A random draw followed by an assignment to the dict at [l]. *)
Lemma choice_modify_effect {A} self individual l e (choices : list A)
    (f : A -> ScheduleEntry -> ScheduleEntry) w res w' :
  l ∈ individual -> heap w !! l = Some e ->
  (forall x, x ∈ choices -> mutation_of self e (f x e)) ->
  (x ← random_choice choices; modify l (f x)) w = (res, w') ->
  mutated self individual (heap w) (heap w') /\ conflicts w' = conflicts w.
Proof.
  intros Hin Hl Hf.
  destruct (random_choice_spec choices w) as (Hh & Hc & Hx).
  unfold mbind, M_bind.
  destruct (random_choice choices w) as [[x|err] w1]; cbn in *.
  - unfold modify. rewrite Hh, Hl. intros H. injection H as _ <-. cbn.
    split; [|exact Hc].
    apply (mutated_insert self individual (heap w) l e); auto.
  - intros H. injection H as _ <-. rewrite Hh.
    split; [apply mutated_refl|exact Hc].
Qed.

Lemma mutate_entry_effect self individual l w res w' :
  l ∈ individual ->
  mutate_entry self l w = (res, w') ->
  mutated self individual (heap w) (heap w') /\ conflicts w' = conflicts w.
Proof.
  intros Hin. unfold mutate_entry.
  unfold mbind at 1. unfold M_bind at 1.
  destruct (random_random w) as [[r|err] w1] eqn:Er.
  2:{ unfold random_random, draw, mbind, M_bind, mret, M_ret in Er.
      discriminate. }
  assert (Hh1 : heap w1 = heap w)
    by (pose proof (random_random_frame w) as [H _]; now rewrite Er in H).
  assert (Hc1 : conflicts w1 = conflicts w)
    by (pose proof (random_random_frame w) as [_ H]; now rewrite Er in H).
  rewrite <- Hh1, <- Hc1. clear Er Hh1 Hc1 w. rename w1 into w.
  assert (Hskip : forall (r : outcome unit),
    (r, w) = (res, w') ->
    mutated self individual (heap w) (heap w') /\ conflicts w' = conflicts w).
  { intros r0 H. injection H as _ <-.
    split; [apply mutated_refl|reflexivity]. }
  destruct (Qlt_bool r (mutation_rate self)); [|apply Hskip].
  unfold mbind at 1. unfold M_bind at 1. unfold read at 1.
  destruct (heap w !! l) as [e|] eqn:El; cbn [of_option]; [|apply Hskip].
  destruct (get_is_fixed e); [apply Hskip|].
  unfold mbind at 1. unfold M_bind at 1.
  destruct (random_choice_spec [MutDay; MutTime; MutVenue] w) as (Hh & Hc & _).
  destruct (random_choice [MutDay; MutTime; MutVenue] w) as [[kind|err] w1];
    cbn in Hh, Hc.
  2:{ intros H. injection H as _ <-. rewrite Hh, Hc.
      split; [apply mutated_refl|reflexivity]. }
  rewrite <- Hh, <- Hc. rewrite <- Hh in El. clear Hh Hc Hskip w.
  rename w1 into w.
  destruct kind.
  - apply (choice_modify_effect self individual l e (working_days self)
             set_day w res w' Hin El).
    intros d Hd. unfold mutation_of. cbn. intuition.
  - apply (choice_modify_effect self individual l e (time_slots self)
             (fun s => set_times s.1 s.2) w res w' Hin El).
    intros [s t] Hs. unfold mutation_of. cbn. intuition.
  - unfold mbind at 1. unfold M_bind at 1. unfold read at 1.
    rewrite El. cbn [of_option].
    destruct (bool_decide (class_type e = Some "lab")) eqn:Elab.
    + apply bool_decide_eq_true in Elab.
      destruct (laboratories self) as [|lab labs] eqn:Hlabs.
      { intros H. injection H as _ <-.
        split; [apply mutated_refl|reflexivity]. }
      apply (choice_modify_effect self individual l e (lab :: labs)
               (fun x => set_venue (laboratory_id x) "laboratory")
               w res w' Hin El).
      intros x Hx. unfold mutation_of. cbn.
      repeat (split; [reflexivity|]). split; [now left|].
      split; [now left|]. right. left. rewrite Hlabs. eauto.
    + apply bool_decide_eq_false in Elab.
      destruct (classrooms self) as [|room rooms] eqn:Hrooms.
      { intros H. injection H as _ <-.
        split; [apply mutated_refl|reflexivity]. }
      apply (choice_modify_effect self individual l e (room :: rooms)
               (fun x => set_venue (classroom_id x) "classroom")
               w res w' Hin El).
      intros x Hx. unfold mutation_of. cbn.
      repeat (split; [reflexivity|]). split; [now left|].
      split; [now left|]. right. right. rewrite Hrooms. eauto.
Qed.

Lemma mutate_all_effect self individual : forall ls w res w',
  ls ⊆ individual ->
  mutate_all self ls w = (res, w') ->
  mutated self individual (heap w) (heap w') /\ conflicts w' = conflicts w.
Proof.
  induction ls as [|l ls IH]; intros w res w' Hsub; cbn [mutate_all].
  { intros H. injection H as _ <-.
    split; [apply mutated_refl|reflexivity]. }
  unfold mbind, M_bind.
  destruct (mutate_entry self l w) as [[[]|err] w1] eqn:E1;
    apply (mutate_entry_effect self individual) in E1 as [Hm Hc];
    try (apply Hsub; now left).
  - intros H. apply IH in H as [Hm' Hc'].
    + split; [eapply mutated_trans; eauto|congruence].
    + intros x Hx. apply Hsub. now right.
  - intros H. injection H as _ <-. auto.
Qed.

(** X11: Mutation assigns only the day, the two times and the venue of the
    dicts of the candidate it is given, with values taken from
    [working_days], [time_slots], [laboratories] (for a ['lab'] entry) and
    [classrooms] (for any other); subject, batch, faculty, shift, class
    type and priority are never written, no dict is added or removed, the
    dicts of no other location change, nothing is recorded in
    [self.conflicts], and the list returned is the one passed in.  This
    holds however the call ends. *)
Theorem mutation_writes_only_day_time_venue (self : optimizer)
    (individual : list loc) (w : world) :
  mutated self individual (heap w)
    (heap (comprehensive_mutation self individual w).2) /\
  conflicts (comprehensive_mutation self individual w).2 = conflicts w /\
  forall result, (comprehensive_mutation self individual w).1 = Ok result ->
    result = individual.
Proof.
  unfold comprehensive_mutation.
  destruct individual as [|l ls] eqn:E.
  { cbn. split; [apply mutated_refl|]. split; [reflexivity|]. congruence. }
  rewrite <- E. clear E.
  unfold mbind, M_bind.
  destruct (mutate_all self individual w) as [[[]|err] w1] eqn:E1;
    destruct (mutate_all_effect self individual individual w _ _
                ltac:(reflexivity) E1) as [Hm Hc]; cbn.
  - split; [exact Hm|]. split; [exact Hc|]. congruence.
  - split; [exact Hm|]. split; [exact Hc|]. discriminate.
Qed.

(** ** Days between the optimizer and the route *)

Lemma day_name_out_of_range n :
  ~ (1 <= n <= 5) -> convert_day_number_to_name n = "Monday".
Proof.
  intros H. unfold convert_day_number_to_name. cbn [list_to_map foldr].
  cbn [fst snd]. rewrite !lookup_insert_ne by lia. now rewrite lookup_empty.
Qed.

Lemma route_day_name_out_of_range n :
  ~ (1 <= n <= 7) -> convert_day_to_name n = "Monday".
Proof.
  intros H. unfold convert_day_to_name. cbn [list_to_map foldr].
  cbn [fst snd]. rewrite !lookup_insert_ne by lia. now rewrite lookup_empty.
Qed.

Lemma optimizer_day_stored (n : Z) :
  convert_day_to_number (convert_day_number_to_name n)
    = (if (1 <=? n) && (n <=? 5) then n else 1).
Proof.
  destruct (decide (1 <= n <= 5)) as [H|H].
  - assert (n = 1 \/ n = 2 \/ n = 3 \/ n = 4 \/ n = 5) as Hn by lia.
    destruct Hn as [->|[->|[->|[->| ->]]]]; vm_compute; reflexivity.
  - rewrite day_name_out_of_range by exact H.
    destruct (Z.leb_spec 1 n), (Z.leb_spec n 5); cbn; try reflexivity. lia.
Qed.

Lemma route_day_round_trip (n : Z) :
  convert_day_to_number (convert_day_to_name n)
    = (if (1 <=? n) && (n <=? 7) then n else 1).
Proof.
  destruct (decide (1 <= n <= 7)) as [H|H].
  - assert (n = 1 \/ n = 2 \/ n = 3 \/ n = 4 \/ n = 5 \/ n = 6 \/ n = 7)
      as Hn by lia.
    destruct Hn as [->|[->|[->|[->|[->|[->| ->]]]]]]; vm_compute; reflexivity.
  - rewrite route_day_name_out_of_range by exact H.
    destruct (Z.leb_spec 1 n), (Z.leb_spec n 7); cbn; try reflexivity. lia.
Qed.

(** X12: The day of a special class survives the way through the optimizer's
    dict and back to a stored row only for Monday to Friday: the
    optimizer's table has five days, so any other day number, Saturday
    and Sunday included, is written as ['Monday'] and stored as [1].  The
    route's own two tables are inverse to each other on [1..7]. *)
Theorem day_number_round_trip (n : Z) :
  convert_day_to_number (convert_day_number_to_name n)
    = (if (1 <=? n) && (n <=? 5) then n else 1) /\
  convert_day_to_number (convert_day_to_name n)
    = (if (1 <=? n) && (n <=? 7) then n else 1).
Proof. split; [apply optimizer_day_stored|apply route_day_round_trip]. Qed.

(** ** From a special class to its stored row *)

Lemma strptime_time_strftime (t : time) :
  time_ok t -> strptime_time (strftime_HM t) = Ok t.
Proof.
  intros Hok. unfold strptime_time. rewrite (strptime_strftime t Hok).
  destruct t as [h m]. destruct Hok as [Hh Hm]. cbn [hour minute] in *.
  cbn [mbind outcome_bind]. f_equal. f_equal.
  - replace (Z.of_nat h * 60 + Z.of_nat m) with (Z.of_nat m + Z.of_nat h * 60)
      by lia.
    rewrite Z.div_add by lia. rewrite Z.div_small by lia. lia.
  - replace (Z.of_nat h * 60 + Z.of_nat m) with (Z.of_nat m + Z.of_nat h * 60)
      by lia.
    rewrite Z.mod_add by lia. rewrite Z.mod_small by lia. lia.
Qed.

Lemma digit_val_le (c : ascii) : is_digit c = true -> (digit_val c <= 9)%nat.
Proof.
  unfold is_digit, digit_val. intros H.
  apply andb_true_iff in H as [_ H]. apply Nat.leb_le in H. lia.
Qed.

Lemma parse_H_lt s h rest : parse_H s = Some (h, rest) -> (h < 24)%nat.
Proof.
  unfold parse_H.
  destruct s as [|a [|b [|c s]]]; try discriminate.
  - destruct (is_digit a && bool_decide (b = colon)) eqn:E; [|discriminate].
    intros H. injection H as <- _.
    apply andb_true_iff in E as [E _]. apply digit_val_le in E. lia.
  - destruct (is_digit a && is_digit b && bool_decide (c = colon)
              && (10 * digit_val a + digit_val b <? 24)%nat) eqn:E.
    + intros H. injection H as <- _.
      apply andb_true_iff in E as [_ E]. now apply Nat.ltb_lt in E.
    + destruct (is_digit a && bool_decide (b = colon)) eqn:E'; [|discriminate].
      intros H. injection H as <- _.
      apply andb_true_iff in E' as [E' _]. apply digit_val_le in E'. lia.
Qed.

Lemma parse_M_lt s m : parse_M s = Some m -> (m < 60)%nat.
Proof.
  unfold parse_M.
  destruct s as [|a [|b [|c s]]]; try discriminate.
  - destruct (is_digit a) eqn:E; [|discriminate].
    intros H. injection H as <-. apply digit_val_le in E. lia.
  - destruct (is_digit a && is_digit b && (digit_val a <? 6)%nat) eqn:E;
      [|discriminate].
    intros H. injection H as <-.
    apply andb_true_iff in E as [E E6]. apply andb_true_iff in E as [_ Eb].
    apply Nat.ltb_lt in E6. apply digit_val_le in Eb. lia.
Qed.

Lemma strptime_time_ok s t : strptime_time s = Ok t -> time_ok t.
Proof.
  unfold strptime_time, strptime_HM.
  destruct (parse_H s) as [[h rest]|] eqn:EH; [|discriminate].
  destruct (parse_M rest) as [m|] eqn:EM; [|discriminate].
  cbn [mbind outcome_bind]. intros H. injection H as <-.
  apply parse_H_lt in EH. apply parse_M_lt in EM.
  unfold time_ok. cbn [hour minute].
  replace (Z.of_nat h * 60 + Z.of_nat m) with (Z.of_nat m + Z.of_nat h * 60)
    by lia.
  rewrite Z.div_add, Z.mod_add by lia.
  rewrite Z.div_small, Z.mod_small by lia. lia.
Qed.

(** X20: The text construction writes for a valid time of day is read
    back as that time, by the evaluator (in minutes after midnight) and by
    the route (as a time of day). *)
Theorem time_text_round_trip (t : time) :
  time_ok t ->
  strptime_HM (strftime_HM t)
    = Ok (Z.of_nat (hour t) * 60 + Z.of_nat (minute t)) /\
  strptime_time (strftime_HM t) = Ok t.
Proof.
  intros H. split; [now apply strptime_strftime|].
  now apply strptime_time_strftime.
Qed.

Lemma time_text_round_trip_witness :
  strptime_HM (strftime_HM {| hour := 9; minute := 5 |}) = Ok 545 /\
  strptime_time "09:05" = Ok {| hour := 9; minute := 5 |}.
Proof.
  exact (time_text_round_trip {| hour := 9; minute := 5 |}
           ltac:(split; cbn; lia)).
Defined.

(** X13: A special class comes back from the optimizer as a stored row with
    its own subject, batch, times, class type and the faculty of its
    subject, fixed, in classroom 1 and no laboratory, on its own day when
    that is Monday to Friday and on Monday otherwise. *)
Theorem special_class_stored_row (special : SpecialClass) (timetable_id : Z) :
  time_ok (row_start_time (sc_row special)) ->
  time_ok (row_end_time (sc_row special)) ->
  exists venue,
    get_suitable_venue (sc_subject special) (sc_batch special) = Some venue /\
    store_entry timetable_id (special_entry special venue) =
      Ok {| stored_timetable_id := timetable_id;
            stored_subject_id := row_subject_id (sc_row special);
            stored_faculty_id := subject_faculty_id (sc_subject special);
            stored_classroom_id := Some 1;
            stored_laboratory_id := None;
            stored_batch_id := row_batch_id (sc_row special);
            stored_day_of_week :=
              (let d := row_day_of_week (sc_row special) in
               if (1 <=? d) && (d <=? 5) then d else 1);
            stored_start_time := row_start_time (sc_row special);
            stored_end_time := row_end_time (sc_row special);
            stored_is_fixed := true;
            stored_shift :=
              (if (hour (row_start_time (sc_row special)) <? 14)%nat
               then "morning" else "evening");
            stored_class_type := row_class_type (sc_row special);
            stored_requires_setup := false;
            stored_setup_time_minutes := 0 |}.
Proof.
  intros Hs He. eexists. split; [reflexivity|].
  unfold store_entry, special_entry. cbn [start_time end_time].
  rewrite (strptime_time_strftime _ Hs), (strptime_time_strftime _ He).
  cbn [mbind outcome_bind]. cbn.
  now rewrite optimizer_day_stored.
Qed.

Lemma special_class_stored_row_witness :
  exists special row,
    load_special_class Samples.campus 1 (Samples.exam_row 1 3 9) = Some special /\
    store_entry 5 (special_entry special {| venue_pk := 1; venue_kind := "classroom" |})
      = Ok row /\
    stored_start_time row = {| hour := 9; minute := 0 |} /\
    stored_day_of_week row = 1 /\ stored_classroom_id row = Some 1.
Proof.
  destruct (load_special_class Samples.campus 1 (Samples.exam_row 1 3 9))
    as [special|] eqn:E; [|vm_compute in E; discriminate].
  vm_compute in E. injection E as <-.
  eexists _, _. split; [reflexivity|].
  match goal with |- store_entry _ (special_entry ?s _) = _ /\ _ =>
    destruct (special_class_stored_row s 5) as (venue & Hv & Hrow)
  end.
  { split; cbn; lia. }
  { split; cbn; lia. }
  injection Hv as <-. split; [exact Hrow|]. repeat split.
Defined.

Lemma convert_day_to_number_range (s : string) :
  1 <= convert_day_to_number s <= 7.
Proof.
  unfold convert_day_to_number.
  destruct (_ !! s) as [v|] eqn:E; cbn; [|lia].
  apply elem_of_list_to_map_2 in E.
  repeat (apply elem_of_cons in E as [E|E]; [injection E as _ ->; lia|]).
  inversion E.
Qed.

(** X14: Whatever dict the route is given, the row it builds names at most
    one venue (a classroom, a laboratory or, for any other venue type,
    none), has a day of week in [1..7] and valid times of day, and
    requires no setup; the call raises [ValueError] exactly when one of the
    two times is not of the form [%H:%M]. *)
Theorem stored_row_outcome (timetable_id : Z) (entry : ScheduleEntry) :
  match store_entry timetable_id entry with
  | Ok row =>
      parses entry = true /\
      (stored_classroom_id row = None \/ stored_laboratory_id row = None) /\
      1 <= stored_day_of_week row <= 7 /\
      time_ok (stored_start_time row) /\ time_ok (stored_end_time row) /\
      stored_requires_setup row = false
  | Raise e => e = ValueError /\ parses entry = false
  end.
Proof.
  unfold store_entry, parses.
  destruct (strptime_time (start_time entry)) as [s|e] eqn:Es.
  2:{ unfold strptime_time in Es.
      destruct (strptime_HM (start_time entry)) eqn:E; [discriminate|].
      apply strptime_HM_raises in E as ->. cbn in Es. injection Es as <-.
      cbn. auto. }
  destruct (strptime_time (end_time entry)) as [f|e] eqn:Ef.
  2:{ unfold strptime_time in Ef.
      destruct (strptime_HM (end_time entry)) eqn:E; [discriminate|].
      apply strptime_HM_raises in E as ->. cbn in Ef. injection Ef as <-.
      cbn. destruct (strptime_HM (start_time entry)); auto. }
  cbn [mbind outcome_bind]. cbn.
  pose proof (strptime_time_ok _ _ Es). pose proof (strptime_time_ok _ _ Ef).
  unfold strptime_time in Es, Ef.
  destruct (strptime_HM (start_time entry)); [|discriminate].
  destruct (strptime_HM (end_time entry)); [|discriminate].
  repeat split; auto; try apply convert_day_to_number_range;
    try (destruct H, H0; assumption).
  destruct (bool_decide (venue_type entry = Some "classroom")) eqn:Ec;
    [|now left].
  apply bool_decide_eq_true in Ec. right.
  rewrite bool_decide_eq_false_2; [reflexivity|]. rewrite Ec. discriminate.
Qed.

(** ** What construction builds *)

Lemma schedule_special_classes_content specials : forall schedule w,
  exists w',
    schedule_special_classes specials schedule w
      = (Ok (schedule ++ seq (length (heap w)) (length specials)), w') /\
    heap w' = heap w ++ map special_dict specials /\
    conflicts w' = conflicts w.
Proof.
  induction specials as [|s specials IH]; intros schedule w.
  - exists w. cbn. rewrite !app_nil_r. auto.
  - cbn [schedule_special_classes get_suitable_venue].
    unfold mbind at 1. unfold M_bind at 1. cbn [alloc].
    set (e := special_entry s _).
    set (w1 := {| heap := heap w ++ [e]; rng := rng w; drawn := drawn w;
                  conflicts := conflicts w |}).
    destruct (IH (schedule ++ [length (heap w)]) w1)
      as (w' & Hrun & Hheap & Hc).
    exists w'. rewrite Hheap, Hc. split.
    { etransitivity; [exact Hrun|]. subst w1. cbn [heap].
      rewrite length_app, <- app_assoc. cbn [length seq app].
      now replace (length (heap w) + 1)%nat with (S (length (heap w))) by lia. }
    subst w1. cbn [heap conflicts map]. rewrite <- app_assoc. auto.
Qed.

Lemma deref_fresh (h new : list ScheduleEntry) :
  deref (h ++ new) (seq (length h) (length new)) = Ok new.
Proof.
  revert h. induction new as [|e new IH]; intros h; [reflexivity|].
  cbn [length seq]. apply deref_cons. exists e, new.
  split; [|split; [|reflexivity]].
  - rewrite lookup_app_r by lia. now rewrite Nat.sub_diag.
  - specialize (IH (h ++ [e])). rewrite <- app_assoc in IH. cbn in IH.
    rewrite length_app in IH. cbn in IH.
    now replace (length h + 1)%nat with (S (length h)) in IH by lia.
Qed.

(** X15: Construction never fails and schedules the special classes and
    nothing else: a candidate is one new dict per special class of the
    semester (fixed, in classroom 1), whatever the subjects, laboratories
    and electives are; the dicts are new ones at every call, so two
    constructed candidates share none. *)
Theorem construction_schedules_special_classes_only (cfg : Config)
    (self : optimizer) (w : world) :
  exists individual w' entries,
    create_comprehensive_schedule cfg self w = (Ok individual, w') /\
    heap w' = heap w ++ map special_dict (special_classes self) /\
    Permutation individual
      (seq (length (heap w)) (length (special_classes self))) /\
    deref (heap w') individual = Ok entries /\
    Permutation entries (map special_dict (special_classes self)).
Proof.
  unfold create_comprehensive_schedule.
  destruct (schedule_special_classes_content (special_classes self) [] w)
    as (w1 & Hrun & Hheap & Hc).
  destruct (schedule_special_classes_spec (special_classes self) [] w)
    as (s1 & w1' & Hrun' & _ & Ha); [constructor|].
  rewrite Hrun in Hrun'. injection Hrun' as <- <-. cbn [app] in *.
  unfold mbind at 1. unfold M_bind at 1. rewrite Hrun.
  unfold schedule_lab_sessions, schedule_electives_advanced,
    schedule_theory_classes.
  rewrite !bind_ret. rewrite !app_nil_r.
  destruct (enforce_all_fixed cfg self _ w1 Ha) as (adjusted & cs & Hrun' & Hp).
  pose proof (deref_fresh (heap w) (map special_dict (special_classes self)))
    as Hd.
  rewrite length_map, <- Hheap in Hd.
  destruct (deref_Permutation (heap w1) _ _ (Permutation_sym Hp) _ Hd)
    as (entries & Hentries & Hperm).
  exists adjusted, (with_conflicts w1 cs), entries.
  split; [exact Hrun'|]. cbn [with_conflicts heap].
  split; [exact Hheap|]. split; [exact Hp|]. split; [exact Hentries|].
  now symmetry.
Qed.

(** ** The metrics of a solution and the driver *)

Lemma conflict_summary_counts (cs : list Conflict) (ty : string) :
  forall acc : gmap string Z,
  default 0 (foldl (fun m c =>
      <[conflict_type c := default 0 (m !! conflict_type c) + 1]> m) acc cs
    !! ty)
  = default 0 (acc !! ty) + Z.of_nat (count_where (of_type ty) cs).
Proof.
  induction cs as [|c cs IH]; intros acc; cbn [foldl].
  - unfold count_where. cbn. lia.
  - rewrite IH. unfold count_where, of_type. cbn [List.filter].
    destruct (bool_decide (conflict_type c = ty)) eqn:E.
    + apply bool_decide_eq_true in E. rewrite E, lookup_insert_eq.
      cbn [length default from_option id]. unfold default. cbn. lia.
    + apply bool_decide_eq_false in E.
      rewrite lookup_insert_ne by exact E. lia.
Qed.

Lemma count_where_le {A} (p : A -> bool) (l : list A) :
  (count_where p l <= length l)%nat.
Proof. unfold count_where. apply List.filter_length_le. Qed.

Lemma count_where_disjoint {A} (p q : A -> bool) (l : list A) :
  (forall x, p x = true -> q x = false) ->
  (count_where p l + count_where q l <= length l)%nat.
Proof.
  intros H. unfold count_where.
  induction l as [|x l IH]; cbn; [lia|].
  destruct (p x) eqn:Ep; [rewrite (H x Ep); cbn; lia|].
  destruct (q x); cbn; lia.
Qed.

(** X16: The metrics of a solution are computed without changing anything.
    They count the conflicts recorded so far in [self.conflicts] (which
    do not depend on the schedule passed in): [total_conflicts] is their
    number and [conflict_summary] their histogram by type.  The number of
    classes is the length of the schedule, theory and lab classes are
    disjoint parts of it, and the entry for cap violations is always 0.
    The call raises only for a time that is not [%H:%M]. *)
Theorem metrics_report (self : optimizer) (individual : list loc)
    (entries : list ScheduleEntry) (w : world) :
  deref (heap w) individual = Ok entries ->
  match calculate_solution_metrics self individual w with
  | (Ok m, w') =>
      w' = w /\
      Forall (fun e => parses e = true) entries /\
      total_conflicts m = length (conflicts w) /\
      (forall ty, default 0 (conflict_summary m !! ty)
                  = Z.of_nat (count_where (of_type ty) (conflicts w))) /\
      total_classes_scheduled m = length individual /\
      (theory_classes m + lab_classes m <= total_classes_scheduled m)%nat /\
      (fixed_classes m <= total_classes_scheduled m)%nat /\
      max_classes_per_day_violations m = 0
  | (Raise e, w') =>
      w' = w /\ e = ValueError /\
      ~ Forall (fun e => parses e = true) entries
  end.
Proof.
  intros Hd. unfold calculate_solution_metrics, read_schedule.
  unfold mbind at 1. unfold M_bind at 1. rewrite Hd.
  unfold mbind at 1. unfold M_bind at 1. unfold lift.
  destruct (collect_hours_outcome entries (∅, ∅))
    as [[Hall (r & Hr)]|[Hno Hr]]; rewrite Hr.
  - destruct r as [hours daily].
    unfold get_conflicts, mbind, M_bind, mret, M_ret.
    cbn [total_conflicts conflict_summary total_classes_scheduled
         theory_classes lab_classes fixed_classes
         max_classes_per_day_violations].
    split; [reflexivity|]. split; [exact Hall|]. split; [reflexivity|].
    split; [intros ty; now rewrite conflict_summary_counts, lookup_empty|].
    split; [apply deref_zip in Hd as [Hd _]; now rewrite Hd|].
    split; [|split; [apply count_where_le|reflexivity]].
    apply count_where_disjoint. intros e He.
    apply bool_decide_eq_true in He. apply bool_decide_eq_false.
    rewrite He. discriminate.
  - auto.
Qed.

Lemma metrics_report_witness :
  exists m,
    calculate_solution_metrics (Samples.optimizer_with Samples.room60)
      [0%nat; 1%nat; 2%nat] Samples.three_lectures
      = (Ok m, Samples.three_lectures) /\
    total_classes_scheduled m = 3%nat /\ total_conflicts m = 0%nat.
Proof.
  pose proof (metrics_report (Samples.optimizer_with Samples.room60)
                [0%nat; 1%nat; 2%nat] (heap Samples.three_lectures)
                Samples.three_lectures eq_refl) as H.
  destruct (calculate_solution_metrics (Samples.optimizer_with Samples.room60)
              [0%nat; 1%nat; 2%nat] Samples.three_lectures)
    as [[m|e] w'] eqn:E; [|vm_compute in E; discriminate].
  destruct H as (-> & _ & Hc & _ & Hn & _).
  exists m. split; [reflexivity|]. split; [exact Hn|exact Hc].
Defined.

Lemma metrics_conflicts self individual w m w' :
  calculate_solution_metrics self individual w = (Ok m, w') ->
  w' = w /\ total_conflicts m = length (conflicts w).
Proof.
  unfold calculate_solution_metrics. intros H.
  apply bind_ok in H as (es & w1 & Hes & H).
  unfold read_schedule in Hes. injection Hes as _ <-.
  apply bind_ok in H as ([hours daily] & w2 & Hh & H).
  apply lift_ok in Hh as [_ <-].
  apply bind_ok in H as (cs & w3 & Hcs & H).
  unfold get_conflicts in Hcs. injection Hcs as <- <-.
  apply ret_ok in H as [<- <-]. auto.
Qed.

Lemma solution_runs_spec cfg self (P : Solution -> Prop) :
  (forall s, total_conflicts (sol_metrics s) = length (sol_conflicts s) -> P s) ->
  forall remaining i solutions w result w',
  solution_runs cfg self i remaining solutions w = (Ok result, w') ->
  length result = (length solutions + remaining)%nat /\
  conflicts w' = match remaining with O => conflicts w | S _ => [] end /\
  (Forall P solutions -> Forall P result).
Proof.
  intros HP. induction remaining as [|remaining IH];
    intros i solutions w result w' H; cbn [solution_runs] in H.
  - apply ret_ok in H as [<- <-]. repeat split; auto.
  - cbn zeta in H.
    apply bind_ok in H as ([solution fitness] & w1 & _ & H).
    apply bind_ok in H as (metrics & w2 & Hm & H).
    apply metrics_conflicts in Hm as [-> Hm].
    apply bind_ok in H as (found & w3 & Hf & H).
    unfold get_conflicts in Hf. injection Hf as <- <-.
    apply bind_ok in H as ([] & w4 & Hr & H).
    unfold reset_conflicts in Hr. injection Hr as <-.
    apply IH in H as (Hlen & Hc & Hall).
    rewrite length_app in Hlen. cbn in Hlen.
    split; [lia|]. split.
    + rewrite Hc. now destruct remaining.
    + intros Hs. apply Hall. apply Forall_app. split; [exact Hs|].
      constructor; [|constructor]. apply HP. exact Hm.
Qed.

(** X17: The driver hands back exactly as many solutions as were asked for,
    each with as many conflicts in its list as its metrics count, and
    leaves [self.conflicts] empty after the last run. *)
Theorem driver_returns_requested_number (cfg : Config) (self : optimizer)
    (num_solutions : nat) (w : world) (solutions : list Solution) (w' : world) :
  generate_multiple_optimized_solutions cfg self num_solutions w
    = (Ok solutions, w') ->
  length solutions = num_solutions /\
  conflicts w' = match num_solutions with O => conflicts w | S _ => [] end /\
  Forall (fun s => total_conflicts (sol_metrics s) = length (sol_conflicts s))
    solutions.
Proof.
  unfold generate_multiple_optimized_solutions. intros H.
  apply bind_ok in H as (runs & w1 & Hruns & H). apply ret_ok in H as [<- <-].
  apply (solution_runs_spec cfg self
           (fun s => total_conflicts (sol_metrics s) = length (sol_conflicts s))
           ltac:(auto)) in Hruns as (Hlen & Hc & Hall).
  pose proof (stable_sort_Permutation fitness_ge runs) as Hp.
  split; [rewrite (Permutation_length Hp); exact Hlen|].
  split; [exact Hc|]. rewrite Hp. apply Hall. constructor.
Qed.

Lemma driver_returns_requested_number_witness :
  exists solutions w',
    generate_multiple_optimized_solutions Samples.small_Config
      (new_optimizer Samples.small_Config Samples.campus 1) 3
      (initial_world Samples.oracle_zero) = (Ok solutions, w') /\
    length solutions = 3%nat /\ conflicts w' = [].
Proof.
  destruct (generate_multiple_optimized_solutions Samples.small_Config
      (new_optimizer Samples.small_Config Samples.campus 1) 3
      (initial_world Samples.oracle_zero)) as [[solutions|e] w'] eqn:H;
    [|vm_compute in H; discriminate].
  destruct (driver_returns_requested_number _ _ _ _ _ _ H) as (Hl & Hc & _).
  exists solutions, w'. auto.
Defined.

(** ** Who records conflicts *)

Lemma quiet_ret {A} (a : A) : quiet (mret a : M A).
Proof. intros w. reflexivity. Qed.

Lemma quiet_lift {A} (o : outcome A) : quiet (lift o).
Proof. intros w. reflexivity. Qed.

Lemma quiet_bind {A B} (m : M A) (f : A -> M B) :
  quiet m -> (forall a, quiet (f a)) -> quiet (m ≫= f).
Proof.
  intros Hm Hf w. specialize (Hm w). unfold mbind, M_bind.
  destruct (m w) as [[a|e] w1]; cbn in *; [|exact Hm].
  now rewrite Hf.
Qed.

Lemma quiet_draw : quiet draw.
Proof. intros w. reflexivity. Qed.

Lemma quiet_random_random : quiet random_random.
Proof. apply quiet_bind; [apply quiet_draw|]. intros k. apply quiet_ret. Qed.

Lemma quiet_randbelow n : quiet (randbelow n).
Proof. apply quiet_bind; [apply quiet_draw|]. intros k. apply quiet_ret. Qed.

Lemma quiet_random_randint a b : quiet (random_randint a b).
Proof.
  unfold random_randint. destruct (a <=? b); [|apply quiet_lift].
  apply quiet_bind; [apply quiet_randbelow|]. intros i. apply quiet_ret.
Qed.

Lemma quiet_sample_pool k : forall pool, quiet (sample_pool pool k).
Proof.
  induction k as [|k IH]; intros pool; [apply quiet_ret|].
  cbn [sample_pool].
  apply quiet_bind; [apply quiet_randbelow|]. intros j.
  apply quiet_bind; [apply quiet_lift|]. intros x.
  apply quiet_bind; [apply quiet_lift|]. intros y.
  apply quiet_bind; [apply IH|]. intros rest. apply quiet_ret.
Qed.

Lemma quiet_tournament_selection population fitness_scores size :
  quiet (tournament_selection population fitness_scores size).
Proof.
  unfold tournament_selection, random_sample_range.
  apply quiet_bind.
  { destruct (_ <=? _)%nat; [apply quiet_sample_pool|apply quiet_lift]. }
  intros idx.
  apply quiet_bind; [apply quiet_lift|]. intros fs.
  apply quiet_bind; [apply quiet_lift|]. intros k.
  apply quiet_bind; [apply quiet_lift|]. intros win.
  apply quiet_lift.
Qed.

Lemma quiet_enhanced_crossover self parent1 parent2 :
  quiet (enhanced_crossover self parent1 parent2).
Proof.
  unfold enhanced_crossover.
  apply quiet_bind; [apply quiet_random_random|]. intros r.
  destruct (_ || _ || _); [apply quiet_ret|].
  apply quiet_bind; [apply quiet_random_randint|]. intros p.
  apply quiet_ret.
Qed.

Lemma quiet_comprehensive_mutation self individual :
  quiet (comprehensive_mutation self individual).
Proof.
  intros w. unfold comprehensive_mutation.
  destruct individual as [|l ls] eqn:E; [reflexivity|]. rewrite <- E.
  unfold mbind, M_bind.
  destruct (mutate_all self individual w) as [[[]|err] w1] eqn:E1;
    destruct (mutate_all_effect self individual individual w _ _
                ltac:(reflexivity) E1) as [_ Hc]; exact Hc.
Qed.

Lemma quiet_evaluate cfg self individual : quiet (evaluate cfg self individual).
Proof.
  unfold evaluate. apply quiet_bind; [intros w; reflexivity|].
  intros s. apply quiet_lift.
Qed.

Lemma quiet_mapM {A B} (f : A -> M B) (l : list A) :
  (forall a, quiet (f a)) -> quiet (mapM f l).
Proof.
  intros Hf. induction l as [|x l IH]; [apply quiet_ret|].
  cbn [mapM]. apply quiet_bind; [apply Hf|]. intros y.
  apply quiet_bind; [apply IH|]. intros ys. apply quiet_ret.
Qed.

Lemma quiet_breed self fuel : forall population fitness_scores new_population,
  quiet (breed self fuel population fitness_scores new_population).
Proof.
  induction fuel as [|fuel IH]; intros population fitness_scores new_population;
    cbn [breed]; destruct (_ <? _)%nat;
    try apply quiet_ret; try apply quiet_lift.
  apply quiet_bind; [apply quiet_tournament_selection|]. intros p1.
  apply quiet_bind; [apply quiet_tournament_selection|]. intros p2.
  apply quiet_bind; [apply quiet_enhanced_crossover|]. intros [o1 o2].
  apply quiet_bind; [apply quiet_comprehensive_mutation|]. intros o1'.
  apply quiet_bind; [apply quiet_comprehensive_mutation|]. intros o2'.
  apply IH.
Qed.

Lemma quiet_generation cfg self st : quiet (generation cfg self st).
Proof.
  unfold generation.
  apply quiet_bind; [apply quiet_mapM, quiet_evaluate|]. intros scores.
  apply quiet_bind; [apply quiet_lift|]. intros idx.
  apply quiet_bind.
  { destruct (Qlt_bool _ _); [|apply quiet_ret].
    apply quiet_bind; [apply quiet_lift|]. intros b. apply quiet_ret. }
  intros tracked.
  destruct (Qle_bool 900 _); [apply quiet_ret|].
  apply quiet_bind; [apply quiet_lift|]. intros elites.
  apply quiet_bind; [apply quiet_breed|]. intros np. apply quiet_ret.
Qed.

Lemma quiet_generations_from cfg self n :
  forall st, quiet (generations_from cfg self n st).
Proof.
  induction n as [|n IH]; intros st; [apply quiet_ret|].
  cbn [generations_from].
  apply quiet_bind; [apply quiet_generation|]. intros [st' stop].
  destruct stop; [apply quiet_ret|apply IH].
Qed.

Lemma sort_insert_snd {A B} (k : B -> B -> bool) (p : A * B)
    (l : list (A * B)) :
  (sort_insert (fun x y => k x.2 y.2) p l).*2 = sort_insert k p.2 l.*2.
Proof.
  induction l as [|q l IH]; cbn; [reflexivity|].
  destruct (k p.2 q.2); cbn; [reflexivity|]. now rewrite IH.
Qed.

Lemma stable_sort_snd {A B} (k : B -> B -> bool) (l : list (A * B)) :
  (stable_sort (fun x y => k x.2 y.2) l).*2 = stable_sort k l.*2.
Proof.
  induction l as [|p l IH]; cbn; [reflexivity|].
  unfold stable_sort in IH. now rewrite sort_insert_snd, IH.
Qed.

(** The conflicts the loop records depend on the dicts alone, not on
    where they are stored. *)
Lemma enforce_loop_conflicts cfg self (todo : list (loc * ScheduleEntry)) :
  forall todo' adjusted adjusted' counts w w',
  todo.*2 = todo'.*2 ->
  exists cs kept kept',
    enforce_loop cfg self todo adjusted counts w
      = (Ok kept, with_conflicts w cs) /\
    enforce_loop cfg self todo' adjusted' counts w'
      = (Ok kept', with_conflicts w' cs).
Proof.
  induction todo as [|[l e] todo IH];
    intros [|[l' e'] todo'] adjusted adjusted' counts w w' Heq;
    try discriminate.
  - exists [], adjusted, adjusted'. cbn. now rewrite !with_conflicts_nil.
  - cbn in Heq. injection Heq as <- Heq.
    cbn [enforce_loop]. cbn zeta.
    destruct (_ <? _).
    { apply IH. exact Heq. }
    destruct (get_is_fixed e).
    + rewrite !bind_append_conflict.
      edestruct (IH todo') as (cs & kept & kept' & H1 & H2); [exact Heq|].
      rewrite H1, H2. rewrite !with_conflicts_app. eauto.
    + unfold reschedule_to_different_day. rewrite !bind_ret.
      rewrite !bind_append_conflict.
      edestruct (IH todo') as (cs & kept & kept' & H1 & H2); [exact Heq|].
      rewrite H1, H2. rewrite !with_conflicts_app. eauto.
Qed.

Lemma with_conflicts_inj w cs cs' :
  with_conflicts w cs = with_conflicts w cs' -> cs = cs'.
Proof.
  intros H. apply (f_equal conflicts) in H. cbn in H.
  now apply app_inv_head in H.
Qed.

(** A construction appends the same conflicts whatever state it starts
    from. *)
Lemma construction_conflicts_any_state cfg self w :
  conflicts (create_comprehensive_schedule cfg self w).2
    = conflicts w ++ construction_conflicts cfg self.
Proof.
  assert (Hrun : forall w, exists kept cs,
    create_comprehensive_schedule cfg self w
      = (Ok kept, with_conflicts (schedule_special_classes
                                    (special_classes self) [] w).2 cs) /\
    forall w0, exists kept0,
      create_comprehensive_schedule cfg self w0
        = (Ok kept0, with_conflicts (schedule_special_classes
                                       (special_classes self) [] w0).2 cs)).
  { intros w1. 
    assert (Hone : forall w, exists todo,
      todo.*2 = stable_sort (fun a b => key_le (sort_key a) (sort_key b))
                  (map special_dict (special_classes self)) /\
      create_comprehensive_schedule cfg self w
        = enforce_loop cfg self todo [] ∅
            (schedule_special_classes (special_classes self) [] w).2).
    { intros w2. unfold create_comprehensive_schedule.
      destruct (schedule_special_classes_content (special_classes self) [] w2)
        as (w3 & Hs & Hheap & Hc).
      unfold mbind at 1. unfold M_bind at 1. rewrite Hs. cbn [snd app].
      unfold schedule_lab_sessions, schedule_electives_advanced,
        schedule_theory_classes.
      rewrite !bind_ret. rewrite !app_nil_r.
      unfold enforce_max_classes_per_day.
      unfold mbind at 1. unfold M_bind at 1. unfold read_schedule.
      pose proof (deref_fresh (heap w2)
                    (map special_dict (special_classes self))) as Hd.
      rewrite length_map, <- Hheap in Hd. rewrite Hd.
      eexists. split; [|reflexivity].
      rewrite (stable_sort_snd
                 (fun a b => key_le (sort_key a) (sort_key b))).
      rewrite snd_zip; [reflexivity|].
      rewrite length_seq, length_map. lia. }
    destruct (Hone w1) as (todo & Htodo & Hcreate).
    destruct (enforce_loop_conflicts cfg self todo todo [] [] ∅
                (schedule_special_classes (special_classes self) [] w1).2
                (schedule_special_classes (special_classes self) [] w1).2
                eq_refl) as (cs & kept & _ & Hk & _).
    exists kept, cs. split; [now rewrite Hcreate|].
    intros w0. destruct (Hone w0) as (todo0 & Htodo0 & Hcreate0).
    destruct (enforce_loop_conflicts cfg self todo todo0 [] [] ∅
                (schedule_special_classes (special_classes self) [] w1).2
                (schedule_special_classes (special_classes self) [] w0).2
                ltac:(congruence)) as (cs' & kept1 & kept0 & Hk1 & Hk0).
    rewrite Hk in Hk1. apply (f_equal snd) in Hk1. cbn [snd] in Hk1.
    apply with_conflicts_inj in Hk1 as <-.
    exists kept0. now rewrite Hcreate0. }
  assert (Hquiet : forall w,
    conflicts (schedule_special_classes (special_classes self) [] w).2
      = conflicts w).
  { intros w1.
    destruct (schedule_special_classes_content (special_classes self) [] w1)
      as (w3 & Hs & _ & Hc). now rewrite Hs. }
  destruct (Hrun w) as (kept & cs & Hw & Hany).
  unfold construction_conflicts.
  destruct (Hany (initial_world (fun _ => 0%N))) as (kept0 & H0).
  rewrite Hw, H0. cbn [snd with_conflicts conflicts].
  rewrite !Hquiet. reflexivity.
Qed.

Lemma initial_population_conflicts cfg self n : forall w,
  conflicts (initial_population cfg self n w).2
    = conflicts w ++ concat (replicate n (construction_conflicts cfg self)).
Proof.
  induction n as [|n IH]; intros w; cbn [initial_population].
  - cbn. now rewrite app_nil_r.
  - pose proof (construction_conflicts_any_state cfg self w) as Hc.
    destruct (create_comprehensive_schedule_spec cfg self w)
      as (ind & w1 & Hrun & _).
    unfold mbind at 1. unfold M_bind at 1. rewrite Hrun in *. cbn [snd] in Hc.
    specialize (IH w1).
    unfold mbind at 1. unfold M_bind at 1.
    destruct (initial_population cfg self n w1) as [[pop|e] w2];
      unfold mret, M_ret; cbn [snd] in *; rewrite IH, Hc, <- app_assoc;
      reflexivity.
Qed.

Lemma create_as_enforce cfg self w :
  exists w1,
    heap w1 = heap w ++ map special_dict (special_classes self) /\
    conflicts w1 = conflicts w /\
    create_comprehensive_schedule cfg self w
      = enforce_max_classes_per_day cfg self
          (seq (length (heap w)) (length (special_classes self))) w1.
Proof.
  unfold create_comprehensive_schedule.
  destruct (schedule_special_classes_content (special_classes self) [] w)
    as (w1 & Hs & Hheap & Hc).
  exists w1. split; [exact Hheap|]. split; [exact Hc|].
  unfold mbind at 1. unfold M_bind at 1. rewrite Hs.
  unfold schedule_lab_sessions, schedule_electives_advanced,
    schedule_theory_classes.
  rewrite !bind_ret. rewrite !app_nil_r. reflexivity.
Qed.

Lemma construction_conflicts_counts cfg self :
  Forall (fun c => conflict_type c = "max_classes_exceeded")
    (construction_conflicts cfg self) /\
  forall b d,
    Z.of_nat (count_where (is_fixed_conflict_on b d)
                (construction_conflicts cfg self)) =
    Z.max 0 (fixed_on b d (map special_dict (special_classes self))
             - Z.max 0 (max_classes_of cfg self b)).
Proof.
  unfold construction_conflicts.
  set (w0 := initial_world (fun _ => 0%N)).
  destruct (create_as_enforce cfg self w0) as (w1 & Hheap & Hc & ->).
  pose proof (deref_fresh (heap w0)
                (map special_dict (special_classes self))) as Hd.
  rewrite length_map, <- Hheap in Hd.
  destruct (enforce_pairs cfg self _ w1 _ Hd)
    as (kept & dropped & cs & Hrun & Hp & _ & Hdrop & _ & Hty & _ & Hcnt & _).
  rewrite Hrun. cbn [snd with_conflicts conflicts].
  rewrite Hc. cbn [w0 initial_world conflicts app].
  split; [exact Hty|]. intros b d. rewrite Hcnt.
  assert (dropped = []) as ->.
  { destruct dropped as [|p dropped]; [reflexivity|]. exfalso.
    apply Forall_cons in Hdrop as [Hf _].
    assert (Hin : p ∈ zip (seq (length (heap w0))
                             (length (special_classes self)))
                        (map special_dict (special_classes self))).
    { rewrite Hp. apply elem_of_app. right. now left. }
    destruct p as [l e]. apply elem_of_zip_r in Hin. cbn in Hf.
    apply list_elem_of_fmap in Hin as (s & -> & _). discriminate. }
  rewrite app_nil_r in Hp.
  assert (Permutation kept.*2 (map special_dict (special_classes self))) as Hp2.
  { rewrite <- Hp. rewrite snd_zip; [reflexivity|].
    rewrite length_seq, length_map. lia. }
  unfold fixed_on. now rewrite (count_where_Permutation _ _ _ Hp2).
Qed.

(** X18: Conflicts are recorded by construction only, once for every
    candidate of the initial population: however a run of the optimizer
    ends, it has appended [population_size] copies of the conflicts of one
    construction to [self.conflicts], and the search itself none.  One
    construction records, for every batch and day, one conflict per fixed
    class beyond the cap. *)
Theorem conflicts_recorded_once_per_candidate (cfg : Config)
    (self : optimizer) (w : world) :
  conflicts (optimize_with_comprehensive_constraints cfg self w).2
    = conflicts w ++
      concat (replicate (population_size self)
                (construction_conflicts cfg self)) /\
  forall b d,
    Z.of_nat (count_where (is_fixed_conflict_on b d)
                (construction_conflicts cfg self)) =
    Z.max 0 (fixed_on b d (map special_dict (special_classes self))
             - Z.max 0 (max_classes_of cfg self b)).
Proof.
  split; [|apply construction_conflicts_counts].
  unfold optimize_with_comprehensive_constraints.
  pose proof (initial_population_conflicts cfg self (population_size self) w)
    as Hinit.
  unfold mbind at 1. unfold M_bind at 1.
  destruct (initial_population cfg self (population_size self) w)
    as [[pop|e] w1]; cbn [snd] in Hinit; [|exact Hinit].
  rewrite <- Hinit.
  apply (quiet_bind _ _ (quiet_generations_from cfg self _ _)).
  intros st. destruct (best_individual st); [apply quiet_ret|].
  apply quiet_bind; [apply quiet_evaluate|]. intros f. apply quiet_ret.
Qed.

(** ** The search on fixed classes *)

Lemma heap_const_same_size {A} (m : M A) : heap_const m -> same_size m.
Proof. intros H w. now rewrite H. Qed.

Lemma same_size_ret {A} (a : A) : same_size (mret a : M A).
Proof. intros w. reflexivity. Qed.

Lemma same_size_bind {A B} (m : M A) (f : A -> M B) :
  same_size m -> (forall a, same_size (f a)) -> same_size (m ≫= f).
Proof.
  intros Hm Hf w. specialize (Hm w). unfold mbind, M_bind.
  destruct (m w) as [[a|e] w1]; cbn in *; [|exact Hm].
  now rewrite Hf.
Qed.

Lemma same_size_comprehensive_mutation self individual :
  same_size (comprehensive_mutation self individual).
Proof.
  intros w. unfold comprehensive_mutation.
  destruct individual as [|l ls] eqn:E; [reflexivity|]. rewrite <- E.
  unfold mbind, M_bind.
  destruct (mutate_all self individual w) as [[[]|err] w1] eqn:E1;
    destruct (mutate_all_effect self individual individual w _ _
                ltac:(reflexivity) E1) as [[Hlen _] _]; exact Hlen.
Qed.

Lemma same_size_breed self fuel : forall population fitness_scores new_population,
  same_size (breed self fuel population fitness_scores new_population).
Proof.
  induction fuel as [|fuel IH]; intros population fitness_scores new_population;
    cbn [breed]; destruct (_ <? _)%nat;
    try apply same_size_ret;
    try apply heap_const_same_size, heap_const_lift.
  apply same_size_bind;
    [apply heap_const_same_size, heap_const_tournament_selection|]. intros p1.
  apply same_size_bind;
    [apply heap_const_same_size, heap_const_tournament_selection|]. intros p2.
  apply same_size_bind;
    [apply heap_const_same_size, heap_const_enhanced_crossover|]. intros [o1 o2].
  apply same_size_bind; [apply same_size_comprehensive_mutation|]. intros o1'.
  apply same_size_bind; [apply same_size_comprehensive_mutation|]. intros o2'.
  apply IH.
Qed.

Lemma same_size_generation cfg self st : same_size (generation cfg self st).
Proof.
  unfold generation.
  apply same_size_bind.
  { apply heap_const_same_size, heap_const_mapM. apply heap_const_evaluate. }
  intros scores.
  apply same_size_bind; [apply heap_const_same_size, heap_const_lift|].
  intros idx.
  apply same_size_bind.
  { destruct (Qlt_bool _ _); [|apply same_size_ret].
    apply same_size_bind; [apply heap_const_same_size, heap_const_lift|].
    intros b. apply same_size_ret. }
  intros tracked.
  destruct (Qle_bool 900 _); [apply same_size_ret|].
  apply same_size_bind; [apply heap_const_same_size, heap_const_lift|].
  intros elites.
  apply same_size_bind; [apply same_size_breed|]. intros np.
  apply same_size_ret.
Qed.

Lemma same_size_generations_from cfg self n :
  forall st, same_size (generations_from cfg self n st).
Proof.
  induction n as [|n IH]; intros st; [apply same_size_ret|].
  cbn [generations_from].
  apply same_size_bind; [apply same_size_generation|]. intros [st' stop].
  destruct stop; [apply same_size_ret|apply IH].
Qed.

(** A store of fixed dicts cannot change without changing size. *)
Lemma all_fixed_store_stable (h h' : list ScheduleEntry) :
  Forall (fun e => get_is_fixed e = true) h ->
  fixed_stable h h' -> length h' = length h -> h' = h.
Proof.
  intros Hall Hs Hlen. apply list_eq. intros l.
  destruct (h !! l) as [e|] eqn:E.
  - apply Hs; [exact E|]. rewrite Forall_forall in Hall. apply Hall.
    eapply list_elem_of_lookup_2. exact E.
  - apply lookup_ge_None in E. apply lookup_ge_None. lia.
Qed.

Lemma initial_population_heap cfg self n : forall w,
  heap (initial_population cfg self n w).2
    = heap w ++ concat (replicate n (map special_dict (special_classes self))).
Proof.
  induction n as [|n IH]; intros w; cbn [initial_population].
  - cbn. now rewrite app_nil_r.
  - destruct (create_as_enforce cfg self w) as (w1 & Hheap & _ & Hcreate).
    pose proof (deref_fresh (heap w)
                  (map special_dict (special_classes self))) as Hd.
    rewrite length_map, <- Hheap in Hd.
    destruct (enforce_pairs cfg self _ w1 _ Hd)
      as (kept & dropped & cs & Hrun & _).
    unfold mbind at 1. unfold M_bind at 1. rewrite Hcreate, Hrun.
    specialize (IH (with_conflicts w1 cs)).
    unfold mbind at 1. unfold M_bind at 1.
    destruct (initial_population cfg self n (with_conflicts w1 cs))
      as [[pop|e] w2]; unfold mret, M_ret; cbn [snd] in *;
      rewrite IH; cbn [with_conflicts heap]; rewrite Hheap, <- app_assoc;
      reflexivity.
Qed.

Lemma only_special_dicts_fixed self h :
  only_special_dicts self h -> Forall (fun e => get_is_fixed e = true) h.
Proof.
  intros H. eapply List.Forall_impl; [|exact H].
  intros e (s & _ & ->). reflexivity.
Qed.

Lemma only_special_dicts_grow self h n :
  only_special_dicts self h ->
  only_special_dicts self
    (h ++ concat (replicate n (map special_dict (special_classes self)))).
Proof.
  intros H. apply Forall_app. split; [exact H|].
  apply Forall_concat. apply Forall_replicate.
  apply Forall_forall. intros e He.
  apply list_elem_of_fmap in He as (s & -> & Hs). eauto.
Qed.

Lemma deref_members h ind : forall es,
  deref h ind = Ok es -> Forall (fun e => e ∈ h) es.
Proof.
  induction ind as [|l ind IH]; intros es H.
  - injection H as <-. constructor.
  - apply deref_cons in H as (e & es' & He & Hes & ->).
    constructor; [|now apply IH]. eapply list_elem_of_lookup_2. exact He.
Qed.

(** X19: Every class the optimizer schedules is fixed, so the search
    cannot move any: from a store that holds only dicts of special classes
    (the empty store of a new optimizer, or the store a previous run
    leaves), a run adds the dicts of [population_size] constructions and
    changes none, however it ends; and the schedule it returns consists of
    one unchanged special-class dict per special class. *)
Theorem search_returns_unchanged_special_dicts (cfg : Config)
    (self : optimizer) (w : world) :
  only_special_dicts self (heap w) ->
  heap (optimize_with_comprehensive_constraints cfg self w).2
    = heap w ++ concat (replicate (population_size self)
                          (map special_dict (special_classes self))) /\
  forall best fitness,
    (optimize_with_comprehensive_constraints cfg self w).1
      = Ok (best, fitness) ->
    (0 < population_size self)%nat ->
    exists entries,
      deref (heap (optimize_with_comprehensive_constraints cfg self w).2) best
        = Ok entries /\
      length entries = length (special_classes self) /\
      only_special_dicts self entries.
Proof.
  intros Hw.
  assert (Hheap :
    heap (optimize_with_comprehensive_constraints cfg self w).2
    = heap w ++ concat (replicate (population_size self)
                          (map special_dict (special_classes self)))).
  { unfold optimize_with_comprehensive_constraints.
    pose proof (initial_population_heap cfg self (population_size self) w)
      as Hinit.
    unfold mbind at 1. unfold M_bind at 1.
    destruct (initial_population cfg self (population_size self) w)
      as [[pop|e] w1]; cbn [snd] in Hinit; [|exact Hinit].
    rewrite <- Hinit.
    match goal with |- heap (?m w1).2 = _ => set (rest := m) end.
    assert (Hk : keeps rest).
    { unfold rest. apply keeps_bind; [apply keeps_generations_from|].
      intros st.
      destruct (best_individual st); [apply keeps_ret|].
      apply keeps_bind; [apply heap_const_keeps, heap_const_evaluate|].
      intros f. apply keeps_ret. }
    assert (Hs : same_size rest).
    { unfold rest.
      apply same_size_bind; [apply same_size_generations_from|]. intros st.
      destruct (best_individual st); [apply same_size_ret|].
      apply same_size_bind;
        [apply heap_const_same_size, heap_const_evaluate|].
      intros f. apply same_size_ret. }
    apply all_fixed_store_stable; [|apply keeps_run, Hk|apply Hs].
    rewrite Hinit. apply (only_special_dicts_fixed self).
    now apply only_special_dicts_grow. }
  split; [exact Hheap|]. intros best fitness Hrun Hsize.
  destruct (optimize_with_comprehensive_constraints cfg self w)
    as [r w'] eqn:E. cbn [fst snd] in *. subst r.
  destruct (optimize_good cfg self w best fitness w' Hsize E) as [Hlen Ha].
  destruct (all_fixed_deref _ _ Ha) as (es & Hd & Hl & _).
  exists es. split; [exact Hd|]. split; [lia|].
  apply deref_members in Hd.
  pose proof (only_special_dicts_grow self (heap w) (population_size self) Hw)
    as Hall.
  rewrite <- Hheap in Hall. unfold only_special_dicts in *.
  rewrite Forall_forall in Hall. apply Forall_forall. intros e He.
  rewrite Forall_forall in Hd. apply Hall. now apply Hd.
Qed.

Lemma search_returns_unchanged_special_dicts_witness :
  exists best fitness w' entries,
    optimize_with_comprehensive_constraints Samples.small_Config
      (new_optimizer Samples.small_Config Samples.exam_week 1)
      (initial_world Samples.oracle_zero) = (Ok (best, fitness), w') /\
    length (heap w') = 56%nat /\
    deref (heap w') best = Ok entries /\
    length entries = 14%nat.
Proof.
  destruct (search_returns_unchanged_special_dicts Samples.small_Config
              (new_optimizer Samples.small_Config Samples.exam_week 1)
              (initial_world Samples.oracle_zero) ltac:(constructor))
    as [Hheap Hbest].
  destruct (optimize_with_comprehensive_constraints Samples.small_Config
      (new_optimizer Samples.small_Config Samples.exam_week 1)
      (initial_world Samples.oracle_zero)) as [[[best fitness]|e] w'] eqn:H;
    [|vm_compute in H; discriminate].
  destruct (Hbest best fitness eq_refl ltac:(cbn; lia))
    as (entries & Hd & Hl & _).
  exists best, fitness, w', entries. split; [reflexivity|].
  split; [|split; [exact Hd|exact Hl]].
  cbn [snd] in Hheap. rewrite Hheap. reflexivity.
Defined.
